(** * DocuChain: hash-chain ledger and preview-envelope codec

    A shallow embedding of the integrity core of the DocuChain backend:

    - [utils/hash.ts]: [calculateHash], [deterministicStringify],
      [calculateObjectHash];
    - [modules/documents/utils/preview-envelope.ts]:
      [attachPreviewEnvelope], [extractPreviewEnvelope];
    - [modules/blockchain/services/blockchain.service.ts]: [createBlock],
      [verifyBlockchain], [getAnonymizedBlockchain];
    - [routes/v1/blockchain.ts]: the clamping of the [limit] query parameter;
    - [modules/documents/controllers/documents.controller.ts]: the
      verification prologue of [signDocument].

    The Node and ECMAScript built-ins these functions call (SHA-256, HMAC,
    base64, [JSON.stringify], [JSON.parse], [Date.prototype.toISOString],
    [parseInt]) are written out as executable Rocq functions, so that every
    definition below can be evaluated on concrete inputs.

    Conventions of the embedding.
    - A JavaScript string is a Rocq [string] holding the UTF-8 encoding of the
      text: [Buffer.from(s, 'utf-8')] and [buf.toString('utf-8')] are then the
      conversions between [string] and [list byte].  (Node replaces ill-formed
      UTF-8 by U+FFFD when decoding; the embedding keeps the bytes.)
    - A [Buffer] is a [list byte].
    - 32-bit words of the digest are integers in [Z], reduced modulo [2^32]
      where the algorithm wraps around. *)

From Stdlib Require Import ZArith List Bool Lia.
From Stdlib.Strings Require Import String Ascii Byte.
From Stdlib Require Import DecimalString DecimalN.
From Stdlib Require Import Permutation Sorting.Sorted.
Import ListNotations.

Set Warnings "-register-all".
#[local] Set Warnings "-notation-overridden".

Local Open Scope Z_scope.

(** ** Buffers *)

Definition Buffer := list byte.

Definition byte_to_Z (b : byte) : Z := Z.of_N (Byte.to_N b).

Definition byte_of_Z (z : Z) : byte :=
  match Byte.of_N (Z.to_N (z mod 256)) with
  | Some b => b
  | None => x00
  end.

(** [Buffer.from(s, 'utf-8')] and [buf.toString('utf-8')]. *)
Definition buffer_of_string (s : string) : Buffer := list_byte_of_string s.
Definition string_of_buffer (b : Buffer) : string := string_of_list_byte b.

(** ** Hexadecimal rendering, as [digest('hex')] produces it *)

Definition hex_digit (n : Z) : ascii :=
  match n with
  | 0 => "0" | 1 => "1" | 2 => "2" | 3 => "3" | 4 => "4"
  | 5 => "5" | 6 => "6" | 7 => "7" | 8 => "8" | 9 => "9"
  | 10 => "a" | 11 => "b" | 12 => "c" | 13 => "d" | 14 => "e"
  | _ => "f"
  end%char.

Fixpoint hex_of_Zs (l : list Z) : string :=
  match l with
  | [] => EmptyString
  | z :: r => String (hex_digit (z / 16)) (String (hex_digit (z mod 16)) (hex_of_Zs r))
  end.

(** ** SHA-256 (FIPS 180-4), the digest behind [crypto.createHash('sha256')] *)

Module SHA256.

Definition w32 : Z := 4294967296.

Definition add32 (a b : Z) : Z := (a + b) mod w32.

Definition rotr (n x : Z) : Z :=
  Z.lor (Z.shiftr x n) (Z.shiftl x (32 - n) mod w32).

Definition shr (n x : Z) : Z := Z.shiftr x n.

Definition not32 (x : Z) : Z := Z.lxor x (w32 - 1).

Definition Ch (x y z : Z) : Z := Z.lxor (Z.land x y) (Z.land (not32 x) z).

Definition Maj (x y z : Z) : Z :=
  Z.lxor (Z.lxor (Z.land x y) (Z.land x z)) (Z.land y z).

Definition Sigma0 (x : Z) : Z := Z.lxor (Z.lxor (rotr 2 x) (rotr 13 x)) (rotr 22 x).
Definition Sigma1 (x : Z) : Z := Z.lxor (Z.lxor (rotr 6 x) (rotr 11 x)) (rotr 25 x).
Definition sigma0 (x : Z) : Z := Z.lxor (Z.lxor (rotr 7 x) (rotr 18 x)) (shr 3 x).
Definition sigma1 (x : Z) : Z := Z.lxor (Z.lxor (rotr 17 x) (rotr 19 x)) (shr 10 x).

(** The constants, as FIPS 180-4 defines them: the first 32 bits of the
    fractional parts of the cube roots ([K]) and of the square roots ([H0])
    of the first primes. *)
Definition is_prime (p : Z) : bool :=
  forallb (fun d => negb (p mod Z.of_nat d =? 0)) (seq 2 (Z.to_nat p - 2)).

Definition primes : list Z := filter is_prime (map Z.of_nat (seq 2 310)).

(** The integer cube root of [n], one bit at a time from bit [bits - 1] down. *)
Fixpoint cube_root (bits : nat) (n r : Z) : Z :=
  match bits with
  | O => r
  | S b =>
      let c := r + 2 ^ Z.of_nat b in
      cube_root b n (if c * c * c <=? n then c else r)
  end.

Definition K : list Z :=
  Eval vm_compute in map (fun p => cube_root 36 (p * 2 ^ 96) 0 mod 2 ^ 32) primes.

Definition H0 : list Z :=
  Eval vm_compute in map (fun p => Z.sqrt (p * 2 ^ 64) mod 2 ^ 32) (firstn 8 primes).

(** Big-endian bytes of a [n]-byte integer. *)
Fixpoint be_bytes (n : nat) (x : Z) : list Z :=
  match n with
  | O => []
  | S n' => (x / 256 ^ Z.of_nat n') mod 256 :: be_bytes n' x
  end.

(** Padding: the bit [1], zeros up to 56 modulo 64, the bit length on 8 bytes. *)
Definition pad (msg : list Z) : list Z :=
  let len := Z.of_nat (List.length msg) in
  let zeros := Z.to_nat ((55 - len) mod 64) in
  msg ++ 128 :: repeat 0 zeros ++ be_bytes 8 (8 * len).

Fixpoint words (fuel : nat) (bs : list Z) : list Z :=
  match fuel, bs with
  | S fuel', b0 :: b1 :: b2 :: b3 :: r =>
      (((b0 * 256 + b1) * 256 + b2) * 256 + b3) :: words fuel' r
  | _, _ => []
  end.

(** The message schedule, kept newest word first. *)
Fixpoint schedule (n : nat) (rev_w : list Z) : list Z :=
  match n with
  | O => rev_w
  | S n' =>
      let w := add32 (add32 (sigma1 (nth 1 rev_w 0)) (nth 6 rev_w 0))
                     (add32 (sigma0 (nth 14 rev_w 0)) (nth 15 rev_w 0)) in
      schedule n' (w :: rev_w)
  end.

Record regs := Regs { ra : Z; rb : Z; rc : Z; rd : Z; re : Z; rf : Z; rg : Z; rh : Z }.

Definition round (s : regs) (kw : Z * Z) : regs :=
  let t1 := add32 (add32 (add32 (rh s) (Sigma1 (re s)))
                         (add32 (Ch (re s) (rf s) (rg s)) (fst kw))) (snd kw) in
  let t2 := add32 (Sigma0 (ra s)) (Maj (ra s) (rb s) (rc s)) in
  Regs (add32 t1 t2) (ra s) (rb s) (rc s) (add32 (rd s) t1) (re s) (rf s) (rg s).

Definition regs_of (h : list Z) : regs :=
  Regs (nth 0 h 0) (nth 1 h 0) (nth 2 h 0) (nth 3 h 0)
       (nth 4 h 0) (nth 5 h 0) (nth 6 h 0) (nth 7 h 0).

Definition list_of (s : regs) : list Z :=
  [ra s; rb s; rc s; rd s; re s; rf s; rg s; rh s].

Definition compress (h : list Z) (block : list Z) : list Z :=
  let w := rev (schedule 48 (rev block)) in
  let s := fold_left round (combine K w) (regs_of h) in
  map (fun p => add32 (fst p) (snd p)) (combine h (list_of s)).

Fixpoint blocks (fuel : nat) (h : list Z) (ws : list Z) : list Z :=
  match fuel with
  | O => h
  | S fuel' =>
      match ws with
      | [] => h
      | _ => blocks fuel' (compress h (firstn 16 ws)) (skipn 16 ws)
      end
  end.

Definition digest_Z (msg : list Z) : list Z :=
  let p := pad msg in
  let ws := words (List.length p) p in
  flat_map (be_bytes 4) (blocks (List.length ws) H0 ws).

Definition digest (msg : Buffer) : Buffer :=
  map byte_of_Z (digest_Z (map byte_to_Z msg)).

End SHA256.

(** ** HMAC-SHA256 (RFC 2104), behind [crypto.createHmac('sha256', key)] *)

Module HMAC.

Definition block_size : nat := 64.

Definition norm_key (key : list Z) : list Z :=
  let k := if (Nat.ltb block_size (List.length key)) then SHA256.digest_Z key else key in
  k ++ repeat 0 (block_size - List.length k).

Definition hmac_Z (key msg : list Z) : list Z :=
  let k := norm_key key in
  let ikey := map (Z.lxor 0x36) k in
  let okey := map (Z.lxor 0x5c) k in
  SHA256.digest_Z (okey ++ SHA256.digest_Z (ikey ++ msg)).

End HMAC.

(** ** utils/hash.ts *)

(** [calculateHash(data: string | Buffer)]: the two overloads. *)
Definition calculateHashBuffer (data : Buffer) : string :=
  hex_of_Zs (SHA256.digest_Z (map byte_to_Z data)).

Definition calculateHash (data : string) : string :=
  calculateHashBuffer (buffer_of_string data).

(** [crypto.createHmac('sha256', key).update(data).digest('hex')]. *)
Definition createHmac (key data : string) : string :=
  hex_of_Zs (HMAC.hmac_Z (map byte_to_Z (buffer_of_string key))
                         (map byte_to_Z (buffer_of_string data))).

Local Open Scope string_scope.

(** ** JavaScript values

    The values that reach the serializers: [undefined], [null], booleans,
    numbers, strings, arrays and plain objects.  An object lists its own
    enumerable properties in enumeration order (what [Object.keys] returns);
    a JavaScript object never holds the same key twice, which [wf_value]
    records.  Every consumer below either sorts the keys or is insensitive to
    their order, apart from [metadata_keys], which reports them as listed. *)

(** A finite number, as an exact decimal: the value is
    [(-1)^nneg * ndigits * 10^nexp], with [ndigits] the significant decimal
    digits, most significant first, without leading or trailing zero (no digit
    at all for zero).  This is what a double denotes whenever the decimal has
    at most 15 significant digits and lies in the double range; beyond that
    Node rounds and the embedding does not.  [NaN] and the infinities, which
    [JSON.parse] never produces, are left out. *)
Record number := Num { nneg : bool; ndigits : string; nexp : Z }.

Inductive value :=
| VUndefined
| VNull
| VBool (b : bool)
| VNum (n : number)
| VStr (s : string)
| VArr (items : list value)
| VObj (props : list (string * value)).

Definition is_digit (c : ascii) : bool :=
  (("0" <=? c) && (c <=? "9"))%char.

Fixpoint all_digits (s : string) : bool :=
  match s with
  | EmptyString => true
  | String c r => is_digit c && all_digits r
  end.

Fixpoint last_char (s : string) (d : ascii) : ascii :=
  match s with
  | EmptyString => d
  | String c r => last_char r c
  end.

Definition wf_number (n : number) : Prop :=
  all_digits (ndigits n) = true /\
  match ndigits n with
  | EmptyString => nneg n = false /\ nexp n = 0%Z
  | String c r => c <> "0"%char /\ last_char r c <> "0"%char
  end.

Definition keys (props : list (string * value)) : list string := map fst props.

(** [o[k]]: the value of an own property, [undefined] when there is none. *)
Fixpoint get_prop (props : list (string * value)) (k : string) : value :=
  match props with
  | [] => VUndefined
  | (k', v) :: r => if (k' =? k)%string then v else get_prop r k
  end.

Inductive wf_value : value -> Prop :=
| wf_undefined : wf_value VUndefined
| wf_null : wf_value VNull
| wf_bool b : wf_value (VBool b)
| wf_num n : wf_number n -> wf_value (VNum n)
| wf_str s : wf_value (VStr s)
| wf_arr l : Forall wf_value l -> wf_value (VArr l)
| wf_obj props :
    NoDup (keys props) ->
    Forall (fun kv => wf_value (snd kv)) props ->
    wf_value (VObj props).

(** Structural equality up to the order in which objects list their keys. *)
Inductive same_value : value -> value -> Prop :=
| same_undefined : same_value VUndefined VUndefined
| same_null : same_value VNull VNull
| same_bool b : same_value (VBool b) (VBool b)
| same_num n : same_value (VNum n) (VNum n)
| same_str s : same_value (VStr s) (VStr s)
| same_arr l1 l2 : Forall2 same_value l1 l2 -> same_value (VArr l1) (VArr l2)
| same_obj p1 p2 :
    (forall k, In k (keys p1) <-> In k (keys p2)) ->
    (forall k, In k (keys p1) -> same_value (get_prop p1 k) (get_prop p2 k)) ->
    same_value (VObj p1) (VObj p2).

(** ** Strings and numbers as JSON text *)

Fixpoint join (sep : string) (l : list string) : string :=
  match l with
  | [] => ""
  | [x] => x
  | x :: r => x ++ sep ++ join sep r
  end.

Definition hex4 (n : Z) : string :=
  String (hex_digit (n / 4096 mod 16)) (String (hex_digit (n / 256 mod 16))
    (String (hex_digit (n / 16 mod 16)) (String (hex_digit (n mod 16)) ""))).

Definition code (c : ascii) : Z := Z.of_N (N_of_ascii c).

(** QuoteJSONString, one code unit at a time. *)
Definition dquote : ascii := "034"%char.

Definition escape_char (c : ascii) : string :=
  if (c =? dquote)%char then String "\" (String dquote "")
  else if (c =? "\")%char then "\\"
  else if (c =? "008")%char then "\b"
  else if (c =? "012")%char then "\f"
  else if (c =? "010")%char then "\n"
  else if (c =? "013")%char then "\r"
  else if (c =? "009")%char then "\t"
  else if (code c <? 32)%Z then "\u" ++ hex4 (code c)
  else String c "".

Fixpoint escape (s : string) : string :=
  match s with
  | EmptyString => ""
  | String c r => escape_char c ++ escape r
  end.

Definition quote (s : string) : string :=
  String dquote (escape s ++ String dquote "").

Fixpoint zeros (n : nat) : string :=
  match n with
  | O => ""
  | S n' => String "0" (zeros n')
  end.

Fixpoint str_take (n : nat) (s : string) : string :=
  match n, s with
  | S n', String c r => String c (str_take n' r)
  | _, _ => ""
  end.

Fixpoint str_drop (n : nat) (s : string) : string :=
  match n, s with
  | S n', String c r => str_drop n' r
  | _, _ => s
  end.

Definition string_of_N (n : N) : string :=
  NilEmpty.string_of_uint (N.to_uint n).

Definition N_of_string (s : string) : N :=
  match NilEmpty.uint_of_string s with
  | Some d => N.of_uint d
  | None => 0%N
  end.

(** An integer in decimal, as a template literal renders it. *)
Definition string_of_Z (z : Z) : string :=
  if (z <? 0)%Z then "-" ++ string_of_N (Z.abs_N z) else string_of_N (Z.abs_N z).

(** Number::toString for radix 10 (ECMA-262, 6.1.6.1.20), on the decimal
    [s * 10^(n-k)] with [k] digits. *)
Definition number_to_string (x : number) : string :=
  match ndigits x with
  | EmptyString => "0"
  | String d ds =>
      let s := String d ds in
      let k := Z.of_nat (String.length s) in
      let n := (k + nexp x)%Z in
      let body :=
        if ((k <=? n) && (n <=? 21))%Z then s ++ zeros (Z.to_nat (n - k))
        else if ((0 <? n) && (n <=? 21))%Z then
          str_take (Z.to_nat n) s ++ "." ++ str_drop (Z.to_nat n) s
        else if ((-6 <? n) && (n <=? 0))%Z then "0." ++ zeros (Z.to_nat (- n)) ++ s
        else
          let e := (n - 1)%Z in
          let etxt := (if (e <? 0)%Z then "-" else "+") ++ string_of_Z (Z.abs e) in
          match ds with
          | EmptyString => String d "" ++ "e" ++ etxt
          | _ => String d "" ++ "." ++ ds ++ "e" ++ etxt
          end
      in if nneg x then "-" ++ body else body
  end.

(** ** [JSON.stringify(value)]

    [None] stands for the result [undefined] (the argument was [undefined]).
    An [undefined] array element is written [null]; an object property whose
    value is [undefined] is left out. *)

Fixpoint JSON_stringify (v : value) : option string :=
  match v with
  | VUndefined => None
  | VNull => Some "null"
  | VBool true => Some "true"
  | VBool false => Some "false"
  | VNum n => Some (number_to_string n)
  | VStr s => Some (quote s)
  | VArr l =>
      Some ("[" ++ join "," (map (fun x =>
                     match JSON_stringify x with
                     | Some t => t
                     | None => "null"
                     end) l) ++ "]")
  | VObj props =>
      Some ("{" ++ join "," (flat_map (fun kv =>
                     match JSON_stringify (snd kv) with
                     | Some t => [quote (fst kv) ++ ":" ++ t]
                     | None => []
                     end) props) ++ "}")
  end.

(** ** [Array.prototype.sort()] on strings: ascending code-unit order *)

Fixpoint insert_key (k : string) (l : list string) : list string :=
  match l with
  | [] => [k]
  | x :: r => if String.leb k x then k :: l else x :: insert_key k r
  end.

Fixpoint sort_keys (l : list string) : list string :=
  match l with
  | [] => []
  | x :: r => insert_key x (sort_keys r)
  end.

(** ** [deterministicStringify]  (utils/hash.ts, and its twin in
    utils/preview-envelope.ts)

    [None] stands for [undefined], which [JSON.stringify(undefined)] returns.
    [Array.prototype.join] writes an [undefined] element as the empty string;
    a template literal writes it as the word [undefined]. *)

(** [`${x}`] for a string-or-undefined [x]. *)
Definition template (x : option string) : string :=
  match x with
  | Some s => s
  | None => "undefined"
  end.

(** The element conversion of [Array.prototype.join]. *)
Definition join_item (x : option string) : string :=
  match x with
  | Some s => s
  | None => ""
  end.

(** [value[key]] on the already encoded properties. *)
Fixpoint lookup_enc (encs : list (string * string)) (k : string) : string :=
  match encs with
  | [] => "undefined"
  | (k', e) :: r => if (k' =? k)%string then e else lookup_enc r k
  end.

Fixpoint deterministicStringify (v : value) : option string :=
  match v with
  | VArr l =>
      Some ("[" ++ join "," (map (fun x => join_item (deterministicStringify x)) l) ++ "]")
  | VObj props =>
      let encs := map (fun kv => (fst kv, template (deterministicStringify (snd kv)))) props in
      let entries := map (fun k => quote k ++ ":" ++ lookup_enc encs k) (sort_keys (keys props)) in
      Some ("{" ++ join "," entries ++ "}")
  | _ => JSON_stringify v
  end.

(** [calculateObjectHash(value)]; [None] when [update(undefined)] throws. *)
Definition calculateObjectHash (v : value) : option string :=
  option_map calculateHash (deterministicStringify v).

(** ** [JSON.parse(text)]

    A recursive-descent reader of the JSON grammar (ECMA-404); [None] stands
    for the [SyntaxError] that [JSON.parse] throws.  The recursion is bounded
    by a fuel argument; each call that spends fuel follows a character read or
    is the first after one, so twice the length of the text is enough for
    any text. *)

Definition is_ws (c : ascii) : bool :=
  ((c =? " ") || (c =? "009") || (c =? "010") || (c =? "013"))%char.

Fixpoint skip_ws (s : string) : string :=
  match s with
  | EmptyString => s
  | String c r => if is_ws c then skip_ws r else s
  end.

Fixpoint span_digits (s : string) : string * string :=
  match s with
  | EmptyString => ("", "")
  | String c r =>
      if is_digit c then
        let (d, r') := span_digits r in (String c d, r')
      else ("", s)
  end.

Definition hex_val (c : ascii) : option Z :=
  let n := code c in
  if ((48 <=? n) && (n <=? 57))%Z then Some (n - 48)%Z
  else if ((97 <=? n) && (n <=? 102))%Z then Some (n - 87)%Z
  else if ((65 <=? n) && (n <=? 70))%Z then Some (n - 55)%Z
  else None.

Definition hex4_val (a b c d : ascii) : option Z :=
  match hex_val a, hex_val b, hex_val c, hex_val d with
  | Some x, Some y, Some z, Some w => Some (((x * 16 + y) * 16 + z) * 16 + w)%Z
  | _, _, _, _ => None
  end.

Definition char_of_Z (n : Z) : ascii := ascii_of_N (Z.to_N n).

(** The UTF-8 encoding of a code point (a lone surrogate keeps its
    three-byte form). *)
Definition utf8_of_code (n : Z) : string :=
  if (n <? 128)%Z then String (char_of_Z n) ""
  else if (n <? 2048)%Z then
    String (char_of_Z (192 + n / 64)) (String (char_of_Z (128 + n mod 64)) "")
  else if (n <? 65536)%Z then
    String (char_of_Z (224 + n / 4096))
      (String (char_of_Z (128 + n / 64 mod 64)) (String (char_of_Z (128 + n mod 64)) ""))
  else
    String (char_of_Z (240 + n / 262144))
      (String (char_of_Z (128 + n / 4096 mod 64))
         (String (char_of_Z (128 + n / 64 mod 64)) (String (char_of_Z (128 + n mod 64)) ""))).

Definition is_high_surrogate (n : Z) : bool := ((55296 <=? n) && (n <=? 56319))%Z.
Definition is_low_surrogate (n : Z) : bool := ((56320 <=? n) && (n <=? 57343))%Z.

Definition prepend (p : string) (r : option (string * string)) : option (string * string) :=
  match r with
  | Some (t, rest) => Some (p ++ t, rest)
  | None => None
  end.

(** The characters of a string literal after its opening quote, up to and
    including the closing quote. *)
Fixpoint parse_string_body (s : string) : option (string * string) :=
  match s with
  | EmptyString => None
  | String c r =>
      if (c =? dquote)%char then Some ("", r)
      else if (c =? "\")%char then
        match r with
        | EmptyString => None
        | String e r1 =>
            if (e =? "u")%char then
              match r1 with
              | String h1 (String h2 (String h3 (String h4 r2))) =>
                  match hex4_val h1 h2 h3 h4 with
                  | None => None
                  | Some hi =>
                      if is_high_surrogate hi then
                        match r2 with
                        | String b (String u (String l1 (String l2 (String l3 (String l4 r3))))) =>
                            match hex4_val l1 l2 l3 l4 with
                            | Some lo =>
                                if (is_low_surrogate lo && (b =? "\")%char && (u =? "u")%char)%bool
                                then prepend (utf8_of_code
                                       (65536 + (hi - 55296) * 1024 + (lo - 56320))%Z)
                                       (parse_string_body r3)
                                else prepend (utf8_of_code hi) (parse_string_body r2)
                            | None => prepend (utf8_of_code hi) (parse_string_body r2)
                            end
                        | _ => prepend (utf8_of_code hi) (parse_string_body r2)
                        end
                      else prepend (utf8_of_code hi) (parse_string_body r2)
                  end
              | _ => None
              end
            else if (e =? dquote)%char then prepend (String dquote "") (parse_string_body r1)
            else if (e =? "\")%char then prepend "\" (parse_string_body r1)
            else if (e =? "/")%char then prepend "/" (parse_string_body r1)
            else if (e =? "b")%char then prepend (String "008" "") (parse_string_body r1)
            else if (e =? "f")%char then prepend (String "012" "") (parse_string_body r1)
            else if (e =? "n")%char then prepend (String "010" "") (parse_string_body r1)
            else if (e =? "r")%char then prepend (String "013" "") (parse_string_body r1)
            else if (e =? "t")%char then prepend (String "009" "") (parse_string_body r1)
            else None
        end
      else if (code c <? 32)%Z then None
      else prepend (String c "") (parse_string_body r)
  end.

Fixpoint strip_leading_zeros (s : string) : string :=
  match s with
  | EmptyString => s
  | String c r => if (c =? "0")%char then strip_leading_zeros r else s
  end.

(** The digits without their trailing zeros, and how many were removed. *)
Fixpoint strip_trailing_zeros (s : string) : string * nat :=
  match s with
  | EmptyString => ("", O)
  | String c r =>
      let (r', n) := strip_trailing_zeros r in
      match r' with
      | EmptyString => if (c =? "0")%char then ("", S n) else (String c "", n)
      | _ => (String c r', n)
      end
  end.

(** The number [(-1)^neg * ds * 10^e], in normal form. *)
Definition mk_number (neg : bool) (ds : string) (e : Z) : number :=
  let (sig, tz) := strip_trailing_zeros (strip_leading_zeros ds) in
  match sig with
  | EmptyString => Num false "" 0
  | _ => Num neg sig (e + Z.of_nat tz)
  end.

(** The optional fraction: its digits and the rest, [None] on a bare dot. *)
Definition parse_fraction (s : string) : option (string * string) :=
  match s with
  | String c r =>
      if (c =? ".")%char then
        match span_digits r with
        | (EmptyString, _) => None
        | (fd, r') => Some (fd, r')
        end
      else Some ("", s)
  | EmptyString => Some ("", s)
  end.

(** The optional exponent: its value and the rest. *)
Definition parse_exponent (s : string) : option (Z * string) :=
  match s with
  | String c r =>
      if ((c =? "e") || (c =? "E"))%char then
        let (sign, r1) :=
          match r with
          | String g r' =>
              if (g =? "-")%char then ((-1)%Z, r')
              else if (g =? "+")%char then (1%Z, r')
              else (1%Z, r)
          | EmptyString => (1%Z, r)
          end in
        match span_digits r1 with
        | (EmptyString, _) => None
        | (ed, r2) => Some ((sign * Z.of_N (N_of_string ed))%Z, r2)
        end
      else Some (0%Z, s)
  | EmptyString => Some (0%Z, s)
  end.

(** A number literal after its optional minus sign. *)
Definition parse_unsigned (neg : bool) (s1 : string) : option (number * string) :=
  match s1 with
  | EmptyString => None
  | String c r =>
      if is_digit c then
        let (ip, s2) := if (c =? "0")%char then ("0", r) else span_digits s1 in
        match parse_fraction s2 with
        | None => None
        | Some (fd, s3) =>
            match parse_exponent s3 with
            | None => None
            | Some (e, s4) =>
                Some (mk_number neg (ip ++ fd) (e - Z.of_nat (String.length fd)), s4)
            end
        end
      else None
  end.

Definition parse_number (s : string) : option (number * string) :=
  match s with
  | String c r => if (c =? "-")%char then parse_unsigned true r else parse_unsigned false s
  | EmptyString => None
  end.

(** [s] without the literal [lit] it starts with. *)
Fixpoint expect (lit s : string) : option string :=
  match lit with
  | EmptyString => Some s
  | String c l =>
      match s with
      | String c' r => if (c =? c')%char then expect l r else None
      | EmptyString => None
      end
  end.

(** Property definition of the object under construction: a repeated key
    keeps its first position and takes the last value. *)
Fixpoint obj_set (props : list (string * value)) (k : string) (v : value)
  : list (string * value) :=
  match props with
  | [] => [(k, v)]
  | (k', v') :: r => if (k' =? k)%string then (k, v) :: r else (k', v') :: obj_set r k v
  end.

Definition obj_of_members (ms : list (string * value)) : value :=
  VObj (fold_left (fun acc kv => obj_set acc (fst kv) (snd kv)) ms []).

Fixpoint parse_value (fuel : nat) (s : string) : option (value * string) :=
  match fuel with
  | O => None
  | S f =>
      match skip_ws s with
      | EmptyString => None
      | String c r =>
          if (c =? "{")%char then
            match skip_ws r with
            | String c' r' =>
                if (c' =? "}")%char then Some (VObj [], r')
                else
                  match parse_members f r with
                  | Some (ms, r'') => Some (obj_of_members ms, r'')
                  | None => None
                  end
            | EmptyString => None
            end
          else if (c =? "[")%char then
            match skip_ws r with
            | String c' r' =>
                if (c' =? "]")%char then Some (VArr [], r')
                else
                  match parse_elements f r with
                  | Some (vs, r'') => Some (VArr vs, r'')
                  | None => None
                  end
            | EmptyString => None
            end
          else if (c =? dquote)%char then
            match parse_string_body r with
            | Some (t, r') => Some (VStr t, r')
            | None => None
            end
          else if (c =? "t")%char then
            match expect "rue" r with Some r' => Some (VBool true, r') | None => None end
          else if (c =? "f")%char then
            match expect "alse" r with Some r' => Some (VBool false, r') | None => None end
          else if (c =? "n")%char then
            match expect "ull" r with Some r' => Some (VNull, r') | None => None end
          else
            match parse_number (String c r) with
            | Some (n, r') => Some (VNum n, r')
            | None => None
            end
      end
  end
with parse_elements (fuel : nat) (s : string) : option (list value * string) :=
  match fuel with
  | O => None
  | S f =>
      match parse_value f s with
      | None => None
      | Some (v, r) =>
          match skip_ws r with
          | String c r' =>
              if (c =? ",")%char then
                match parse_elements f r' with
                | Some (vs, r'') => Some (v :: vs, r'')
                | None => None
                end
              else if (c =? "]")%char then Some ([v], r')
              else None
          | EmptyString => None
          end
      end
  end
with parse_members (fuel : nat) (s : string) : option (list (string * value) * string) :=
  match fuel with
  | O => None
  | S f =>
      match skip_ws s with
      | String q r =>
          if (q =? dquote)%char then
            match parse_string_body r with
            | None => None
            | Some (k, r1) =>
                match skip_ws r1 with
                | String c r2 =>
                    if (c =? ":")%char then
                      match parse_value f r2 with
                      | None => None
                      | Some (v, r3) =>
                          match skip_ws r3 with
                          | String d r4 =>
                              if (d =? ",")%char then
                                match parse_members f r4 with
                                | Some (ms, r5) => Some ((k, v) :: ms, r5)
                                | None => None
                                end
                              else if (d =? "}")%char then Some ([(k, v)], r4)
                              else None
                          | EmptyString => None
                          end
                      end
                    else None
                | EmptyString => None
                end
            end
          else None
      | EmptyString => None
      end
  end.

Definition JSON_parse (text : string) : option value :=
  match parse_value (2 * String.length text + 2) text with
  | Some (v, rest) =>
      match skip_ws rest with
      | EmptyString => Some v
      | _ => None
      end
  | None => None
  end.

(** [JSON.parse(JSON.stringify(x))], the normalization that [createBlock] and
    [verifyBlockchain] apply to metadata; [None] when it throws (for
    [undefined], whose stringification is not a text). *)
Definition normalize (x : value) : option value :=
  match JSON_stringify x with
  | Some text => JSON_parse text
  | None => None
  end.

(** ** Instants and [Date.prototype.toISOString]

    An instant is its time value: milliseconds since the epoch, an integer. *)

Definition Date := Z.

Definition ms_per_day : Z := 86400000.

(** Year, month and day of the proleptic Gregorian calendar for a day number
    counted from 1970-01-01. *)
Definition civil_from_days (z : Z) : Z * Z * Z :=
  let z' := z + 719468 in
  let era := z' / 146097 in
  let doe := z' mod 146097 in
  let yoe := (doe - doe / 1460 + doe / 36524 - doe / 146096) / 365 in
  let doy := doe - (365 * yoe + yoe / 4 - yoe / 100) in
  let mp := (5 * doy + 2) / 153 in
  let d := doy - (153 * mp + 2) / 5 + 1 in
  let m := if (mp <? 10)%Z then mp + 3 else mp - 9 in
  let y := yoe + era * 400 + (if (m <=? 2)%Z then 1 else 0) in
  (y, m, d).

(** [n] in decimal on at least [width] digits. *)
Definition pad_num (width : nat) (n : Z) : string :=
  let t := string_of_N (Z.to_N n) in
  zeros (width - String.length t) ++ t.

Definition iso_year (y : Z) : string :=
  if ((0 <=? y) && (y <=? 9999))%Z then pad_num 4 y
  else if (y <? 0)%Z then "-" ++ pad_num 6 (- y)
  else "+" ++ pad_num 6 y.

Definition toISOString (t : Date) : string :=
  let '(y, m, d) := civil_from_days (t / ms_per_day) in
  let r := t mod ms_per_day in
  iso_year y ++ "-" ++ pad_num 2 m ++ "-" ++ pad_num 2 d ++ "T"
    ++ pad_num 2 (r / 3600000) ++ ":" ++ pad_num 2 (r / 60000 mod 60) ++ ":"
    ++ pad_num 2 (r / 1000 mod 60) ++ "." ++ pad_num 3 (r mod 1000) ++ "Z".

(** ** Exceptions

    Code that can throw returns a [result]; [let*] sequences such code. *)

Inductive Error :=
| SyntaxError            (* JSON.parse on a text that is not JSON *)
| TypeError              (* update(undefined) on a hash object *)
| UniqueConstraintError. (* insert of a duplicate document_id or hash *)

Inductive result (A : Type) :=
| Ok (a : A)
| Throw (e : Error).

Arguments Ok {A} a.
Arguments Throw {A} e.

Definition bind {A B : Type} (r : result A) (k : A -> result B) : result B :=
  match r with
  | Ok a => k a
  | Throw e => Throw e
  end.

Notation "'let*' x ':=' r 'in' k" := (bind r (fun x => k))
  (at level 10, x pattern, r at level 100, k at level 200).

Definition or_throw {A : Type} (e : Error) (x : option A) : result A :=
  match x with
  | Some a => Ok a
  | None => Throw e
  end.

(** ** modules/blockchain/services/blockchain.service.ts *)

(** A row of [document_blocks].  [created_at] is the column Sequelize fills
    at insertion ([timestamps: true, createdAt: 'created_at']). *)
Record DocumentBlock := {
  id : Z;
  document_id : string;
  previous_hash : option string;
  hash : string;
  content_hash : string;
  signature_data : string;
  metadata : value;
  created_at : Date
}.

(** The table, rows in insertion order, and the next value of the
    auto-increment key. *)
Record Store := { rows : list DocumentBlock; next_id : Z }.

Definition empty_store : Store := {| rows := []; next_id := 1 |}.

(** [ORDER BY created_at ASC]; rows of equal instant keep their insertion
    order (PostgreSQL leaves their order open). *)
Fixpoint insert_asc (b : DocumentBlock) (l : list DocumentBlock) : list DocumentBlock :=
  match l with
  | [] => [b]
  | x :: r => if (created_at b <=? created_at x)%Z then b :: l else x :: insert_asc b r
  end.

Definition order_asc (l : list DocumentBlock) : list DocumentBlock :=
  fold_right insert_asc [] l.

(** [ORDER BY created_at DESC]. *)
Fixpoint insert_desc (b : DocumentBlock) (l : list DocumentBlock) : list DocumentBlock :=
  match l with
  | [] => [b]
  | x :: r => if (created_at x <=? created_at b)%Z then b :: l else x :: insert_desc b r
  end.

Definition order_desc (l : list DocumentBlock) : list DocumentBlock :=
  fold_right insert_desc [] l.

(** [DocumentBlock.findOne({ order: [['created_at', 'DESC']] })]. *)
Definition findOne_latest (st : Store) : option DocumentBlock :=
  head (order_desc (rows st)).

(** [DocumentBlock.findAll({ order: [['created_at', 'ASC']] })], and with a
    [limit]. *)
Definition findAll_asc (st : Store) : list DocumentBlock := order_asc (rows st).


(** [DocumentBlock.create({...})]: the unique constraints on [document_id]
    and [hash], the auto-increment key, the JSONB column (which keeps the JSON
    image of [metadata]) and [created_at], the instant [now] of the insert. *)
Definition DocumentBlock_create (st : Store) (now : Date)
    (documentId : string) (previousHash : option string) (hash_ contentHash
    signatureData : string) (metadata_ : value) : result (Store * DocumentBlock) :=
  if existsb (fun b => (document_id b =? documentId)%string || (hash b =? hash_)%string) (rows st)
  then Throw UniqueConstraintError
  else
    let* stored := or_throw SyntaxError (normalize metadata_) in
    let block := {| id := next_id st;
                    document_id := documentId;
                    previous_hash := previousHash;
                    hash := hash_;
                    content_hash := contentHash;
                    signature_data := signatureData;
                    metadata := stored;
                    created_at := now |} in
    Ok ({| rows := (rows st ++ [block])%list; next_id := next_id st + 1 |}, block).

(** [previous_hash] as a JavaScript value: a string or [null]. *)
Definition nullable (x : option string) : value :=
  match x with
  | Some s => VStr s
  | None => VNull
  end.

(** The object literal [blockData] that both functions hash. *)
Definition blockData (documentId : string) (previousHash : option string)
    (contentHash signatureData : string) (normalized : value) (timestamp : string) : value :=
  VObj [ ("document_id", VStr documentId);
         ("previous_hash", nullable previousHash);
         ("content_hash", VStr contentHash);
         ("signature_data", VStr signatureData);
         ("metadata", normalized);
         ("timestamp", VStr timestamp) ].

(** [calculateHash(deterministicStringify(blockData))]. *)
Definition hash_of_data (data : value) : result string :=
  let* text := or_throw TypeError (deterministicStringify data) in
  Ok (calculateHash text).

(** [createBlock(documentId, contentHash, signatureData, metadata)].
    [clock] is the instant [new Date()] reads for [timestamp]; [insert_clock]
    is the instant of the insert, which becomes [created_at]. *)
Definition createBlock (st : Store) (clock insert_clock : Date)
    (documentId contentHash signatureData : string) (metadata_ : value)
  : result (Store * DocumentBlock) :=
  let previousBlock := findOne_latest st in
  let previousHash := option_map hash previousBlock in
  let timestamp := toISOString clock in
  let* normalized := or_throw SyntaxError (normalize metadata_) in
  let data := blockData documentId previousHash contentHash signatureData normalized timestamp in
  let* hash_ := hash_of_data data in
  DocumentBlock_create st insert_clock documentId previousHash hash_ contentHash
    signatureData metadata_.

Record VerifyResult := { valid : bool; errors : list string }.

(** The hash [verifyBlockchain] recomputes from a stored row. *)
Definition calculatedHash (block : DocumentBlock) : result string :=
  let* normalized := or_throw SyntaxError (normalize (metadata block)) in
  hash_of_data (blockData (document_id block) (previous_hash block) (content_hash block)
                  (signature_data block) normalized (toISOString (created_at block))).

(** [a !== b] on string-or-null values. *)
Definition differs (a b : option string) : bool :=
  match a, b with
  | Some x, Some y => negb (x =? y)%string
  | None, None => false
  | _, _ => true
  end.

(** The three messages, as the template literals build them. *)
Definition invalid_hash_message (block : DocumentBlock) : string :=
  "Block " ++ string_of_Z (id block) ++ " has invalid hash".

Definition invalid_link_message (block : DocumentBlock) : string :=
  "Block " ++ string_of_Z (id block) ++ " has invalid previous hash link".

Definition first_block_message (block : DocumentBlock) : string :=
  "First block " ++ string_of_Z (id block) ++ " should have null previous_hash".

(** One turn of the [for] loop: the errors pushed for [blocks[i]]. *)
Definition verify_iteration (blocks : list DocumentBlock) (i : nat) (block : DocumentBlock)
    (errors_ : list string) : result (list string) :=
  let* h := calculatedHash block in
  let errors1 :=
    if negb (h =? hash block)%string
    then (errors_ ++ [invalid_hash_message block])%list
    else errors_ in
  let errors2 :=
    if Nat.ltb 0 i then
      match nth_error blocks (i - 1) with
      | Some previousBlock =>
          if differs (previous_hash block) (Some (hash previousBlock))
          then (errors1 ++ [invalid_link_message block])%list
          else errors1
      | None => errors1
      end
    else if differs (previous_hash block) None
    then (errors1 ++ [first_block_message block])%list
    else errors1 in
  Ok errors2.

(** [for (let i = 0; i < blocks.length; i++)], with [n] turns left. *)
Fixpoint verify_loop (blocks : list DocumentBlock) (n i : nat) (errors_ : list string)
  : result (list string) :=
  match n with
  | O => Ok errors_
  | S n' =>
      match nth_error blocks i with
      | None => Ok errors_
      | Some block =>
          let* errors' := verify_iteration blocks i block errors_ in
          verify_loop blocks n' (S i) errors'
      end
  end.

Definition verifyBlockchain (st : Store) : result VerifyResult :=
  let blocks := findAll_asc st in
  let* errors_ := verify_loop blocks (List.length blocks) 0 [] in
  Ok {| valid := Nat.eqb (List.length errors_) 0; errors := errors_ |}.

(** [parseSignatureData(data)]: the parsed array, or the empty array when
    [data] is empty, is not JSON, or is not an array. *)
Definition parseSignatureData (data : string) : list value :=
  if (data =? "")%string then []
  else
    match JSON_parse data with
    | Some (VArr parsed) => parsed
    | Some _ => []
    | None => []
    end.

Record AnonymizedBlock := {
  sequence : Z;
  block_hash : string;
  anon_previous_hash : option string;
  anon_content_hash : string;
  signature_count : Z;
  signature_hash : string;
  metadata_keys : list string;
  anon_created_at : Date
}.

(** The index keys ["0"], ["1"], ... of an array of [n] elements. *)
Definition index_keys (n : nat) : list string :=
  map (fun i => string_of_N (N.of_nat i)) (seq 0 n).

(** [Object.keys(x ?? {})].  (The index keys of a string count its bytes
    here, its UTF-16 code units in Node.) *)
Definition Object_keys (x : value) : list string :=
  match x with
  | VObj props => keys props
  | VArr l => index_keys (List.length l)
  | VStr t => index_keys (String.length t)
  | _ => []
  end.

(** [blocks.map((block, index) => ...)]. *)
Fixpoint map_indexed {A B : Type} (f : A -> nat -> B) (l : list A) (index : nat) : list B :=
  match l with
  | [] => []
  | x :: r => f x index :: map_indexed f r (S index)
  end.

Definition anonymize (block : DocumentBlock) (index : nat) : AnonymizedBlock :=
  let signatureArray := parseSignatureData (signature_data block) in
  {| sequence := Z.of_nat index + 1;
     block_hash := hash block;
     anon_previous_hash := previous_hash block;
     anon_content_hash := content_hash block;
     signature_count := Z.of_nat (List.length signatureArray);
     signature_hash := calculateHash (signature_data block);
     metadata_keys := Object_keys (metadata block);
     anon_created_at := created_at block |}.


(** ** routes/v1/blockchain.ts *)

(** The white space [parseInt] skips, within ASCII. *)
Definition is_js_space (c : ascii) : bool :=
  ((c =? " ") || (c =? "009") || (c =? "010") || (c =? "011") || (c =? "012")
   || (c =? "013"))%char.

Fixpoint skip_js_space (s : string) : string :=
  match s with
  | EmptyString => s
  | String c r => if is_js_space c then skip_js_space r else s
  end.




(** ** Base64, as [Buffer] encodes and decodes it *)

Definition b64_char (n : Z) : ascii :=
  if (n <? 26)%Z then char_of_Z (65 + n)
  else if (n <? 52)%Z then char_of_Z (97 + (n - 26))
  else if (n <? 62)%Z then char_of_Z (48 + (n - 52))
  else if (n =? 62)%Z then "+"%char
  else "/"%char.

(** [buf.toString('base64')]. *)
Fixpoint base64_encode (bs : list Z) : string :=
  match bs with
  | [] => ""
  | [a] =>
      String (b64_char (a / 4)) (String (b64_char (a mod 4 * 16)) "==")
  | [a; b] =>
      String (b64_char (a / 4)) (String (b64_char (a mod 4 * 16 + b / 16))
        (String (b64_char (b mod 16 * 4)) "="))
  | a :: b :: c :: r =>
      String (b64_char (a / 4)) (String (b64_char (a mod 4 * 16 + b / 16))
        (String (b64_char (b mod 16 * 4 + c / 64)) (String (b64_char (c mod 64))
          (base64_encode r))))
  end.

(** The value of a base64 character; the URL-safe [-] and [_] are accepted. *)
Definition unbase64 (c : ascii) : option Z :=
  let n := code c in
  if ((65 <=? n) && (n <=? 90))%Z then Some (n - 65)%Z
  else if ((97 <=? n) && (n <=? 122))%Z then Some (n - 71)%Z
  else if ((48 <=? n) && (n <=? 57))%Z then Some (n + 4)%Z
  else if ((n =? 43) || (n =? 45))%Z then Some 62%Z
  else if ((n =? 47) || (n =? 95))%Z then Some 63%Z
  else None.

(** The legal characters up to the first [=]; any other character is
    skipped. *)
Fixpoint sextets (s : string) : list Z :=
  match s with
  | EmptyString => []
  | String c r =>
      match unbase64 c with
      | Some v => v :: sextets r
      | None => if (c =? "=")%char then [] else sextets r
      end
  end.

Fixpoint bytes_of_sextets (l : list Z) : list Z :=
  match l with
  | a :: b :: c :: d :: r =>
      (a * 4 + b / 16) :: (b mod 16 * 16 + c / 4) :: (c mod 4 * 64 + d) :: bytes_of_sextets r
  | [a; b; c] => [a * 4 + b / 16; b mod 16 * 16 + c / 4]
  | [a; b] => [a * 4 + b / 16]
  | _ => []
  end.

(** [Buffer.from(text, 'base64')]: lenient, it never throws. *)
Definition base64_decode (text : string) : list Z := bytes_of_sextets (sextets text).

Definition toString_base64 (b : Buffer) : string := base64_encode (map byte_to_Z b).
Definition Buffer_from_base64 (text : string) : Buffer := map byte_of_Z (base64_decode text).

(** ** Buffer primitives *)

Fixpoint starts_with (tag buf : Buffer) : bool :=
  match tag, buf with
  | [], _ => true
  | t :: tag', b :: buf' => Byte.eqb t b && starts_with tag' buf'
  | _ :: _, [] => false
  end.

(** [buf.lastIndexOf(tag)] for a non-empty [tag]; [None] stands for [-1].
    The scan runs left to right from offset [i] and keeps the last match. *)
Fixpoint lastIndexOf_from (tag buf : Buffer) (i : nat) (found : option nat) : option nat :=
  match buf with
  | [] => found
  | _ :: r => lastIndexOf_from tag r (S i) (if starts_with tag buf then Some i else found)
  end.

Definition lastIndexOf (buf tag : Buffer) : option nat := lastIndexOf_from tag buf 0 None.

(** [buf.indexOf(b, from)]. *)
Fixpoint indexOf_from (b : byte) (buf : Buffer) (i : nat) : option nat :=
  match buf with
  | [] => None
  | x :: r => if Byte.eqb x b then Some i else indexOf_from b r (S i)
  end.

Definition indexOf (buf : Buffer) (b : byte) (from : nat) : option nat :=
  indexOf_from b (skipn from buf) from.

(** [buf.slice(start, stop)] for [start <= stop]. *)
Definition slice (buf : Buffer) (start stop : nat) : Buffer :=
  firstn (stop - start) (skipn start buf).

(** [text.trim()], within ASCII white space. *)
Fixpoint trim_end (s : string) : string :=
  match s with
  | EmptyString => s
  | String c r =>
      match trim_end r with
      | EmptyString => if is_js_space c then "" else String c ""
      | r' => String c r'
      end
  end.

Definition trim (s : string) : string := trim_end (skip_js_space s).

(** ** modules/documents/utils/preview-envelope.ts *)

Definition hashBuffer (buffer : Buffer) : string := calculateHashBuffer buffer.

(** [x ?? {}]. *)
Definition or_empty_object (x : value) : value :=
  match x with
  | VUndefined | VNull => VObj []
  | _ => x
  end.

Definition hashMetadata (metadata_ : value) : result string :=
  let* text := or_throw TypeError (deterministicStringify metadata_) in
  Ok (calculateHash text).

(** Truthiness of a string-or-undefined, as [if (hmacSecret)] tests it. *)
Definition nonempty (x : option string) : option string :=
  match x with
  | Some EmptyString => None
  | _ => x
  end.

Definition number_one : number := Num false "1" 0.

Definition newline : byte := x0a.
Definition carriage_return : byte := x0d.

Definition markerTag : Buffer := buffer_of_string "%%DocuChainPreview:".

Record AttachPreviewResult := {
  buffer : Buffer;
  envelope : value;
  encodedEnvelope : string
}.

(** [attachPreviewEnvelope(pdfBuffer, metadata, hmacSecret)], the clock read
    by [new Date()] being [clock]. *)
Definition attachPreviewEnvelope (clock : Date) (pdfBuffer : Buffer) (metadata_ : value)
    (hmacSecret : option string) : result AttachPreviewResult :=
  let* metadata_hash := hashMetadata (or_empty_object metadata_) in
  let envelopeBase :=
    [ ("version", VNum number_one);
      ("algorithm", VStr "sha256");
      ("content_hash", VStr (hashBuffer pdfBuffer));
      ("metadata_hash", VStr metadata_hash);
      ("metadata", metadata_);
      ("timestamp", VStr (toISOString clock)) ] in
  let* envelopeSigned :=
    match nonempty hmacSecret with
    | Some secret =>
        let* envelopeForHmac := or_throw TypeError (deterministicStringify (VObj envelopeBase)) in
        Ok (envelopeBase ++ [("hmac", VStr (createHmac secret envelopeForHmac))])%list
    | None => Ok envelopeBase
    end in
  let* json := or_throw TypeError (JSON_stringify (VObj envelopeSigned)) in
  let encoded := toString_base64 (buffer_of_string json) in
  let marker :=
    buffer_of_string (String "010" "%%DocuChainPreview:" ++ encoded ++ String "010" "") in
  Ok {| buffer := (pdfBuffer ++ marker)%list;
        envelope := VObj envelopeSigned;
        encodedEnvelope := encoded |}.

Record PreviewExtractionResult := {
  extracted : value;      (* the field [envelope]: an envelope or [null] *)
  unsignedBuffer : Buffer
}.

(** The text handed to [JSON.parse]: the bytes between the tag and the next
    newline (or the end), read as UTF-8, trimmed and decoded from base64. *)
Definition decoded_payload (pdfBuffer : Buffer) (markerStart : nat) : string :=
  let base64Start := (markerStart + List.length markerTag)%nat in
  let newlineIndex := indexOf pdfBuffer newline base64Start in
  let stop :=
    match newlineIndex with
    | None => List.length pdfBuffer
    | Some n => n
    end in
  let base64Slice := trim (string_of_buffer (slice pdfBuffer base64Start stop)) in
  string_of_buffer (Buffer_from_base64 base64Slice).

(** [if (contentEnd > 0 && pdfBuffer[contentEnd - 1] === b) contentEnd -= 1]. *)
Definition step_back (pdfBuffer : Buffer) (b : byte) (contentEnd : nat) : nat :=
  if (Nat.ltb 0 contentEnd
      && match nth_error pdfBuffer (contentEnd - 1) with
         | Some x => Byte.eqb x b
         | None => false
         end)%bool
  then (contentEnd - 1)%nat
  else contentEnd.

(** [extractPreviewEnvelope(pdfBuffer)].  Of the statements under [try] only
    [JSON.parse] can throw. *)
Definition extractPreviewEnvelope (pdfBuffer : Buffer) : PreviewExtractionResult :=
  match lastIndexOf pdfBuffer markerTag with
  | None => {| extracted := VNull; unsignedBuffer := pdfBuffer |}
  | Some markerStart =>
      match JSON_parse (decoded_payload pdfBuffer markerStart) with
      | Some parsed =>
          let contentEnd := markerStart in
          let contentEnd := step_back pdfBuffer newline contentEnd in
          let contentEnd := step_back pdfBuffer carriage_return contentEnd in
          {| extracted := parsed; unsignedBuffer := slice pdfBuffer 0 contentEnd |}
      | None => {| extracted := VNull; unsignedBuffer := pdfBuffer |}
      end
  end.

(** ** modules/documents/controllers/documents.controller.ts:
    the checks [signDocument] makes before it signs *)

(** [!!x]. *)
Definition truthy (x : value) : bool :=
  match x with
  | VUndefined | VNull => false
  | VBool b => b
  | VNum n => match ndigits n with EmptyString => false | _ => true end
  | VStr t => match t with EmptyString => false | _ => true end
  | VArr _ | VObj _ => true
  end.

(** [x.k] for a value [x] that is neither [null] nor [undefined]. *)
Definition field (x : value) (k : string) : value :=
  match x with
  | VObj props => get_prop props k
  | _ => VUndefined
  end.

(** [a ?? b]. *)
Definition coalesce (a b : value) : value :=
  match a with
  | VUndefined | VNull => b
  | _ => a
  end.

(** [text !== x] for a string [text] and any value [x]. *)
Definition str_differs (text : string) (x : value) : bool :=
  match x with
  | VStr t => negb (text =? t)%string
  | _ => true
  end.

(** [const { hmac: _hmac, ...envelopeWithoutHmac } = envelope]. *)
Definition without_hmac (x : value) : value :=
  match x with
  | VObj props => VObj (filter (fun kv => negb (fst kv =? "hmac")%string) props)
  | _ => VObj []
  end.

Definition decodePreviewSignatureField (raw : option string) : value :=
  match nonempty raw with
  | None => VNull
  | Some text =>
      match JSON_parse (string_of_buffer (Buffer_from_base64 text)) with
      | Some parsed => parsed
      | None => VNull
      end
  end.

(** The outcome of the checks: a response with a status and an error text,
    or the envelope under which signing goes on. *)
Inductive SignCheck :=
| Rejected (status : Z) (error : string)
| Verified (envelope_ : value).

Definition signDocument_checks (HMAC_SECRET_KEY : option string) (upload : option Buffer)
    (preview_signature : option string) : result SignCheck :=
  match upload with
  | None => Ok (Rejected 400 "PDF file upload is required (field name: pdf)")
  | Some pdfBuffer =>
      let extraction := extractPreviewEnvelope pdfBuffer in
      let embeddedEnvelope := extracted extraction in
      let providedEnvelope := decodePreviewSignatureField preview_signature in
      let envelope_ := coalesce providedEnvelope embeddedEnvelope in
      if negb (truthy envelope_) then
        Ok (Rejected 400 "Preview envelope not found in upload")
      else
        let* hmac_checked :=
          if truthy (field envelope_ "hmac") then
            match nonempty HMAC_SECRET_KEY with
            | None =>
                Ok (Some (Rejected 400 "Preview envelope is signed but server has no HMAC secret"))
            | Some secret =>
                let* text :=
                  or_throw TypeError (deterministicStringify (without_hmac envelope_)) in
                let hmac := createHmac secret text in
                if str_differs hmac (field envelope_ "hmac")
                then Ok (Some (Rejected 422 "Preview envelope HMAC verification failed"))
                else Ok None
            end
          else Ok None in
        match hmac_checked with
        | Some rejection => Ok rejection
        | None =>
            let bufferForHash :=
              if truthy embeddedEnvelope then unsignedBuffer extraction else pdfBuffer in
            let actualHash := calculateHashBuffer bufferForHash in
            if str_differs actualHash (field envelope_ "content_hash") then
              Ok (Rejected 422 "Uploaded PDF does not match preview hash")
            else
              let* metadataHash :=
                or_throw TypeError
                  (calculateObjectHash (or_empty_object (field envelope_ "metadata"))) in
              if str_differs metadataHash (field envelope_ "metadata_hash") then
                Ok (Rejected 422 "Preview metadata hash mismatch")
              else Ok (Verified envelope_)
        end
  end.

(** * Vocabulary of the statements

    Definitions that the statements below are written with: they name what the
    code computes, they are not part of it. *)

(** ** Reading JSON text back *)

(** What may follow a number: no digit, point or exponent mark. *)
Definition number_end (rest : string) : bool :=
  match rest with
  | EmptyString => true
  | String c _ => negb (is_digit c || (c =? ".")%char || (c =? "e")%char || (c =? "E")%char)
  end.

(** The reader of a number after its integer part [ip]. *)
Definition continue_number (neg : bool) (ip s2 : string) : option (number * string) :=
  match parse_fraction s2 with
  | None => None
  | Some (fd, s3) =>
      match parse_exponent s3 with
      | None => None
      | Some (e, s4) =>
          Some (mk_number neg (ip ++ fd) (e - Z.of_nat (String.length fd)), s4)
      end
  end.

(** The text of [v] as an array element: [JSON.stringify] writes [null]
    for [undefined]. *)
Definition elem_text (v : value) : string :=
  match JSON_stringify v with
  | Some t => t
  | None => "null"
  end.

(** The entries [JSON.stringify] writes for the properties of an object. *)
Definition entry_texts (props : list (string * value)) : list string :=
  flat_map (fun kv =>
              match JSON_stringify (snd kv) with
              | Some t => [quote (fst kv) ++ ":" ++ t]
              | None => []
              end) props.

(** The value [JSON.parse (JSON.stringify v)] is, stated by recursion on [v]:
    keys with an [undefined] value go, [undefined] array elements become
    [null]. *)
Fixpoint json_image (v : value) : value :=
  match v with
  | VUndefined => VNull
  | VArr l => VArr (map json_image l)
  | VObj props =>
      VObj (flat_map (fun kv =>
                        match snd kv with
                        | VUndefined => []
                        | _ => [(fst kv, json_image (snd kv))]
                        end) props)
  | _ => v
  end.

(** The properties of the JSON image of an object. *)
Definition image_props (props : list (string * value)) : list (string * value) :=
  flat_map (fun kv =>
              match snd kv with
              | VUndefined => []
              | _ => [(fst kv, json_image (snd kv))]
              end) props.

(** The fuel that reading back the text of [v] needs. *)
Fixpoint vsize (v : value) : nat :=
  match v with
  | VArr l => S (fold_right (fun x acc => S (vsize x + acc)) O l)
  | VObj props =>
      S (fold_right (fun kv acc =>
                       match snd kv with
                       | VUndefined => acc
                       | _ => S (vsize (snd kv) + acc)
                       end) O props)
  | _ => 1
  end.

(** The fuel for the elements of an array. *)
Definition elems_size (l : list value) : nat :=
  fold_right (fun x acc => S (vsize x + acc)) O l.

(** The fuel for the entries of an object. *)
Definition props_size (props : list (string * value)) : nat :=
  fold_right (fun kv acc =>
                match snd kv with
                | VUndefined => acc
                | _ => S (vsize (snd kv) + acc)
                end) O props.

(** What may follow a value inside an array or an object, or the end. *)
Definition delimited (rest : string) : bool :=
  match rest with
  | EmptyString => true
  | String c _ => ((c =? ",") || (c =? "]") || (c =? "}"))%char
  end.

(** The first character of the text of a value. *)
Definition value_start (s : string) : bool :=
  match s with
  | EmptyString => false
  | String c _ => negb (is_ws c) && negb (c =? "]")%char && negb (c =? "}")%char
  end.

(** The statement proved of each value by induction. *)
Definition reparses (v : value) : Prop :=
  forall rest fuel, delimited rest = true -> (vsize v <= fuel)%nat ->
    parse_value fuel (elem_text v ++ rest) = Some (json_image v, rest).

(** ** The ledger as verification sees it *)

(** The order [Array.prototype.sort] puts keys in. *)
Definition key_le (a b : string) : Prop := String.leb a b = true.

(** What a JSONB column can hold: a well-formed value other than [undefined]. *)
Definition json_column (x : value) : Prop := wf_value x /\ x <> VUndefined.

(** Every row holds JSON in its [metadata] column. *)
Definition store_wf (st : Store) : Prop :=
  Forall (fun b => json_column (metadata b)) (rows st).

(** The text whose digest is a block's hash. *)
Definition block_text (b : DocumentBlock) : string :=
  template (deterministicStringify
              (blockData (document_id b) (previous_hash b) (content_hash b)
                 (signature_data b) (json_image (metadata b))
                 (toISOString (created_at b)))).

(** The hash [verifyBlockchain] recomputes for a row. *)
Definition recomputed_hash (b : DocumentBlock) : string := calculateHash (block_text b).

(** The checks of [verifyAll], following the words of the specification:
    the hash of block [i], then its link to block [i-1] or, for the first
    block, the absence of a link. *)
Definition hash_problem (block : DocumentBlock) : list string :=
  if (recomputed_hash block =? hash block)%string then []
  else [invalid_hash_message block].

Definition link_problem (blocks : list DocumentBlock) (i : nat) (block : DocumentBlock)
  : list string :=
  match i with
  | O =>
      match previous_hash block with
      | None => []
      | Some _ => [first_block_message block]
      end
  | S j =>
      match nth_error blocks j with
      | Some previousBlock =>
          if differs (previous_hash block) (Some (hash previousBlock))
          then [invalid_link_message block]
          else []
      | None => []
      end
  end.

(** The problems of block [i], in the order the messages are pushed. *)
Definition problems_of (blocks : list DocumentBlock) (block : DocumentBlock) (i : nat)
  : list string :=
  (hash_problem block ++ link_problem blocks i block)%list.

(** Every problem of every block, in the order of the blocks. *)
Definition all_problems (blocks : list DocumentBlock) : list string :=
  List.concat (map_indexed (problems_of blocks) blocks 0).

(** Oldest first. *)
Definition chronological (l : list DocumentBlock) : Prop :=
  StronglySorted (fun a b => (created_at a <= created_at b)%Z) l.

(** Latest first. *)
Definition antichronological (l : list DocumentBlock) : Prop :=
  StronglySorted (fun a b => (created_at b <= created_at a)%Z) l.

(** ** The calendar *)

(** The steps of [civil_from_days], by name: the year of the era and the day
    of the year of a day of the era, the month counted from March, the
    month and the day of the month. *)
Definition yoe_of (doe : Z) : Z :=
  ((doe - doe / 1460 + doe / 36524 - doe / 146096) / 365)%Z.

Definition doy_of (doe : Z) : Z :=
  (doe - (365 * yoe_of doe + yoe_of doe / 4 - yoe_of doe / 100))%Z.

Definition mp_of (doy : Z) : Z := ((5 * doy + 2) / 153)%Z.

Definition month_of (mp : Z) : Z := (if mp <? 10 then mp + 3 else mp - 9)%Z.

Definition day_of (doy : Z) : Z := (doy - (153 * mp_of doy + 2) / 5 + 1)%Z.

(** What [toISOString] writes after the year. *)
Definition after_year (m d h mi s ms : Z) : string :=
  "-" ++ pad_num 2 m ++ "-" ++ pad_num 2 d ++ "T"
    ++ pad_num 2 h ++ ":" ++ pad_num 2 mi ++ ":"
    ++ pad_num 2 s ++ "." ++ pad_num 3 ms ++ "Z".

(** ** JSON values *)

(** A value of JSON: no [undefined] in it. *)
Inductive is_json : value -> Prop :=
| json_null : is_json VNull
| json_bool b : is_json (VBool b)
| json_num n : is_json (VNum n)
| json_str s : is_json (VStr s)
| json_arr l : Forall is_json l -> is_json (VArr l)
| json_obj props : Forall (fun kv => is_json (snd kv)) props -> is_json (VObj props).

(** The value with the keys of every object in ascending order. *)
Fixpoint canon (v : value) : value :=
  match v with
  | VArr l => VArr (map canon l)
  | VObj props =>
      let sorted := map (fun kv => (fst kv, canon (snd kv))) props in
      VObj (map (fun k => (k, get_prop sorted k)) (sort_keys (keys props)))
  | _ => v
  end.

(** ** Tampering with a stored row *)

(** A change of one stored field of a row. *)
Inductive Mutation :=
| SetDocumentId (s : string)
| SetPreviousHash (o : option string)
| SetHash (s : string)
| SetContentHash (s : string)
| SetSignatureData (s : string)
| SetMetadata (m : value)
| SetCreatedAt (t : Date).

(** The row after the change. *)
Definition mutate (mu : Mutation) (b : DocumentBlock) : DocumentBlock :=
  match mu with
  | SetDocumentId s =>
      {| id := id b; document_id := s; previous_hash := previous_hash b; hash := hash b;
         content_hash := content_hash b; signature_data := signature_data b;
         metadata := metadata b; created_at := created_at b |}
  | SetPreviousHash o =>
      {| id := id b; document_id := document_id b; previous_hash := o; hash := hash b;
         content_hash := content_hash b; signature_data := signature_data b;
         metadata := metadata b; created_at := created_at b |}
  | SetHash s =>
      {| id := id b; document_id := document_id b; previous_hash := previous_hash b;
         hash := s; content_hash := content_hash b; signature_data := signature_data b;
         metadata := metadata b; created_at := created_at b |}
  | SetContentHash s =>
      {| id := id b; document_id := document_id b; previous_hash := previous_hash b;
         hash := hash b; content_hash := s; signature_data := signature_data b;
         metadata := metadata b; created_at := created_at b |}
  | SetSignatureData s =>
      {| id := id b; document_id := document_id b; previous_hash := previous_hash b;
         hash := hash b; content_hash := content_hash b; signature_data := s;
         metadata := metadata b; created_at := created_at b |}
  | SetMetadata m =>
      {| id := id b; document_id := document_id b; previous_hash := previous_hash b;
         hash := hash b; content_hash := content_hash b; signature_data := signature_data b;
         metadata := m; created_at := created_at b |}
  | SetCreatedAt t =>
      {| id := id b; document_id := document_id b; previous_hash := previous_hash b;
         hash := hash b; content_hash := content_hash b; signature_data := signature_data b;
         metadata := metadata b; created_at := t |}
  end.

(** [l] with [f] applied to its element at position [n]. *)
Fixpoint update_nth {A : Type} (n : nat) (f : A -> A) (l : list A) : list A :=
  match l, n with
  | [], _ => []
  | x :: r, O => f x :: r
  | x :: r, S n' => x :: update_nth n' f r
  end.

(** The store after the row at position [n] (in insertion order) was changed
    behind the ledger's back. *)
Definition tamper (st : Store) (n : nat) (mu : Mutation) : Store :=
  {| rows := update_nth n (mutate mu) (rows st); next_id := next_id st |}.

(** The mutation gives the field another value; for the JSONB column,
    another JSON document (the order of keys does not count). *)
Definition changes (mu : Mutation) (b : DocumentBlock) : Prop :=
  match mu with
  | SetDocumentId s => s <> document_id b
  | SetPreviousHash o => o <> previous_hash b
  | SetHash s => s <> hash b
  | SetContentHash s => s <> content_hash b
  | SetSignatureData s => s <> signature_data b
  | SetMetadata m =>
      json_column m /\ ~ same_value (json_image m) (json_image (metadata b))
  | SetCreatedAt t => t <> created_at b
  end.

(** SHA-256 does not collide on the two texts. *)
Definition no_collision (b b' : DocumentBlock) : Prop :=
  calculateHash (block_text b') = calculateHash (block_text b) ->
  block_text b' = block_text b.

(** The encoding of a hash or [null]. *)
Definition encode_nullable (o : option string) : string :=
  match o with
  | Some h => quote h
  | None => "null"
  end.

(** A key and its colon. *)
Definition q (s : string) : string := quote s ++ ":".

(** Six entries between seven fixed pieces of text. *)
Definition layout6 (a0 a1 a2 a3 a4 a5 a6 e1 e2 e3 e4 e5 e6 : string) : string :=
  a0 ++ e1 ++ a1 ++ e2 ++ a2 ++ e3 ++ a3 ++ e4 ++ a4 ++ e5 ++ a5 ++ e6 ++ a6.

(** The layout of the hashed text: the six entries in key order. *)
Definition block_layout : string -> string -> string -> string -> string -> string -> string :=
  layout6 ("{" ++ q "content_hash") ("," ++ q "document_id") ("," ++ q "metadata")
          ("," ++ q "previous_hash") ("," ++ q "signature_data") ("," ++ q "timestamp") "}".

(** ** Bytes and base64 text *)

(** Numbers that are bytes. *)
Definition in_byte_range (l : list Z) : Prop := Forall (fun z => (0 <= z < 256)%Z) l.

(** The characters base64 writes: the alphabet and the padding sign. *)
Definition is_b64_text (c : ascii) : bool :=
  match unbase64 c with
  | Some _ => negb ((c =? "-") || (c =? "_"))%char
  | None => (c =? "=")%char
  end.

(** Every character of [s] satisfies [p]. *)
Fixpoint all_chars (p : ascii -> bool) (s : string) : bool :=
  match s with
  | EmptyString => true
  | String c r => p c && all_chars p r
  end.

(** The first byte of the marker tag. *)
Definition percent : byte := x25.

(** ** The preview envelope *)

(** The envelope object that [attachPreviewEnvelope] builds. *)
Definition envelope_base (clock : Date) (pdfBuffer : Buffer) (metadata_ : value)
    (metadata_hash : string) : list (string * value) :=
  [ ("version", VNum number_one);
    ("algorithm", VStr "sha256");
    ("content_hash", VStr (hashBuffer pdfBuffer));
    ("metadata_hash", VStr metadata_hash);
    ("metadata", metadata_);
    ("timestamp", VStr (toISOString clock)) ].

(** The envelope with its [hmac], when a secret is given. *)
Definition envelope_signed (base : list (string * value)) (hmacSecret : option string)
  : list (string * value) :=
  match nonempty hmacSecret with
  | Some secret =>
      (base ++ [("hmac", VStr (createHmac secret
                                 (template (deterministicStringify (VObj base)))))])%list
  | None => base
  end.

(** The trailing marker for an encoded envelope. *)
Definition marker_bytes (encoded : string) : Buffer :=
  (newline :: markerTag ++ buffer_of_string encoded ++ [newline])%list.

(** [true] when the last byte of the buffer is a carriage return. *)
Definition ends_with_cr (b : Buffer) : bool :=
  match nth_error b (List.length b - 1) with
  | Some x => Byte.eqb x carriage_return
  | None => false
  end.

(** The envelope [signDocument] goes by: the one supplied beside the upload,
    else the embedded one. *)
Definition sign_envelope (pdfBuffer : Buffer) (preview_signature : option string) : value :=
  coalesce (decodePreviewSignatureField preview_signature)
           (extracted (extractPreviewEnvelope pdfBuffer)).

(** The text over which the server recomputes the HMAC. *)
Definition hmac_text (envelope_ : value) : string :=
  template (deterministicStringify (without_hmac envelope_)).

(** The rejections of [signDocument], by the check that raises each. *)
Definition missing_secret : SignCheck :=
  Rejected 400 "Preview envelope is signed but server has no HMAC secret".

Definition hmac_mismatch : SignCheck :=
  Rejected 422 "Preview envelope HMAC verification failed".

Definition content_mismatch : SignCheck :=
  Rejected 422 "Uploaded PDF does not match preview hash".

Definition metadata_mismatch : SignCheck :=
  Rejected 422 "Preview metadata hash mismatch".

(** The JSON round trip leaves the value as it is. *)
Definition json_stable (x : value) : Prop := json_image x = x.




(** ** Extraction and export *)



(** ** Texts of the serializer *)

(** [t] occurs in [s]. *)
Definition occurs_in (t s : string) : Prop := exists pre post, s = pre ++ t ++ post.

(** The text [deterministicStringify] returns; on [undefined] itself, the
    word that a template literal writes. *)
Definition ds_text (v : value) : string := template (deterministicStringify v).

(** The text of an array element. *)
Definition ds_item (v : value) : string := join_item (deterministicStringify v).

(** Read back, the encoding of [v] is refused or consumed exactly. *)
Definition read_exactly (v : value) : Prop :=
  forall rest fuel, delimited rest = true ->
    parse_value fuel (ds_text v ++ rest) = None \/
    exists w, parse_value fuel (ds_text v ++ rest) = Some (w, rest).

(** The entry written for key [k]. *)
Definition entry_of (props : list (string * value)) (k : string) : string :=
  quote k ++ ":" ++ ds_text (get_prop props k).

(** ** Ledgers written by [createBlock] *)

(** A ledger written by [createBlock] alone. *)
Inductive appended : Store -> Prop :=
| appended_empty : appended empty_store
| appended_block st st' clock insert_clock d ch sd m b :
    appended st ->
    createBlock st clock insert_clock d ch sd m = Ok (st', b) ->
    appended st'.

(** A ledger written by [createBlock] alone under a clock that reads the same
    instant for the hashed timestamp and for the insert, later than every
    stored block. *)
Inductive appended_in_step : Store -> Prop :=
| in_step_empty : appended_in_step empty_store
| in_step_block st st' t d ch sd m b :
    appended_in_step st ->
    wf_value m ->
    (forall x, In x (rows st) -> (created_at x < t)%Z) ->
    createBlock st t t d ch sd m = Ok (st', b) ->
    appended_in_step st'.

(** Oldest first, no two blocks at one instant. *)
Definition strictly_chronological (l : list DocumentBlock) : Prop :=
  StronglySorted (fun a b => (created_at a < created_at b)%Z) l.

(** Every block but the first names the hash of the block before it, and the
    first names none. *)
Definition linked (l : list DocumentBlock) : Prop :=
  forall i b, nth_error l i = Some b ->
    match i with
    | O => previous_hash b = None
    | S j => exists p, nth_error l j = Some p /\ previous_hash b = Some (hash p)
    end.

(** The invariant of appending in step. *)
Definition sound (st : Store) : Prop :=
  store_wf st /\ strictly_chronological (rows st) /\
  (forall b, In b (rows st) -> recomputed_hash b = hash b) /\
  linked (rows st).


(** * Samples *)

(** 2024-01-01T00:00:00.000Z, in milliseconds since the epoch. *)
Definition new_year_2024 : Date := 1704067200000%Z.

(** A ledger of two rows with every kind of problem. *)
Definition broken_ledger : Store :=
  {| rows :=
       [ {| id := 1; document_id := "doc-1"; previous_hash := Some "feed"; hash := "0a";
            content_hash := "aaa"; signature_data := "[]"; metadata := VObj [];
            created_at := new_year_2024 |};
         {| id := 2; document_id := "doc-2"; previous_hash := Some "beef"; hash := "0b";
            content_hash := "bbb"; signature_data := "[]"; metadata := VObj [];
            created_at := (new_year_2024 + 1)%Z |} ];
     next_id := 3 |}.

(** [t] evaluated, with the equation that says so. *)
Ltac evaluate E t :=
  let v := eval vm_compute in t in
  assert (E : t = v) by (vm_compute; reflexivity).

(** * One document, the history, templates and signatures

    The functions around those above: the per-document verifications and the
    history of the ledger, the template utilities that prepare what the
    envelope carries, and the normalisation of the signatures. *)

Definition line_feed : ascii := "010"%char.

(** ** White space, as [String.prototype.trim] and [parseInt] see it

    The WhiteSpace and LineTerminator code points of ECMAScript, in UTF-8:
    U+0009..U+000D, U+0020, U+00A0, U+1680, U+2000..U+200A, U+2028, U+2029,
    U+202F, U+205F, U+3000, U+FEFF. *)

Definition space2 (a b : ascii) : bool :=
  ((a =? "194") && (b =? "160"))%char.

Definition space3 (a b c : ascii) : bool :=
  (((a =? "225") && (b =? "154") && (c =? "128"))
   || ((a =? "226") && (b =? "128")
       && (((128 <=? code c) && (code c <=? 138))%Z
           || (c =? "168") || (c =? "169") || (c =? "175")))
   || ((a =? "226") && (b =? "129") && (c =? "159"))
   || ((a =? "227") && (b =? "128") && (c =? "128"))
   || ((a =? "239") && (b =? "187") && (c =? "191")))%char.

(** [s.trimStart()]. *)
Fixpoint js_trim_start (s : string) : string :=
  match s with
  | EmptyString => s
  | String a r =>
      if is_js_space a then js_trim_start r
      else
        match r with
        | EmptyString => s
        | String b r2 =>
            if space2 a b then js_trim_start r2
            else
              match r2 with
              | EmptyString => s
              | String c r3 => if space3 a b c then js_trim_start r3 else s
              end
        end
  end.

(** [s] is white space throughout. *)
Definition all_space (s : string) : bool :=
  match js_trim_start s with
  | EmptyString => true
  | _ => false
  end.

(** [s.trimEnd()]: the text up to the last character that is not white space. *)
Fixpoint js_trim_end (s : string) : string :=
  match s with
  | EmptyString => s
  | String a r => if all_space s then "" else String a (js_trim_end r)
  end.

(** [s.trim()]. *)
Definition js_trim (s : string) : string := js_trim_end (js_trim_start s).

(** ** blockchain.service.ts: one document, and the history *)

(** [DocumentBlock.findOne({ where })]: a row that satisfies [where], when
    there is one.  The query has no [order]: which row it is, when several
    satisfy [where], is left to the database, and is a parameter here. *)
Definition Finder : Type :=
  (DocumentBlock -> bool) -> list DocumentBlock -> option DocumentBlock.

Record DocumentVerification := {
  doc_valid : bool;
  doc_block : option DocumentBlock;
  doc_errors : list string
}.

(** [verifyDocument(documentId)]. *)
Definition verifyDocument (findOne : Finder) (st : Store) (documentId : string)
  : result DocumentVerification :=
  match findOne (fun b => (document_id b =? documentId)%string) (rows st) with
  | None =>
      Ok {| doc_valid := false; doc_block := None;
            doc_errors := ["Document not found in blockchain"] |}
  | Some block =>
      let* h := calculatedHash block in
      let errors1 :=
        if negb (h =? hash block)%string
        then ["Block hash verification failed"]
        else [] in
      let errors2 :=
        match nonempty (previous_hash block) with
        | Some previous =>
            match findOne (fun b => (hash b =? previous)%string) (rows st) with
            | None => (errors1 ++ ["Previous block not found"])%list
            | Some _ => errors1
            end
        | None => errors1
        end in
      Ok {| doc_valid := Nat.eqb (List.length errors2) 0;
            doc_block := Some block;
            doc_errors := errors2 |}
  end.

(** [verifyDocumentByHash(contentHash)]. *)
Definition verifyDocumentByHash (findOne : Finder) (st : Store) (contentHash : string)
  : result DocumentVerification :=
  match findOne (fun b => (content_hash b =? contentHash)%string) (rows st) with
  | None =>
      Ok {| doc_valid := false; doc_block := None;
            doc_errors :=
              ["Document not found in blockchain - this PDF was not generated by DocuChain or has been modified"] |}
  | Some block =>
      let* h := calculatedHash block in
      let errors1 :=
        if negb (h =? hash block)%string
        then ["Block hash verification failed - document may have been tampered with"]
        else [] in
      let errors2 :=
        match nonempty (previous_hash block) with
        | Some previous =>
            match findOne (fun b => (hash b =? previous)%string) (rows st) with
            | None =>
                (errors1 ++ ["Previous block not found - blockchain integrity compromised"])%list
            | Some _ => errors1
            end
        | None => errors1
        end in
      Ok {| doc_valid := Nat.eqb (List.length errors2) 0;
            doc_block := Some block;
            doc_errors := errors2 |}
  end.


(** ** routes/v1/blockchain.ts: the history *)





(** ** documents.controller.ts: verification of an uploaded file *)

Inductive FileVerification :=
| FileRequired  (* 400, PDF file is required *)
| FileVerdict (verdict : DocumentVerification) (content_hash_ : string).

(** [verifyDocumentByFile]: [body] is the request body when it is a buffer. *)
Definition verifyDocumentByFile (findOne : Finder) (st : Store) (body : option Buffer)
  : result FileVerification :=
  match body with
  | None => Ok FileRequired
  | Some pdfBuffer =>
      let contentHash := calculateHashBuffer pdfBuffer in
      let* verdict := verifyDocumentByHash findOne st contentHash in
      Ok (FileVerdict verdict contentHash)
  end.

(** ** documents.controller.ts: the signatures of a request *)

Record SignaturePayloadEntry := { slot : string; signatureText : string }.

(** One element of the payload, as the callback of [map] turns it; [None]
    stands for [null]. *)
Definition normalize_entry (entry : value) : option SignaturePayloadEntry :=
  if negb (truthy entry) then None
  else
    match entry with
    | VStr text => Some {| slot := text; signatureText := text |}
    | VObj props =>
        match get_prop props "slot" with
        | VStr raw =>
            let slotId := js_trim raw in
            match slotId with
            | EmptyString => None
            | _ =>
                let text :=
                  match get_prop props "signatureText" with
                  | VStr t => match t with EmptyString => slotId | _ => t end
                  | _ => slotId
                  end in
                Some {| slot := slotId; signatureText := text |}
            end
        | _ => None
        end
    | _ => None
    end.

(** [.filter((entry) => !!entry?.slot)]. *)
Definition has_slot (entry : option SignaturePayloadEntry) : bool :=
  match entry with
  | Some e => match slot e with EmptyString => false | _ => true end
  | None => false
  end.

Fixpoint somes {A : Type} (l : list (option A)) : list A :=
  match l with
  | [] => []
  | Some a :: r => a :: somes r
  | None :: r => somes r
  end.

(** [normalizeSignaturePayload(payload)]. *)
Definition normalizeSignaturePayload (payload : value) : list SignaturePayloadEntry :=
  match payload with
  | VArr l => somes (filter has_slot (map normalize_entry l))
  | _ => []
  end.

(** The entries as JavaScript values, and [JSON.stringify(signatureEntries)],
    the [signatureData] that [signDocument] hands to [createBlock]. *)
Definition entry_value (e : SignaturePayloadEntry) : value :=
  VObj [("slot", VStr (slot e)); ("signatureText", VStr (signatureText e))].

Definition signature_data_of (entries : list SignaturePayloadEntry) : string :=
  template (JSON_stringify (VArr (map entry_value entries))).

(** [new Map(signatureEntries.map((entry) => [entry.slot, entry.signatureText]))]
    and [slotSignatureMap.get(id)]: the last entry for a slot is the one kept. *)
Fixpoint slotSignatureMap_get (entries : list SignaturePayloadEntry) (id_ : string)
  : option string :=
  match entries with
  | [] => None
  | e :: r =>
      match slotSignatureMap_get r id_ with
      | Some t => Some t
      | None => if (slot e =? id_)%string then Some (signatureText e) else None
      end
  end.

(** ** template-metadata.ts *)

(** [s.replace(/c/g, by)] for a pattern of one character and a replacement
    without [$]. *)
Fixpoint replace_char (c : ascii) (by_ : string) (s : string) : string :=
  match s with
  | EmptyString => ""
  | String x r =>
      if (x =? c)%char then by_ ++ replace_char c by_ r
      else String x (replace_char c by_ r)
  end.

Definition escapeHtml (unsafe : string) : string :=
  replace_char "'" "&#039;"
    (replace_char dquote "&quot;"
       (replace_char ">" "&gt;"
          (replace_char "<" "&lt;"
             (replace_char "&" "&amp;" unsafe)))).

(** [value !== undefined && value !== null && value !== ""]. *)
Definition is_filled (v : value) : bool :=
  match v with
  | VUndefined | VNull => false
  | VStr t => match t with EmptyString => false | _ => true end
  | _ => true
  end.

(** [removeUndefined(metadata)], on the entries of the object. *)
Definition removeUndefined (metadata_ : list (string * value)) : list (string * value) :=
  filter (fun kv => is_filled (snd kv)) metadata_.

Record SignatureSlot := {
  slot_id : string;
  slot_label : string;
  slot_placeholder : string
}.

Definition slot_prefix : string := "{{signature_slot:".

(** [text.startsWith(p)]. *)
Fixpoint startsWith (p text : string) : bool :=
  match p, text with
  | EmptyString, _ => true
  | String a p', String b text' => (a =? b)%char && startsWith p' text'
  | String _ _, EmptyString => false
  end.

(** [text.indexOf(p, index)] on the text from [index] on: the text from the
    first occurrence of [p] on, [None] for [-1]. *)
Fixpoint from_first (p text : string) : option string :=
  if startsWith p text then Some text
  else
    match text with
    | EmptyString => None
    | String _ r => from_first p r
    end.

(** The loop that reads the slot id: the characters up to a colon or a
    closing pair of braces, and the text from there (from [cursor]) on. *)
Fixpoint scan_slot_id (text : string) : string * string :=
  match text with
  | EmptyString => ("", "")
  | String c r =>
      if ((c =? ":") || ((c =? "}") && startsWith "}" r))%char then ("", text)
      else let (i, rest) := scan_slot_id r in (String c i, rest)
  end.

(** The loop that reads the label, braces nested to [depth]: the label and
    the text after the pair of braces that closes the slot. *)
Fixpoint scan_label (text : string) (depth : nat) : string * string :=
  match text with
  | EmptyString => ("", "")
  | String a r =>
      match r with
      | EmptyString => (String a "", "")
      | String b r2 =>
          if ((a =? "{") && (b =? "{"))%char then
            let (l, rest) := scan_label r2 (S depth) in ("{{" ++ l, rest)
          else if ((a =? "}") && (b =? "}"))%char then
            match depth with
            | O => ("", r2)
            | S d => let (l, rest) := scan_label r2 d in ("}}" ++ l, rest)
            end
          else
            let (l, rest) := scan_label r depth in (String a l, rest)
      end
  end.

(** The text after its first character, and the UTF-16 code units of that
    character: one for a character of one, two or three bytes, two for one
    of four. *)
Definition skip_char (text : string) : string * nat :=
  match text with
  | EmptyString => (text, 1%nat)
  | String a r =>
      if (code a <? 128)%Z then (r, 1%nat)
      else if (code a <? 224)%Z then (str_drop 1 r, 1%nat)
      else if (code a <? 240)%Z then (str_drop 2 r, 1%nat)
      else (str_drop 3 r, 2%nat)
  end.

(** The text from [cursor + 2] on.  A jump into the middle of a character of
    two units is taken to its end: the scan that follows looks for a brace,
    which no half of a pair is. *)
Definition skip_two_units (text : string) : string :=
  let (r, units) := skip_char text in
  if Nat.leb 2 units then r else fst (skip_char r).

(** [(label && label.trim()) || slotId || "Signature"]. *)
Definition label_or (label_ slotId : string) : string :=
  match js_trim label_ with
  | EmptyString => match slotId with EmptyString => "Signature" | _ => slotId end
  | t => t
  end.

(** The [while] loop of [extractSignatureSlots] on the text from [index] on,
    with [fuel] turns left; [None] when the turns run out. *)
Fixpoint extract_slots (fuel : nat) (text : string) : option (list SignatureSlot) :=
  match fuel with
  | O => None
  | S fuel' =>
      match from_first slot_prefix text with
      | None => Some []
      | Some found =>
          let (rawId, at_cursor) := scan_slot_id (str_drop (String.length slot_prefix) found) in
          let slotId := js_trim rawId in
          match slotId with
          | EmptyString => extract_slots fuel' (skip_two_units at_cursor)
          | _ =>
              let (label_, rest) :=
                match at_cursor with
                | String c r =>
                    if (c =? ":")%char then scan_label r 0
                    else if startsWith "}}" at_cursor then ("", str_drop 2 at_cursor)
                    else ("", at_cursor)
                | EmptyString => ("", at_cursor)
                end in
              let placeholder :=
                str_take (String.length found - String.length rest) found in
              match extract_slots fuel' rest with
              | Some slots =>
                  Some ({| slot_id := slotId;
                           slot_label := label_or label_ slotId;
                           slot_placeholder := placeholder |} :: slots)
              | None => None
              end
          end
      end
  end.

(** [extractSignatureSlots(template)]: each turn moves on by the prefix at
    least, so the length of the text bounds the turns. *)
Definition extractSignatureSlots (template_ : string) : option (list SignatureSlot) :=
  extract_slots (S (String.length template_)) template_.

(** The replacement text of [String.prototype.replace] for a pattern that is
    a string: [$$] is a dollar, [$&] the match, [$`] the text before it,
    [$'] the text after it; with no capture group every other [$] stands. *)
Fixpoint expand_replacement (matched before after replacement : string) : string :=
  match replacement with
  | EmptyString => ""
  | String a r =>
      if (a =? "$")%char then
        match r with
        | EmptyString => "$"
        | String b r2 =>
            if (b =? "$")%char then String "$" (expand_replacement matched before after r2)
            else if (b =? "&")%char then matched ++ expand_replacement matched before after r2
            else if (b =? "`")%char then before ++ expand_replacement matched before after r2
            else if (b =? "'")%char then after ++ expand_replacement matched before after r2
            else String "$" (expand_replacement matched before after r)
        end
      else String a (expand_replacement matched before after r)
  end.

(** The text before and after the first occurrence of [p]. *)
Fixpoint split_first (p text : string) : option (string * string) :=
  if startsWith p text then Some ("", str_drop (String.length p) text)
  else
    match text with
    | EmptyString => None
    | String c r =>
        match split_first p r with
        | Some (before, after) => Some (String c before, after)
        | None => None
        end
    end.

(** [text.replace(p, replacement)] for a string [p]. *)
Definition js_replace (text p replacement : string) : string :=
  match split_first p text with
  | Some (before, after) => before ++ expand_replacement p before after replacement ++ after
  | None => text
  end.

(** [replaceSignatureSlots(template, slots, slotRenderer)]. *)
Definition replaceSignatureSlots (template_ : string) (slots : list SignatureSlot)
    (slotRenderer : SignatureSlot -> string) : string :=
  fold_left (fun processed s => js_replace processed (slot_placeholder s) (slotRenderer s))
            slots template_.

(** What [buildRequestMetadata] reads of the request: its headers (names in
    lower case, as Node gives them), [req.ip] and [req.method]. *)
Record Request := {
  headers : list (string * string);
  ip : option string;
  method : string
}.

Fixpoint header (hs : list (string * string)) (name : string) : option string :=
  match hs with
  | [] => None
  | (k, v) :: r => if (k =? name)%string then Some v else header r name
  end.

(** [a ?? b] on strings that may be [undefined]. *)
Definition or_else (a b : option string) : option string :=
  match a with
  | Some _ => a
  | None => b
  end.

(** [s.split(",")[0]]. *)
Fixpoint before_comma (s : string) : string :=
  match s with
  | EmptyString => ""
  | String c r => if (c =? ",")%char then "" else String c (before_comma r)
  end.

Definition optional (x : option string) : value :=
  match x with
  | Some s => VStr s
  | None => VUndefined
  end.

Definition slot_value (s : SignatureSlot) : value :=
  VObj [ ("id", VStr (slot_id s)); ("label", VStr (slot_label s));
         ("placeholder", VStr (slot_placeholder s)) ].

Record MetadataOptions := {
  customMetadata : value;
  templateContent : option string;
  signatureSlots : option (list SignatureSlot)
}.

(** [buildRequestMetadata(req, options)], the entries of the object.
    [clock] is the instant that [new Date()] reads and [fresh_id] the string
    that [nanoid()] returns. *)
Definition buildRequestMetadata (clock : Date) (fresh_id : string) (req : Request)
    (options : MetadataOptions) : list (string * value) :=
  let forwardedFor :=
    option_map (fun t => js_trim (before_comma t)) (header (headers req) "x-forwarded-for") in
  removeUndefined
    [ ("timestamp", VStr (toISOString clock));
      ("request_id", optional (or_else (header (headers req) "x-request-id") (Some fresh_id)));
      ("request_ip",
        optional (or_else (header (headers req) "cf-connecting-ip")
                          (or_else forwardedFor (ip req))));
      ("forwarded_for", optional (header (headers req) "x-forwarded-for"));
      ("user_agent", optional (header (headers req) "user-agent"));
      ("referer",
        optional (or_else (header (headers req) "referer") (header (headers req) "referrer")));
      ("host", optional (header (headers req) "host"));
      ("origin", optional (header (headers req) "origin"));
      ("traceparent", optional (header (headers req) "traceparent"));
      ("http_method", VStr (method req));
      ("custom_metadata", customMetadata options);
      ("signature_slots",
        match signatureSlots options with
        | Some slots => VArr (map slot_value slots)
        | None => VUndefined
        end);
      ("template_content", optional (templateContent options)) ].

(** [appendHiddenMetadataBlock(template, metadata)]. *)
Definition appendHiddenMetadataBlock (template_ : string) (metadata_ : value)
  : result string :=
  if negb (truthy metadata_) then Ok template_
  else
    let* serialized := or_throw TypeError (JSON_stringify metadata_) in
    let hiddenBlock :=
      "<div style=" ++ String dquote "display:none;" ++ String dquote " data-docuchain-meta="
        ++ String dquote "true" ++ String dquote ">" ++ escapeHtml serialized ++ "</div>" in
    let commentBlock :=
      "<!--DOCUCHAIN_METADATA:" ++ toString_base64 (buffer_of_string serialized) ++ "-->" in
    Ok (template_ ++ String line_feed (String line_feed "") ++ hiddenBlock
          ++ String line_feed "" ++ commentBlock).

(** * Vocabulary of the further statements *)

(** ** The ledger *)

(** What every answer of [findOne] satisfies: the row it returns is a row of
    the table that meets the condition, and it returns none only when no row
    does. *)
Definition selects (findOne : Finder) : Prop :=
  forall (where_ : DocumentBlock -> bool) (l : list DocumentBlock),
    match findOne where_ l with
    | Some b => In b l /\ where_ b = true
    | None => forall b, In b l -> where_ b = false
    end.

(** A text of 64 characters among [0-9a-f]. *)
Definition is_lower_hex (c : ascii) : bool :=
  (((48 <=? code c) && (code c <=? 57)) || ((97 <=? code c) && (code c <=? 102)))%Z.

Definition is_digest_text (t : string) : Prop :=
  String.length t = 64%nat /\ all_chars is_lower_hex t = true.

(** Three blocks appended in step, the third for [sample_pdf], and the
    ledgers that hold the first of them. *)
Definition sample_pdf : Buffer := [x25; x50; x44; x46; x0a].

Definition block_one : DocumentBlock :=
  {| id := 1; document_id := "doc-1"; previous_hash := None;
     hash := "400c3168547dfdbba5397f28af164bf96e4607c10cd2ec183a911c71d5d9e4d8";
     content_hash := "aaa"; signature_data := "[]"; metadata := VObj [];
     created_at := new_year_2024 |}.

Definition block_two : DocumentBlock :=
  {| id := 2; document_id := "doc-2";
     previous_hash :=
       Some "400c3168547dfdbba5397f28af164bf96e4607c10cd2ec183a911c71d5d9e4d8";
     hash := "77cb37b0d1e9b85bd31b2ac38dd9973e5d05b4f59d2d238133831852371e8165";
     content_hash := "bbb"; signature_data := "[]";
     metadata := VObj [("title", VStr "Lease")];
     created_at := (new_year_2024 + 5)%Z |}.

Definition block_three : DocumentBlock :=
  {| id := 3; document_id := "doc-3";
     previous_hash :=
       Some "77cb37b0d1e9b85bd31b2ac38dd9973e5d05b4f59d2d238133831852371e8165";
     hash := "cd5145caaefe7f91da87c66127bc4e553afa5bf9944677d2ced764e22e29d086";
     content_hash := "b9d4612337f8c122bf2ae1c76f837b3a73fee1f8bc3b9ea9787dc6e96b140849";
     signature_data := "[]"; metadata := VObj [];
     created_at := (new_year_2024 + 9)%Z |}.

Definition ledger_of (l : list DocumentBlock) : Store :=
  {| rows := l; next_id := Z.of_nat (List.length l) + 1 |}.

Definition three_blocks : Store := ledger_of [block_one; block_two; block_three].

(** [findOne] as a database that answers with the first row inserted. *)
Definition first_inserted : Finder := @find DocumentBlock.

(** ** Templates and their metadata *)

(** The text that stands for one character once [escapeHtml] is through. *)
Definition html_entity (c : ascii) : string :=
  if (c =? "&")%char then "&amp;"
  else if (c =? "<")%char then "&lt;"
  else if (c =? ">")%char then "&gt;"
  else if (c =? dquote)%char then "&quot;"
  else if (c =? "'")%char then "&#039;"
  else String c "".

Fixpoint escape_each (s : string) : string :=
  match s with
  | EmptyString => ""
  | String c r => html_entity c ++ escape_each r
  end.

(** The characters that open or close a tag or an attribute value. *)
Definition is_markup (c : ascii) : bool :=
  ((c =? "<") || (c =? ">") || (c =? dquote) || (c =? "'"))%char.

Definition free_of_markup (s : string) : Prop :=
  all_chars (fun c => negb (is_markup c)) s = true.

(** The text around the two hidden copies of the metadata. *)
Definition hidden_block (body payload : string) : string :=
  String line_feed (String line_feed "")
    ++ "<div style=" ++ String dquote "display:none;" ++ String dquote " data-docuchain-meta="
    ++ String dquote "true" ++ String dquote ">" ++ body ++ "</div>"
    ++ String line_feed "" ++ "<!--DOCUCHAIN_METADATA:" ++ payload ++ "-->".

(** The options [previewDocument] hands to [buildRequestMetadata]. *)
Definition preview_options (metadata_ : value) (template_ : string)
    (slots : list SignatureSlot) : MetadataOptions :=
  {| customMetadata := metadata_;
     templateContent := Some template_;
     signatureSlots := Some slots |}.

(** The names [buildRequestMetadata] gives its entries. *)
Definition metadata_names : list string :=
  [ "timestamp"; "request_id"; "request_ip"; "forwarded_for"; "user_agent"; "referer";
    "host"; "origin"; "traceparent"; "http_method"; "custom_metadata"; "signature_slots";
    "template_content" ].

(** The metadata [previewDocument] builds for a request, and attaches. *)
Definition preview_metadata (clock : Date) (fresh_id : string) (req : Request)
    (metadata_ : value) (template_ : string) (slots : list SignatureSlot) : value :=
  VObj (buildRequestMetadata clock fresh_id req (preview_options metadata_ template_ slots)).

(** The texts follow one another in [t], none reaching into the next. *)
Fixpoint occur_in_order (ps : list string) (t : string) : Prop :=
  match ps with
  | [] => True
  | p :: r => exists before after, t = before ++ p ++ after /\ occur_in_order r after
  end.

(** A request, the metadata of its body, a template with one slot and the
    payload of a signature. *)
Definition sample_request : Request :=
  {| headers := [("host", "docs.example"); ("x-forwarded-for", "203.0.113.7, 10.0.0.1")];
     ip := Some "10.0.0.1";
     method := "POST" |}.

Definition sample_custom : value := VObj [("client", VStr "acme")].

Definition sample_template : string := "Agreed. {{signature_slot:tenant:The tenant}}".

Definition sample_payload : value :=
  VArr [ VStr "tenant";
         VObj [("slot", VStr " owner "); ("signatureText", VStr "")];
         VNull;
         VObj [("slot", VStr "  ")] ].

(** ** Slots as templates write them *)

(** A slot as a template writes it: [{{signature_slot:id}}] or
    [{{signature_slot:id:label}}]. *)
Record WrittenSlot := {
  written_id : string;
  written_label : option string
}.

Definition slot_text (s : WrittenSlot) : string :=
  slot_prefix ++ written_id s
    ++ match written_label s with
       | Some l => String ":" l
       | None => ""
       end
    ++ "}}".

Definition no_char (c : ascii) (s : string) : Prop :=
  all_chars (fun x => negb (x =? c)%char) s = true.

(** The id has no colon and no closing brace and is not blank; the label has
    no brace. *)
Definition well_written (s : WrittenSlot) : Prop :=
  no_char ":" (written_id s) /\ no_char "}" (written_id s) /\
  js_trim (written_id s) <> "" /\
  match written_label s with
  | Some l => no_char "{" l /\ no_char "}" l
  | None => True
  end.

(** The slot that the extraction is to find for a written slot. *)
Definition slot_of (s : WrittenSlot) : SignatureSlot :=
  {| slot_id := js_trim (written_id s);
     slot_label :=
       label_or (match written_label s with Some l => l | None => "" end)
                (js_trim (written_id s));
     slot_placeholder := slot_text s |}.

(** A template: pieces of text, each followed by a slot, and the text after
    the last slot; [show] says what stands for a slot. *)
Fixpoint weave {A : Type} (show : A -> string) (pieces : list (string * A)) (tail : string)
  : string :=
  match pieces with
  | [] => tail
  | (before, s) :: r => before ++ show s ++ weave show r tail
  end.

(** A text without the prefix of a slot. *)
Definition plain (text : string) : Prop := from_first slot_prefix text = None.

(** What a renderer returns: a tag, with no brace and no dollar. *)
Definition rendered (r : string) : Prop :=
  startsWith "<" r = true /\ no_char "{" r /\ no_char "$" r.

(** A text that takes no part in a prefix begun before it. *)
Definition neutral (w : string) : Prop :=
  w = "" \/ startsWith "<" w = true \/ startsWith slot_prefix w = true.

(** No prefix begins in [x] when [w] follows. *)
Definition no_start (x w : string) : Prop :=
  forall u c v, x = u ++ String c v -> startsWith slot_prefix (String c v ++ w) = false.

(** A template with two slots, and a renderer. *)
Definition sample_pieces : list (string * WrittenSlot) :=
  [ ("Agreed. ", {| written_id := "tenant"; written_label := Some "The tenant" |});
    (" and ", {| written_id := " owner "; written_label := None |}) ].

Definition underline (s : SignatureSlot) : string := "<u>" ++ slot_id s ++ "</u>".

(** * Known answers

    Digests of well-known inputs, with the values that the crypto module of Node gives. *)

Example sha_empty :
  calculateHash "" = "e3b0c44298fc1c149afbf4c8996fb92427ae41e4649b934ca495991b7852b855".
Proof. vm_compute. reflexivity. Qed.

Example sha_abc :
  calculateHash "abc" = "ba7816bf8f01cfea414140de5dae2223b00361a396177a9cb410ff61f20015ad".
Proof. vm_compute. reflexivity. Qed.

Example sha_two_blocks :
  calculateHash "abcdbcdecdefdefgefghfghighijhijkijkljklmklmnlmnomnopnopq"
  = "248d6a61d20638b8e5c026930c3e6039a33ce45964ff2167f6ecedd419db06c1".
Proof. vm_compute. reflexivity. Qed.

Example hmac_fox :
  createHmac "key" "The quick brown fox jumps over the lazy dog"
  = "f7bc83f430538424b13298e6aa6fb143ef4d59a14946175997479dbc2d1a3cd8".
Proof. vm_compute. reflexivity. Qed.

(** * Facts about strings *)

Lemma append_empty_r (s : string) : s ++ "" = s.
Proof. induction s as [|c s IH]; simpl; [reflexivity | now rewrite IH]. Qed.

Lemma append_assoc (a b c : string) : (a ++ b) ++ c = a ++ (b ++ c).
Proof. induction a as [|x a IH]; simpl; [reflexivity | now rewrite IH]. Qed.

Lemma length_append (a b : string) :
  String.length (a ++ b) = (String.length a + String.length b)%nat.
Proof. induction a as [|x a IH]; simpl; [reflexivity | now rewrite IH]. Qed.

Lemma append_inv_head (a b c : string) : a ++ b = a ++ c -> b = c.
Proof.
  induction a as [|x a IH]; simpl; intros H; [exact H | injection H as H; auto].
Qed.

(** * Strings survive quoting *)

Lemma parse_string_body_escape_char (c : ascii) (tail : string) :
  parse_string_body (escape_char c ++ tail)
  = prepend (String c "") (parse_string_body tail).
Proof.
  destruct c as [[|] [|] [|] [|] [|] [|] [|] [|]]; cbn; reflexivity.
Qed.

Lemma prepend_prepend (a b : string) (r : option (string * string)) :
  prepend a (prepend b r) = prepend (a ++ b) r.
Proof. destruct r as [[t rest]|]; simpl; [now rewrite append_assoc | reflexivity]. Qed.

Lemma parse_string_body_escape (s rest : string) :
  parse_string_body (escape s ++ String dquote rest) = Some (s, rest).
Proof.
  induction s as [|c s IH]; simpl.
  - reflexivity.
  - rewrite append_assoc, parse_string_body_escape_char, IH. reflexivity.
Qed.

Lemma parse_quote (s rest : string) (fuel : nat) :
  parse_value (S fuel) (quote s ++ rest) = Some (VStr s, rest).
Proof.
  unfold quote. cbn [append parse_value skip_ws].
  replace (is_ws dquote) with false by reflexivity.
  cbn [String.eqb]. 
  rewrite append_assoc. cbn [append].
  replace (dquote =? "{")%char with false by reflexivity.
  replace (dquote =? "[")%char with false by reflexivity.
  replace (dquote =? dquote)%char with true by reflexivity.
  rewrite parse_string_body_escape. reflexivity.
Qed.

(** * Numbers survive printing *)

Lemma all_digits_app (a b : string) :
  all_digits (a ++ b) = all_digits a && all_digits b.
Proof.
  induction a as [|c a IH]; simpl; [reflexivity|].
  rewrite IH. now rewrite andb_assoc.
Qed.

Lemma all_digits_zeros (n : nat) : all_digits (zeros n) = true.
Proof. induction n; simpl; auto. Qed.

Lemma all_digits_uint (d : Decimal.uint) : all_digits (NilEmpty.string_of_uint d) = true.
Proof. induction d; simpl; auto. Qed.

Lemma all_digits_string_of_N (n : N) : all_digits (string_of_N n) = true.
Proof. apply all_digits_uint. Qed.

Lemma string_of_N_nonempty (n : N) : string_of_N n <> "".
Proof.
  unfold string_of_N. intros H.
  assert (E : N.to_uint n = Decimal.Nil) by (destruct (N.to_uint n); simpl in H; congruence).
  pose proof (DecimalN.Unsigned.of_to n) as R. rewrite E in R. simpl in R. subst n.
  discriminate E.
Qed.

Lemma N_of_string_of_N (n : N) : N_of_string (string_of_N n) = n.
Proof.
  unfold N_of_string, string_of_N. rewrite NilEmpty.usu. apply DecimalN.Unsigned.of_to.
Qed.

Lemma span_digits_app (a rest : string) :
  all_digits a = true ->
  match rest with String c _ => is_digit c = false | EmptyString => True end ->
  span_digits (a ++ rest) = (a, rest).
Proof.
  intros Ha Hr. induction a as [|c a IH]; simpl in *.
  - destruct rest as [|c r]; [reflexivity|]. simpl. now rewrite Hr.
  - apply andb_true_iff in Ha as [Hc Ha]. rewrite Hc, (IH Ha). reflexivity.
Qed.

Lemma number_end_not_digit (rest : string) :
  number_end rest = true ->
  match rest with String c _ => is_digit c = false | EmptyString => True end.
Proof.
  destruct rest as [|c r]; simpl; [auto|]. intros H.
  apply negb_true_iff in H. repeat (apply orb_false_iff in H as [H ?]). exact H.
Qed.

Lemma parse_fraction_end (rest : string) :
  number_end rest = true -> parse_fraction rest = Some ("", rest).
Proof.
  destruct rest as [|c r]; simpl; [auto|]. intros H.
  apply negb_true_iff in H. repeat (apply orb_false_iff in H as [H ?]).
  unfold parse_fraction. now replace (c =? ".")%char with false.
Qed.

Lemma parse_exponent_end (rest : string) :
  number_end rest = true -> parse_exponent rest = Some (0%Z, rest).
Proof.
  destruct rest as [|c r]; simpl; [auto|]. intros H.
  apply negb_true_iff in H. repeat (apply orb_false_iff in H as [H ?]).
  unfold parse_exponent.
  replace (c =? "e")%char with false. replace (c =? "E")%char with false. reflexivity.
Qed.

Lemma strip_trailing_zeros_zeros (n : nat) : strip_trailing_zeros (zeros n) = ("", n).
Proof. induction n as [|n IH]; simpl; [reflexivity | now rewrite IH]. Qed.

Lemma strip_trailing_zeros_app (s : string) (c : ascii) (e : nat) :
  last_char s c <> "0"%char ->
  strip_trailing_zeros (String c s ++ zeros e) = (String c s, e).
Proof.
  revert c. induction s as [|c' s IH]; intros c H; simpl in *.
  - rewrite strip_trailing_zeros_zeros.
    destruct (Ascii.eqb_spec c "0"); [contradiction | reflexivity].
  - specialize (IH c' H). simpl in IH. rewrite IH. reflexivity.
Qed.

Lemma strip_leading_zeros_nonzero (s : string) (c : ascii) :
  c <> "0"%char -> strip_leading_zeros (String c s) = String c s.
Proof. intros H. simpl. destruct (Ascii.eqb_spec c "0"); [contradiction | reflexivity]. Qed.

Lemma strip_leading_zeros_zeros (n : nat) (s : string) (c : ascii) :
  c <> "0"%char -> strip_leading_zeros (zeros n ++ String c s) = String c s.
Proof.
  intros H. induction n as [|n IH]; simpl.
  - destruct (Ascii.eqb_spec c "0"); [contradiction | reflexivity].
  - exact IH.
Qed.

Lemma mk_number_normal (neg : bool) (c : ascii) (s : string) (e : Z) (z : nat) :
  c <> "0"%char -> last_char s c <> "0"%char ->
  mk_number neg (String c s ++ zeros z) e = Num neg (String c s) (e + Z.of_nat z).
Proof.
  intros Hc Hl. unfold mk_number.
  change (String c s ++ zeros z) with (String c (s ++ zeros z)).
  rewrite strip_leading_zeros_nonzero by assumption.
  change (String c (s ++ zeros z)) with (String c s ++ zeros z).
  rewrite strip_trailing_zeros_app by assumption. reflexivity.
Qed.

Lemma mk_number_normal0 (neg : bool) (c : ascii) (s : string) (e : Z) :
  c <> "0"%char -> last_char s c <> "0"%char ->
  mk_number neg (String c s) e = Num neg (String c s) e.
Proof.
  intros Hc Hl. pose proof (mk_number_normal neg c s e 0 Hc Hl) as H.
  simpl zeros in H. rewrite append_empty_r in H. rewrite H. f_equal. lia.
Qed.

Lemma mk_number_leading (neg : bool) (c : ascii) (s : string) (e : Z) (z : nat) :
  c <> "0"%char -> last_char s c <> "0"%char ->
  mk_number neg (zeros z ++ String c s) e = Num neg (String c s) e.
Proof.
  intros Hc Hl. unfold mk_number. rewrite strip_leading_zeros_zeros by assumption.
  pose proof (strip_trailing_zeros_app s c 0 Hl) as H. simpl zeros in H.
  rewrite append_empty_r in H. rewrite H. f_equal. lia.
Qed.

Lemma str_take_drop (n : nat) (s : string) : str_take n s ++ str_drop n s = s.
Proof.
  revert s. induction n as [|n IH]; intros [|c s]; simpl; try reflexivity.
  now rewrite IH.
Qed.

Lemma all_digits_take (n : nat) (s : string) :
  all_digits s = true -> all_digits (str_take n s) = true.
Proof.
  revert s. induction n as [|n IH]; intros [|c s]; simpl; auto.
  intros H. apply andb_true_iff in H as [Hc Hs]. rewrite Hc. simpl. auto.
Qed.

Lemma all_digits_drop (n : nat) (s : string) :
  all_digits s = true -> all_digits (str_drop n s) = true.
Proof.
  revert s. induction n as [|n IH]; intros [|c s]; simpl; auto.
  intros H. apply andb_true_iff in H as [Hc Hs]. auto.
Qed.

Lemma length_str_drop (n : nat) (s : string) :
  String.length (str_drop n s) = (String.length s - n)%nat.
Proof. revert s. induction n as [|n IH]; intros [|c s]; simpl; auto. Qed.

Lemma is_digit_eqb_false (c d : ascii) :
  is_digit c = true -> is_digit d = false -> (c =? d)%char = false.
Proof.
  intros Hc Hd. destruct (Ascii.eqb_spec c d); [subst; congruence | reflexivity].
Qed.

Ltac digit_neq :=
  match goal with
  | H : is_digit ?c = true |- context [(?c =? ?d)%char] =>
      rewrite (is_digit_eqb_false c d H eq_refl)
  end.

Lemma span_digits_dot (a rest : string) :
  all_digits a = true -> span_digits (a ++ String "." rest) = (a, String "." rest).
Proof. intros H. apply span_digits_app; [exact H | reflexivity]. Qed.

Lemma span_digits_e (a rest : string) :
  all_digits a = true -> span_digits (a ++ String "e" rest) = (a, String "e" rest).
Proof. intros H. apply span_digits_app; [exact H | reflexivity]. Qed.

Lemma parse_exponent_printed (e : Z) (rest : string) :
  number_end rest = true ->
  parse_exponent ("e" ++ (if (e <? 0)%Z then "-" else "+") ++ string_of_N (Z.abs_N e) ++ rest)
  = Some (e, rest).
Proof.
  intros Hr. unfold parse_exponent. cbn [append Ascii.eqb Bool.eqb orb].
  assert (S : span_digits (string_of_N (Z.abs_N e) ++ rest) = (string_of_N (Z.abs_N e), rest)).
  { apply span_digits_app; [apply all_digits_string_of_N | now apply number_end_not_digit]. }
  destruct (Z.ltb_spec e 0); cbn [append Ascii.eqb Bool.eqb orb]; rewrite S;
    destruct (string_of_N (Z.abs_N e)) eqn:E;
    try (exfalso; eapply string_of_N_nonempty; eassumption);
    rewrite <- E, N_of_string_of_N; f_equal; f_equal; lia.
Qed.

Lemma parse_unsigned_digits (neg : bool) (d : ascii) (a rest : string) :
  is_digit d = true -> d <> "0"%char -> all_digits a = true ->
  match rest with String c _ => is_digit c = false | EmptyString => True end ->
  parse_unsigned neg (String d a ++ rest) = continue_number neg (String d a) rest.
Proof.
  intros Hd Hz Ha Hr. unfold parse_unsigned. cbn [append]. rewrite Hd.
  apply Ascii.eqb_neq in Hz. rewrite Hz.
  change (String d (a ++ rest)) with (String d a ++ rest).
  rewrite span_digits_app; [reflexivity | simpl; now rewrite Hd | exact Hr].
Qed.

Lemma parse_unsigned_zero (neg : bool) (rest : string) :
  parse_unsigned neg ("0" ++ rest) = continue_number neg "0" rest.
Proof. reflexivity. Qed.

Lemma parse_fraction_digits (fd rest : string) :
  all_digits fd = true -> fd <> "" ->
  match rest with String c _ => is_digit c = false | EmptyString => True end ->
  parse_fraction ("." ++ fd ++ rest) = Some (fd, rest).
Proof.
  intros Hf Hne Hr. unfold parse_fraction. cbn [append Ascii.eqb Bool.eqb].
  rewrite span_digits_app by assumption. destruct fd; [congruence | reflexivity].
Qed.

Lemma length_zeros (m : nat) : String.length (zeros m) = m.
Proof. induction m; simpl; auto. Qed.

Lemma parse_unsigned_printed (neg : bool) (d : ascii) (ds rest : string) (e : Z) :
  wf_number (Num neg (String d ds) e) ->
  number_end rest = true ->
  parse_unsigned neg (number_to_string (Num false (String d ds) e) ++ rest)
  = Some (Num neg (String d ds) e, rest).
Proof.
  intros [Hd [Hnz Hl]] Hr. simpl in Hd, Hnz, Hl.
  apply andb_true_iff in Hd as [Hd0 Hds].
  assert (Hs : all_digits (String d ds) = true) by (simpl; now rewrite Hd0, Hds).
  pose proof (number_end_not_digit rest Hr) as Hnd.
  unfold number_to_string. cbn [ndigits nexp nneg].
  set (k := Z.of_nat (String.length (String d ds))).
  assert (Hk : k = (1 + Z.of_nat (String.length ds))%Z) by (unfold k; simpl String.length; lia).
  clearbody k.
  destruct ((k <=? k + e)%Z && (k + e <=? 21)%Z) eqn:A.
  { (* digits, then zeros *)
    apply andb_true_iff in A as [A1 A2]. apply Z.leb_le in A1.
    change (String d ds ++ zeros (Z.to_nat (k + e - k)))
      with (String d (ds ++ zeros (Z.to_nat (k + e - k)))).
    rewrite parse_unsigned_digits; try assumption;
      [| rewrite all_digits_app, Hds, all_digits_zeros; reflexivity].
    unfold continue_number.
    rewrite (parse_fraction_end _ Hr), (parse_exponent_end _ Hr).
    rewrite append_empty_r.
    change (String d (ds ++ zeros (Z.to_nat (k + e - k))))
      with (String d ds ++ zeros (Z.to_nat (k + e - k))).
    rewrite mk_number_normal by assumption.
    do 3 f_equal. simpl String.length. lia. }
  destruct ((0 <? k + e)%Z && (k + e <=? 21)%Z) eqn:B.
  { (* digits around a point *)
    apply andb_true_iff in B as [B1 B2]. apply Z.ltb_lt in B1.
    apply andb_false_iff in A.
    assert (Hlt : (k + e < k)%Z)
      by (destruct A as [A|A]; [apply Z.leb_gt in A | apply Z.leb_gt in A]; lia).
    destruct (Z.to_nat (k + e)) as [|n'] eqn:En; [lia|].
    cbn [str_take str_drop].
    assert (Hn' : (n' < String.length ds)%nat) by lia.
    rewrite append_assoc.
    rewrite parse_unsigned_digits; try assumption; [| now apply all_digits_take | reflexivity].
    unfold continue_number. rewrite append_assoc.
    rewrite parse_fraction_digits; [| now apply all_digits_drop | | exact Hnd].
    2:{ intros E. apply (f_equal String.length) in E. rewrite length_str_drop in E.
        simpl in E. lia. }
    rewrite (parse_exponent_end _ Hr).
    change (String d (str_take n' ds) ++ str_drop n' ds)
      with (String d (str_take n' ds ++ str_drop n' ds)).
    rewrite str_take_drop, mk_number_normal0 by assumption.
    do 3 f_equal. rewrite length_str_drop. lia. }
  destruct ((-6 <? k + e)%Z && (k + e <=? 0)%Z) eqn:C.
  { (* zero, point, zeros, digits *)
    apply andb_true_iff in C as [C1 C2]. apply Z.leb_le in C2.
    change ("0." ++ zeros (Z.to_nat (- (k + e))) ++ String d ds)
      with ("0" ++ "." ++ zeros (Z.to_nat (- (k + e))) ++ String d ds).
    rewrite !append_assoc. rewrite parse_unsigned_zero.
    unfold continue_number. rewrite <- (append_assoc (zeros _)).
    rewrite parse_fraction_digits; [| rewrite all_digits_app, Hs, all_digits_zeros; reflexivity | | exact Hnd].
    2:{ intros E. apply (f_equal String.length) in E. rewrite length_append in E.
        simpl in E. lia. }
    rewrite (parse_exponent_end _ Hr).
    change ("0" ++ zeros (Z.to_nat (- (k + e))) ++ String d ds)
      with (zeros (S (Z.to_nat (- (k + e)))) ++ String d ds).
    rewrite mk_number_leading by assumption.
    do 3 f_equal. rewrite length_append, length_zeros. simpl String.length. lia. }
  (* exponential notation *)
  set (x := (k + e - 1)%Z).
  assert (P : parse_exponent
            (("e" ++ (if (x <? 0)%Z then "-" else "+") ++ string_of_Z (Z.abs x)) ++ rest)
            = Some (x, rest)).
  { unfold string_of_Z. destruct (Z.ltb_spec (Z.abs x) 0); [lia|].
    replace (Z.abs_N (Z.abs x)) with (Z.abs_N x) by lia.
    rewrite !append_assoc. apply parse_exponent_printed. exact Hr. }
  destruct ds as [|d1 ds1].
  - rewrite append_assoc.
    rewrite parse_unsigned_digits by first [assumption | reflexivity].
    unfold continue_number.
    assert (F : parse_fraction
              (("e" ++ (if (x <? 0)%Z then "-" else "+") ++ string_of_Z (Z.abs x)) ++ rest)
            = Some ("", ("e" ++ (if (x <? 0)%Z then "-" else "+") ++ string_of_Z (Z.abs x)) ++ rest))
      by reflexivity.
    rewrite F, P. rewrite append_empty_r, mk_number_normal0 by assumption.
    do 3 f_equal. unfold x. simpl String.length in *. lia.
  - rewrite !append_assoc.
    rewrite parse_unsigned_digits by first [assumption | reflexivity].
    unfold continue_number.
    rewrite parse_fraction_digits; [| exact Hds | discriminate | reflexivity].
    rewrite <- append_assoc in P. rewrite <- !append_assoc. rewrite !append_assoc in P.
    rewrite !append_assoc. rewrite P.
    change (String d "" ++ String d1 ds1) with (String d (String d1 ds1)).
    rewrite mk_number_normal0 by assumption.
    do 3 f_equal. unfold x. simpl String.length in *. lia.
Qed.

Lemma number_to_string_sign (x : number) :
  ndigits x <> "" ->
  number_to_string x
  = (if nneg x then "-" else "") ++ number_to_string (Num false (ndigits x) (nexp x)).
Proof.
  destruct x as [neg ds e]. simpl. intros H.
  unfold number_to_string. cbn [ndigits nexp nneg].
  destruct ds; [congruence|]. destruct neg; reflexivity.
Qed.

Lemma number_to_string_first (ds : string) (e : Z) :
  all_digits ds = true ->
  exists c t, number_to_string (Num false ds e) = String c t /\ is_digit c = true.
Proof.
  intros Hd. unfold number_to_string. cbn [ndigits nexp nneg].
  destruct ds as [|d ds]; [exists "0"%char, ""; auto|].
  simpl in Hd. apply andb_true_iff in Hd as [Hd0 _].
  set (k := Z.of_nat (String.length (String d ds))).
  destruct ((k <=? k + e)%Z && (k + e <=? 21)%Z).
  { eexists _, _; split; [reflexivity | assumption]. }
  destruct ((0 <? k + e)%Z && (k + e <=? 21)%Z) eqn:B.
  { apply andb_true_iff in B as [B1 _]. apply Z.ltb_lt in B1.
    destruct (Z.to_nat (k + e)) eqn:En; [lia|].
    eexists _, _; split; [reflexivity | assumption]. }
  destruct ((-6 <? k + e)%Z && (k + e <=? 0)%Z).
  { eexists _, _; split; [reflexivity | reflexivity]. }
  destruct ds; eexists _, _; (split; [reflexivity | assumption]).
Qed.

Lemma parse_number_printed (x : number) (rest : string) :
  wf_number x -> number_end rest = true ->
  parse_number (number_to_string x ++ rest) = Some (x, rest).
Proof.
  intros W Hr. destruct x as [neg ds e].
  destruct ds as [|d ds].
  - destruct W as [_ [Hn He]]. simpl in Hn, He. subst.
    change (number_to_string (Num false "" 0)) with "0".
    unfold parse_number. cbn [append Ascii.eqb Bool.eqb].
    change (String "0" rest) with ("0" ++ rest). rewrite parse_unsigned_zero.
    unfold continue_number.
    rewrite (parse_fraction_end _ Hr), (parse_exponent_end _ Hr). reflexivity.
  - rewrite number_to_string_sign by discriminate. cbn [nneg ndigits nexp].
    pose proof (parse_unsigned_printed neg d ds rest e W Hr) as P.
    destruct W as [Hd _]. cbn [ndigits] in Hd.
    destruct (number_to_string_first (String d ds) e Hd) as (c & t & E & Hc).
    destruct neg.
    + rewrite append_assoc. unfold parse_number. cbn [append Ascii.eqb Bool.eqb]. exact P.
    + cbn [append]. rewrite E in *. unfold parse_number. cbn [append].
      rewrite (is_digit_eqb_false c "-" Hc eq_refl). exact P.
Qed.

(** * The JSON round trip *)

Lemma value_ind' (P : value -> Prop) :
  P VUndefined -> P VNull -> (forall b, P (VBool b)) -> (forall n, P (VNum n)) ->
  (forall s, P (VStr s)) ->
  (forall l, Forall P l -> P (VArr l)) ->
  (forall props, Forall (fun kv => P (snd kv)) props -> P (VObj props)) ->
  forall v, P v.
Proof.
  intros Hu Hn Hb Hnum Hs Ha Ho.
  fix IH 1. intros [| | b | n | s | l | props].
  - exact Hu.
  - exact Hn.
  - apply Hb.
  - apply Hnum.
  - apply Hs.
  - apply Ha. induction l as [|x l IHl]; constructor; [apply IH | exact IHl].
  - apply Ho. induction props as [|[k x] props IHp]; constructor; [apply IH | exact IHp].
Qed.

Lemma value_eq_undefined (v : value) : v = VUndefined \/ v <> VUndefined.
Proof. destruct v; (now left) || (right; discriminate). Qed.

Lemma delimited_skip_ws (rest : string) : delimited rest = true -> skip_ws rest = rest.
Proof.
  destruct rest as [|c r]; [reflexivity|]. simpl. intros H.
  destruct (is_ws c) eqn:E; [|reflexivity]. exfalso.
  unfold is_ws in E.
  repeat (apply orb_true_iff in E as [E|E]); apply Ascii.eqb_eq in E; subst c; discriminate H.
Qed.

Lemma delimited_number_end (rest : string) : delimited rest = true -> number_end rest = true.
Proof.
  destruct rest as [|c r]; [reflexivity|]. simpl. intros H.
  repeat (apply orb_true_iff in H as [H|H]); apply Ascii.eqb_eq in H; subst c; reflexivity.
Qed.

Lemma parse_value_unfold (f : nat) (s : string) :
  parse_value (S f) s =
  match skip_ws s with
  | EmptyString => None
  | String c r =>
      if (c =? "{")%char then
        match skip_ws r with
        | String c' r' =>
            if (c' =? "}")%char then Some (VObj [], r')
            else
              match parse_members f r with
              | Some (ms, r'') => Some (obj_of_members ms, r'')
              | None => None
              end
        | EmptyString => None
        end
      else if (c =? "[")%char then
        match skip_ws r with
        | String c' r' =>
            if (c' =? "]")%char then Some (VArr [], r')
            else
              match parse_elements f r with
              | Some (vs, r'') => Some (VArr vs, r'')
              | None => None
              end
        | EmptyString => None
        end
      else if (c =? dquote)%char then
        match parse_string_body r with
        | Some (t, r') => Some (VStr t, r')
        | None => None
        end
      else if (c =? "t")%char then
        match expect "rue" r with Some r' => Some (VBool true, r') | None => None end
      else if (c =? "f")%char then
        match expect "alse" r with Some r' => Some (VBool false, r') | None => None end
      else if (c =? "n")%char then
        match expect "ull" r with Some r' => Some (VNull, r') | None => None end
      else
        match parse_number (String c r) with
        | Some (n, r') => Some (VNum n, r')
        | None => None
        end
  end.
Proof. reflexivity. Qed.

Lemma parse_elements_unfold (f : nat) (s : string) :
  parse_elements (S f) s =
  match parse_value f s with
  | None => None
  | Some (v, r) =>
      match skip_ws r with
      | String c r' =>
          if (c =? ",")%char then
            match parse_elements f r' with
            | Some (vs, r'') => Some (v :: vs, r'')
            | None => None
            end
          else if (c =? "]")%char then Some ([v], r')
          else None
      | EmptyString => None
      end
  end.
Proof. reflexivity. Qed.

Lemma parse_members_unfold (f : nat) (s : string) :
  parse_members (S f) s =
  match skip_ws s with
  | String q r =>
      if (q =? dquote)%char then
        match parse_string_body r with
        | None => None
        | Some (k, r1) =>
            match skip_ws r1 with
            | String c r2 =>
                if (c =? ":")%char then
                  match parse_value f r2 with
                  | None => None
                  | Some (v, r3) =>
                      match skip_ws r3 with
                      | String d r4 =>
                          if (d =? ",")%char then
                            match parse_members f r4 with
                            | Some (ms, r5) => Some ((k, v) :: ms, r5)
                            | None => None
                            end
                          else if (d =? "}")%char then Some ([(k, v)], r4)
                          else None
                      | EmptyString => None
                      end
                  end
                else None
            | EmptyString => None
            end
        end
      else None
  | EmptyString => None
  end.
Proof. reflexivity. Qed.

Lemma parse_value_number (f : nat) (c : ascii) (r : string) :
  is_digit c = true \/ c = "-"%char ->
  parse_value (S f) (String c r) =
  match parse_number (String c r) with
  | Some (n, r') => Some (VNum n, r')
  | None => None
  end.
Proof.
  intros H. rewrite parse_value_unfold.
  assert (E : is_ws c = false /\ (c =? "{")%char = false /\ (c =? "[")%char = false
              /\ (c =? dquote)%char = false /\ (c =? "t")%char = false
              /\ (c =? "f")%char = false /\ (c =? "n")%char = false).
  { destruct H as [H | ->]; [| repeat split; reflexivity].
    assert (N : forall d, is_digit d = false -> (c =? d)%char = false)
      by (intros; now apply is_digit_eqb_false).
    unfold is_ws. rewrite !N by reflexivity. repeat split; reflexivity. }
  destruct E as (E0 & E1 & E2 & E3 & E4 & E5 & E6).
  cbn [skip_ws]. rewrite E0, E1, E2, E3, E4, E5, E6. reflexivity.
Qed.

Lemma number_to_string_start (x : number) :
  wf_number x ->
  exists c t, number_to_string x = String c t /\ (is_digit c = true \/ c = "-"%char).
Proof.
  intros W. destruct x as [neg ds e]. destruct ds as [|d ds].
  - exists "0"%char, "". split; [reflexivity | left; reflexivity].
  - rewrite number_to_string_sign by discriminate. cbn [nneg ndigits nexp].
    destruct W as [Hd _]. cbn [ndigits] in Hd.
    destruct (number_to_string_first (String d ds) e Hd) as (c & t & E & Hc).
    destruct neg.
    + eexists _, _. split; [reflexivity | now right].
    + exists c, t. split; [exact E | now left].
Qed.

Lemma JSON_stringify_defined (v : value) :
  v <> VUndefined -> JSON_stringify v = Some (elem_text v).
Proof.
  intros H. unfold elem_text. destruct v as [| | [|] | | | |]; try reflexivity. congruence.
Qed.

Lemma elem_text_start (v : value) : wf_value v -> value_start (elem_text v) = true.
Proof.
  intros W. destruct v as [| | [|] | n | s | l | props]; try reflexivity.
  inversion W as [| | | n' Wn | | |]; subst.
  destruct (number_to_string_start n Wn) as (c & t & E & [Hc | ->]).
  - unfold elem_text. cbn [JSON_stringify]. rewrite E. cbn [value_start].
    assert (N : forall d, is_digit d = false -> (c =? d)%char = false)
      by (intros; now apply is_digit_eqb_false).
    unfold is_ws. rewrite !N by reflexivity. reflexivity.
  - unfold elem_text. cbn [JSON_stringify]. rewrite E. reflexivity.
Qed.

Lemma value_start_skip_ws (s rest : string) :
  value_start s = true -> skip_ws (s ++ rest) = s ++ rest.
Proof.
  destruct s as [|c s]; [discriminate|]. cbn [value_start append skip_ws].
  intros H. destruct (is_ws c); [discriminate | reflexivity].
Qed.

Lemma join_cons2 (sep x y : string) (l : list string) :
  join sep (x :: y :: l) = x ++ sep ++ join sep (y :: l).
Proof. reflexivity. Qed.

Lemma parse_elements_printed (l : list value) :
  l <> [] -> Forall reparses l ->
  forall rest fuel, delimited rest = true -> (elems_size l <= fuel)%nat ->
    parse_elements fuel (join "," (map elem_text l) ++ String "]" rest)
    = Some (map json_image l, rest).
Proof.
  induction l as [|x l IHl]; [congruence|].
  intros _ HF rest fuel Hr Hf. inversion HF as [|x' l' Hx Hl]; subst.
  cbn [elems_size fold_right] in Hf. fold (elems_size l) in Hf.
  destruct fuel as [|f]; [lia|]. rewrite parse_elements_unfold.
  destruct l as [|y l].
  - cbn [map join]. rewrite (Hx (String "]" rest) f) by (reflexivity || lia).
    reflexivity.
  - cbn [map]. rewrite join_cons2, !append_assoc. cbn [append].
    rewrite (Hx (String "," (join "," (elem_text y :: map elem_text l) ++ String "]" rest)) f)
      by (reflexivity || lia).
    cbn [append skip_ws is_ws Ascii.eqb Bool.eqb orb].
    change (elem_text y :: map elem_text l) with (map elem_text (y :: l)).
    rewrite IHl; [reflexivity | discriminate | exact Hl | exact Hr | lia].
Qed.

Lemma entry_texts_nil (props : list (string * value)) :
  entry_texts props = [] -> image_props props = [].
Proof.
  induction props as [|[k v] props IH]; [reflexivity|].
  unfold entry_texts, image_props. cbn [flat_map fst snd].
  destruct v as [| | [|] | | | |]; cbn [JSON_stringify app]; try discriminate.
  exact IH.
Qed.

Lemma parse_members_printed (props : list (string * value)) :
  Forall (fun kv => reparses (snd kv)) props ->
  entry_texts props <> [] ->
  forall rest fuel, delimited rest = true -> (props_size props <= fuel)%nat ->
    parse_members fuel (join "," (entry_texts props) ++ String "}" rest)
    = Some (image_props props, rest).
Proof.
  induction props as [|[k v] props IHp]; [intros _ H; now contradiction H|].
  intros HF Hne rest fuel Hr Hf. inversion HF as [|kv' l' Hv Hl]; subst. cbn [snd] in Hv.
  destruct (value_eq_undefined v) as [-> | Hdef].
  - cbn [props_size fold_right snd] in Hf. fold (props_size props) in Hf.
    apply IHp; assumption.
  - assert (Hsz : (S (vsize v + props_size props) <= fuel)%nat).
    { cbn [props_size fold_right snd] in Hf. fold (props_size props) in Hf.
      destruct v; try exact Hf. congruence. }
    assert (Et : entry_texts ((k, v) :: props)
                 = (quote k ++ ":" ++ elem_text v) :: entry_texts props).
    { unfold entry_texts. cbn [flat_map fst snd]. rewrite (JSON_stringify_defined v Hdef).
      reflexivity. }
    assert (Ei : image_props ((k, v) :: props) = (k, json_image v) :: image_props props).
    { unfold image_props. cbn [flat_map fst snd]. destruct v; try reflexivity. congruence. }
    rewrite Et, Ei. destruct fuel as [|f]; [lia|]. rewrite parse_members_unfold.
    destruct (entry_texts props) as [|e es] eqn:Ee.
    + cbn [join]. unfold quote. rewrite !append_assoc. cbn [append skip_ws].
      replace (is_ws dquote) with false by reflexivity.
      replace (dquote =? dquote)%char with true by reflexivity.
      rewrite append_assoc. cbn [append]. rewrite parse_string_body_escape.
      cbn [append skip_ws is_ws Ascii.eqb Bool.eqb orb].
      rewrite (Hv (String "}" rest) f) by (reflexivity || lia).
      cbn [append skip_ws is_ws Ascii.eqb Bool.eqb orb].
      rewrite (entry_texts_nil props Ee). reflexivity.
    + rewrite join_cons2. unfold quote. rewrite !append_assoc. cbn [append skip_ws].
      replace (is_ws dquote) with false by reflexivity.
      replace (dquote =? dquote)%char with true by reflexivity.
      rewrite append_assoc. cbn [append]. rewrite parse_string_body_escape.
      cbn [append skip_ws is_ws Ascii.eqb Bool.eqb orb].
      rewrite (Hv (String "," (join "," (e :: es) ++ String "}" rest)) f) by (reflexivity || lia).
      cbn [append skip_ws is_ws Ascii.eqb Bool.eqb orb].
      rewrite IHp; [reflexivity | exact Hl | discriminate | exact Hr | lia].
Qed.

Lemma obj_set_fresh (acc : list (string * value)) (k : string) (v : value) :
  ~ In k (keys acc) -> obj_set acc k v = (acc ++ [(k, v)])%list.
Proof.
  induction acc as [|[k' v'] acc IH]; intros H; [reflexivity|].
  cbn [obj_set app]. cbn [keys map fst In] in H.
  destruct (String.eqb_spec k' k) as [->|N]; [exfalso; auto|].
  rewrite IH by (intros I; apply H; now right). reflexivity.
Qed.

Lemma fold_obj_set_nodup (ms acc : list (string * value)) :
  NoDup (keys (acc ++ ms)) ->
  fold_left (fun a kv => obj_set a (fst kv) (snd kv)) ms acc = (acc ++ ms)%list.
Proof.
  revert acc. induction ms as [|[k v] ms IH]; intros acc H.
  - cbn [fold_left]. now rewrite app_nil_r.
  - cbn [fold_left fst snd].
    assert (Hk : ~ In k (keys acc)).
    { unfold keys in H. rewrite map_app in H. cbn [map fst] in H.
      apply NoDup_remove_2 in H. intros I. apply H. apply in_or_app. now left. }
    rewrite obj_set_fresh by exact Hk.
    rewrite IH; rewrite <- app_assoc; [reflexivity | exact H].
Qed.

Lemma obj_of_members_nodup (ms : list (string * value)) :
  NoDup (keys ms) -> obj_of_members ms = VObj ms.
Proof.
  intros H. unfold obj_of_members. now rewrite fold_obj_set_nodup.
Qed.

Lemma keys_image_props_incl (props : list (string * value)) (k : string) :
  In k (keys (image_props props)) -> In k (keys props).
Proof.
  induction props as [|[k' v] props IH]; [auto|].
  unfold image_props. cbn [flat_map fst snd]. fold (image_props props).
  unfold keys in *. rewrite map_app. intros H. apply in_app_or in H as [H|H].
  - left. destruct v; cbn in H; try contradiction; destruct H as [H|[]]; exact H.
  - right. auto.
Qed.

Lemma NoDup_keys_image_props (props : list (string * value)) :
  NoDup (keys props) -> NoDup (keys (image_props props)).
Proof.
  induction props as [|[k v] props IH]; intros H; [constructor|].
  inversion H as [|k' l' Hk Hn]; subst.
  unfold image_props. cbn [flat_map fst snd]. fold (image_props props).
  destruct v; cbn [app]; try (apply IH; exact Hn);
    unfold keys; cbn [map fst]; constructor;
    try (intros I; apply Hk; now apply keys_image_props_incl); apply IH; exact Hn.
Qed.

Lemma reparses_all (v : value) : wf_value v -> reparses v.
Proof.
  induction v as [| | b | n | s | l IHl | props IHp] using value_ind'; intros W rest fuel Hr Hf.
  - destruct fuel; [simpl in Hf; lia|]. reflexivity.
  - destruct fuel; [simpl in Hf; lia|]. reflexivity.
  - destruct fuel; [simpl in Hf; lia|]. destruct b; reflexivity.
  - destruct fuel as [|f]; [simpl in Hf; lia|].
    inversion W as [| | | n' Wn | | |]; subst.
    destruct (number_to_string_start n Wn) as (c & t & E & Hc).
    unfold elem_text. cbn [JSON_stringify json_image]. 
    pose proof (parse_number_printed n rest Wn (delimited_number_end _ Hr)) as P.
    rewrite E in *. cbn [append] in *. rewrite parse_value_number by exact Hc.
    rewrite P. reflexivity.
  - destruct fuel as [|f]; [simpl in Hf; lia|]. apply parse_quote.
  - inversion W as [| | | | | l' Wl |]; subst.
    assert (HF : Forall reparses l).
    { rewrite Forall_forall in *. intros x Hx. apply IHl; [exact Hx | now apply Wl]. }
    cbn [vsize] in Hf. fold (elems_size l) in Hf.
    destruct fuel as [|f]; [lia|].
    unfold elem_text. cbn [JSON_stringify json_image].
    change (map (fun x => match JSON_stringify x with Some t => t | None => "null" end) l)
      with (map elem_text l).
    rewrite parse_value_unfold. cbn [append skip_ws is_ws Ascii.eqb Bool.eqb orb].
    destruct l as [|x l].
    + cbn [map join append skip_ws is_ws Ascii.eqb Bool.eqb orb]. reflexivity.
    + rewrite append_assoc. cbn [append].
      assert (Hs : value_start (join "," (map elem_text (x :: l))) = true).
      { inversion Wl; subst. destruct l; cbn [map join].
        - now apply elem_text_start.
        - pose proof (elem_text_start x H1) as S.
          destruct (elem_text x); [discriminate | exact S]. }
      rewrite (value_start_skip_ws _ _ Hs).
      destruct (join "," (map elem_text (x :: l))) as [|c0 r0] eqn:J; [discriminate|].
      cbn [append]. cbn [value_start] in Hs.
      destruct (c0 =? "]")%char; [rewrite !andb_false_r in Hs; simpl in Hs; discriminate|].
      change (String c0 (r0 ++ String "]" rest)) with (String c0 r0 ++ String "]" rest).
      rewrite <- J.
      rewrite parse_elements_printed; [reflexivity | discriminate | exact HF | exact Hr | lia].
  - inversion W as [| | | | | | props' Wk Wp]; subst.
    assert (HF : Forall (fun kv => reparses (snd kv)) props).
    { rewrite Forall_forall in *. intros x Hx. apply IHp; [exact Hx | now apply Wp]. }
    cbn [vsize] in Hf. fold (props_size props) in Hf.
    destruct fuel as [|f]; [lia|].
    unfold elem_text. cbn [JSON_stringify json_image].
    fold (entry_texts props). fold (image_props props).
    rewrite parse_value_unfold. cbn [append skip_ws is_ws Ascii.eqb Bool.eqb orb].
    destruct (entry_texts props) as [|e es] eqn:Ee.
    + cbn [join append skip_ws is_ws Ascii.eqb Bool.eqb orb].
      rewrite (entry_texts_nil props Ee). reflexivity.
    + rewrite append_assoc. cbn [append].
      assert (Hq : exists t, join "," (e :: es) = String dquote t).
      { clear - Ee. revert e es Ee. induction props as [|[k v] props IH]; intros e es Ee.
        - discriminate.
        - unfold entry_texts in Ee. cbn [flat_map fst snd] in Ee.
          destruct (JSON_stringify v).
          + cbn [app] in Ee. injection Ee as <- <-.
            destruct (flat_map _ props); cbn [join]; eexists; reflexivity.
          + cbn [app] in Ee. eapply IH. exact Ee. }
      destruct Hq as [t Ht]. rewrite Ht. cbn [append skip_ws].
      replace (is_ws dquote) with false by reflexivity.
      replace (dquote =? "}")%char with false by reflexivity.
      change (String dquote (t ++ String "}" rest)) with (String dquote t ++ String "}" rest).
      rewrite <- Ht, <- Ee.
      rewrite parse_members_printed; [| exact HF | rewrite Ee; discriminate | exact Hr | lia].
      rewrite obj_of_members_nodup by (now apply NoDup_keys_image_props). reflexivity.
Qed.

Lemma elems_size_le (l : list value) :
  Forall (fun x => (vsize x <= String.length (elem_text x))%nat) l ->
  (elems_size l <= String.length (join "," (map elem_text l)) + 1)%nat.
Proof.
  induction l as [|x l IH]; intros H; [simpl; lia|].
  inversion H as [|x' l' Hx Hl]; subst. specialize (IH Hl).
  cbn [elems_size fold_right]. fold (elems_size l).
  destruct l as [|y l].
  - cbn [map join elems_size fold_right]. lia.
  - cbn [map]. rewrite join_cons2, !length_append. cbn [map] in IH.
    simpl String.length at 2. lia.
Qed.

Lemma length_quote (s : string) : (2 <= String.length (quote s))%nat.
Proof. unfold quote. simpl. rewrite length_append. simpl. lia. Qed.

Lemma props_size_le (props : list (string * value)) :
  Forall (fun kv => (vsize (snd kv) <= String.length (elem_text (snd kv)))%nat) props ->
  (props_size props <= String.length (join "," (entry_texts props)) + 1)%nat.
Proof.
  induction props as [|[k v] props IH]; intros H; [simpl; lia|].
  inversion H as [|x' l' Hx Hl]; subst. specialize (IH Hl). cbn [snd] in Hx.
  destruct (value_eq_undefined v) as [-> | Hdef].
  - exact IH.
  - assert (Hsz : props_size ((k, v) :: props) = S (vsize v + props_size props)).
    { cbn [props_size fold_right snd]. fold (props_size props).
      destruct v; try reflexivity. congruence. }
    assert (Et : entry_texts ((k, v) :: props)
                 = (quote k ++ ":" ++ elem_text v) :: entry_texts props).
    { unfold entry_texts. cbn [flat_map fst snd]. rewrite (JSON_stringify_defined v Hdef).
      reflexivity. }
    rewrite Hsz, Et. pose proof (length_quote k) as Q.
    destruct (entry_texts props) as [|e es].
    + cbn [join] in *. rewrite !length_append. simpl String.length at 2.
      simpl in IH. lia.
    + rewrite join_cons2, !length_append. simpl String.length at 2.
      simpl String.length at 3. lia.
Qed.

Lemma vsize_le_length (v : value) :
  wf_value v -> (vsize v <= String.length (elem_text v))%nat.
Proof.
  induction v as [| | b | n | s | l IHl | props IHp] using value_ind'; intros W.
  - simpl. lia.
  - simpl. lia.
  - destruct b; simpl; lia.
  - inversion W as [| | | n' Wn | | |]; subst.
    destruct (number_to_string_start n Wn) as (c & t & E & _).
    unfold elem_text. cbn [JSON_stringify vsize]. rewrite E. simpl. lia.
  - unfold elem_text. cbn [JSON_stringify vsize]. pose proof (length_quote s). lia.
  - inversion W as [| | | | | l' Wl |]; subst.
    assert (HF : Forall (fun x => (vsize x <= String.length (elem_text x))%nat) l).
    { rewrite Forall_forall in *. intros x Hx. apply IHl; [exact Hx | now apply Wl]. }
    pose proof (elems_size_le l HF) as L.
    cbn [vsize]. fold (elems_size l). unfold elem_text. cbn [JSON_stringify].
    change (map (fun x => match JSON_stringify x with Some t => t | None => "null" end) l)
      with (map elem_text l).
    rewrite !length_append. simpl String.length at 1. simpl String.length at 2. lia.
  - inversion W as [| | | | | | props' Wk Wp]; subst.
    assert (HF : Forall (fun kv => (vsize (snd kv) <= String.length (elem_text (snd kv)))%nat) props).
    { rewrite Forall_forall in *. intros x Hx. apply IHp; [exact Hx | now apply Wp]. }
    pose proof (props_size_le props HF) as L.
    cbn [vsize]. fold (props_size props). unfold elem_text. cbn [JSON_stringify].
    fold (entry_texts props).
    rewrite !length_append. simpl String.length at 1. simpl String.length at 2. lia.
Qed.

Theorem JSON_parse_printed (v : value) :
  wf_value v -> JSON_parse (elem_text v) = Some (json_image v).
Proof.
  intros W. unfold JSON_parse.
  pose proof (reparses_all v W "" (2 * String.length (elem_text v) + 2)%nat eq_refl) as P.
  rewrite append_empty_r in P. rewrite P by (pose proof (vsize_le_length v W); lia).
  reflexivity.
Qed.

Theorem normalize_image (v : value) :
  wf_value v -> v <> VUndefined -> normalize v = Some (json_image v).
Proof.
  intros W D. unfold normalize. rewrite (JSON_stringify_defined v D).
  now apply JSON_parse_printed.
Qed.

Lemma json_image_defined (v : value) : json_image v <> VUndefined.
Proof. destruct v; discriminate. Qed.

Lemma image_props_keys_in (props : list (string * value)) (k : string) (x : value) :
  In (k, x) (image_props props) ->
  exists v, In (k, v) props /\ v <> VUndefined /\ x = json_image v.
Proof.
  induction props as [|[k' v] props IH]; [intros []|].
  unfold image_props. cbn [flat_map fst snd]. fold (image_props props).
  intros H. apply in_app_or in H as [H|H].
  - exists v. destruct v; cbn in H; try contradiction; destruct H as [H|[]];
      injection H as <- <-; (split; [now left | split; [discriminate | reflexivity]]).
  - destruct (IH H) as (v0 & I & D & E). exists v0. split; [now right | auto].
Qed.

Lemma wf_json_image (v : value) : wf_value v -> wf_value (json_image v).
Proof.
  induction v as [| | b | n | s | l IHl | props IHp] using value_ind'; intros W;
    cbn [json_image]; try exact W; try constructor.
  - inversion W as [| | | | | l' Wl |]; subst. rewrite Forall_forall in *.
    intros x Hx. apply in_map_iff in Hx as (y & <- & Hy). apply IHl; auto.
  - inversion W as [| | | | | | props' Wk Wp]; subst.
    now apply NoDup_keys_image_props.
  - inversion W as [| | | | | | props' Wk Wp]; subst. fold (image_props props).
    rewrite Forall_forall in *. intros [k x] Hx.
    apply image_props_keys_in in Hx as (v & I & D & ->). cbn [snd].
    apply (IHp (k, v) I). exact (Wp (k, v) I).
Qed.

Lemma image_props_defined (props : list (string * value)) :
  Forall (fun kv => snd kv <> VUndefined) props ->
  image_props props = map (fun kv => (fst kv, json_image (snd kv))) props.
Proof.
  induction props as [|[k v] props IH]; intros H; [reflexivity|].
  inversion H as [|x l Hx Hl]; subst. cbn [snd] in Hx.
  unfold image_props. cbn [flat_map map fst snd]. fold (image_props props).
  rewrite (IH Hl). destruct v; try reflexivity. congruence.
Qed.

Lemma json_image_idempotent (v : value) : json_image (json_image v) = json_image v.
Proof.
  induction v as [| | b | n | s | l IHl | props IHp] using value_ind'; cbn [json_image];
    try reflexivity.
  - f_equal. rewrite map_map. apply map_ext_in. intros x Hx.
    rewrite Forall_forall in IHl. now apply IHl.
  - f_equal. fold (image_props props). fold (image_props (image_props props)).
    rewrite (image_props_defined (image_props props)).
    + induction props as [|[k v] props IH]; [reflexivity|].
      inversion IHp as [|x l Hx Hl]; subst. cbn [snd] in Hx.
      unfold image_props. cbn [flat_map fst snd]. fold (image_props props).
      rewrite map_app, (IH Hl).
      destruct v; cbn [map app fst snd]; try reflexivity; now rewrite Hx.
    + rewrite Forall_forall. intros [k x] Hx.
      apply image_props_keys_in in Hx as (v & _ & _ & ->). apply json_image_defined.
Qed.

Theorem normalize_idempotent (v w : value) :
  wf_value v -> normalize v = Some w -> normalize w = Some w.
Proof.
  intros W H. destruct (value_eq_undefined v) as [-> | D]; [discriminate H|].
  rewrite (normalize_image v W D) in H. injection H as <-.
  rewrite normalize_image; [now rewrite json_image_idempotent | now apply wf_json_image
                            | apply json_image_defined].
Qed.

(** * The order of keys *)

Lemma string_leb_trans (a b c : string) :
  String.leb a b = true -> String.leb b c = true -> String.leb a c = true.
Proof.
  unfold String.leb. revert b c.
  induction a as [|x a IH]; intros [|y b] [|z c]; simpl; try congruence; auto.
  unfold Ascii.compare.
  destruct (N.compare_spec (N_of_ascii x) (N_of_ascii y)) as [E1|L1|G1];
    destruct (N.compare_spec (N_of_ascii y) (N_of_ascii z)) as [E2|L2|G2];
    destruct (N.compare_spec (N_of_ascii x) (N_of_ascii z)) as [E3|L3|G3];
    try congruence; try lia; auto.
  apply IH.
Qed.

Lemma insert_key_perm (k : string) (l : list string) : Permutation (insert_key k l) (k :: l).
Proof.
  induction l as [|x l IH]; simpl; [reflexivity|].
  destruct (String.leb k x); [reflexivity|].
  rewrite IH. apply perm_swap.
Qed.

Lemma sort_keys_perm (l : list string) : Permutation (sort_keys l) l.
Proof.
  induction l as [|x l IH]; simpl; [reflexivity|].
  rewrite insert_key_perm. now constructor.
Qed.

Lemma insert_key_sorted (k : string) (l : list string) :
  StronglySorted key_le l -> StronglySorted key_le (insert_key k l).
Proof.
  induction l as [|x l IH]; intros S; simpl.
  - repeat constructor.
  - inversion S as [|x' l' Sl Hx]; subst.
    destruct (String.leb k x) eqn:E.
    + constructor; [exact S|]. constructor; [exact E|].
      rewrite Forall_forall in *. intros y Hy. eapply string_leb_trans; [exact E | now apply Hx].
    + constructor; [now apply IH|].
      rewrite Forall_forall in *. intros y Hy.
      apply (Permutation_in _ (insert_key_perm k l)) in Hy. destruct Hy as [<-|Hy].
      * destruct (String.leb_total k x) as [T|T]; [congruence | exact T].
      * now apply Hx.
Qed.

Lemma sort_keys_sorted (l : list string) : StronglySorted key_le (sort_keys l).
Proof.
  induction l as [|x l IH]; simpl; [constructor | now apply insert_key_sorted].
Qed.

Lemma sorted_perm_unique (l1 l2 : list string) :
  StronglySorted key_le l1 -> StronglySorted key_le l2 -> Permutation l1 l2 -> l1 = l2.
Proof.
  revert l2. induction l1 as [|a l1 IH]; intros l2 S1 S2 P.
  - apply Permutation_nil in P. now subst.
  - destruct l2 as [|b l2]; [apply Permutation_sym, Permutation_nil in P; discriminate|].
    inversion S1 as [|a' l1' S1' H1]; inversion S2 as [|b' l2' S2' H2]; subst.
    assert (E : a = b).
    { rewrite Forall_forall in H1, H2.
      assert (Iab : In b (a :: l1)) by (eapply Permutation_in; [symmetry; exact P | now left]).
      assert (Iba : In a (b :: l2)) by (eapply Permutation_in; [exact P | now left]).
      destruct Iab as [E|Iab]; [exact E|]. destruct Iba as [E|Iba]; [now symmetry|].
      apply String.leb_antisym; [now apply H1 | now apply H2]. }
    subst b. f_equal. apply IH; try assumption. eapply Permutation_cons_inv; exact P.
Qed.

Lemma sort_keys_same (l1 l2 : list string) :
  NoDup l1 -> NoDup l2 -> (forall k, In k l1 <-> In k l2) -> sort_keys l1 = sort_keys l2.
Proof.
  intros N1 N2 H. apply sorted_perm_unique; try apply sort_keys_sorted.
  rewrite !sort_keys_perm. now apply NoDup_Permutation.
Qed.

(** * Objects as key-to-value maps *)

Lemma lookup_enc_map (f : value -> string) (props : list (string * value)) (k : string) :
  In k (keys props) ->
  lookup_enc (map (fun kv => (fst kv, f (snd kv))) props) k = f (get_prop props k).
Proof.
  induction props as [|[k' v] props IH]; [intros []|].
  cbn [keys map fst snd In lookup_enc get_prop]. intros H.
  destruct (String.eqb_spec k' k) as [->|N]; [reflexivity|].
  destruct H as [H|H]; [contradiction|]. now apply IH.
Qed.

Lemma get_prop_in (props : list (string * value)) (k : string) :
  In k (keys props) -> In (k, get_prop props k) props.
Proof.
  induction props as [|[k' v] props IH]; [intros []|].
  cbn [keys map fst In get_prop]. intros H.
  destruct (String.eqb_spec k' k) as [->|N]; [now left|].
  destruct H as [H|H]; [contradiction|]. right. now apply IH.
Qed.

(** The encoding of an object, written as the source writes it. *)
Lemma deterministicStringify_object (props : list (string * value)) :
  deterministicStringify (VObj props)
  = Some ("{" ++ join ","
            (map (fun k => quote k ++ ":"
                             ++ template (deterministicStringify (get_prop props k)))
                 (sort_keys (keys props))) ++ "}").
Proof.
  cbn [deterministicStringify]. do 4 f_equal.
  apply map_ext_in. intros k Hk. f_equal. f_equal.
  apply (lookup_enc_map (fun v => template (deterministicStringify v))).
  eapply Permutation_in; [apply sort_keys_perm | exact Hk].
Qed.

Lemma deterministicStringify_array (l : list value) :
  deterministicStringify (VArr l)
  = Some ("[" ++ join "," (map (fun x => join_item (deterministicStringify x)) l) ++ "]").
Proof. reflexivity. Qed.

Lemma deterministicStringify_same (v1 : value) :
  forall v2, wf_value v1 -> wf_value v2 -> same_value v1 v2 ->
    deterministicStringify v1 = deterministicStringify v2.
Proof.
  induction v1 as [| | b | n | s | l IHl | props IHp] using value_ind';
    intros v2 W1 W2 S; inversion S; subst; try reflexivity.
  - (* arrays *)
    rewrite !deterministicStringify_array. do 4 f_equal.
    inversion W1 as [| | | | | l' Wl1 |]; inversion W2 as [| | | | | l'' Wl2 |]; subst.
    match goal with H : Forall2 same_value _ _ |- _ => rename H into F end.
    clear S W1 W2. induction F as [|x y l l2 Hxy F IHF]; [reflexivity|].
    inversion IHl; inversion Wl1; inversion Wl2; subst.
    cbn [map]. f_equal; [|now apply IHF]. f_equal. auto.
  - (* objects *)
    rewrite !deterministicStringify_object.
    inversion W1 as [| | | | | | p1' N1 F1]; inversion W2 as [| | | | | | p2' N2 F2]; subst.
    match goal with H : forall k, In k (keys props) <-> _ |- _ => rename H into K end.
    match goal with H : forall k, In k (keys props) -> same_value _ _ |- _ => rename H into V end.
    rewrite <- (sort_keys_same (keys props) (keys p2) N1 N2 K).
    do 4 f_equal. apply map_ext_in. intros k Hk.
    apply (Permutation_in _ (sort_keys_perm _)) in Hk.
    do 3 f_equal.
    pose proof (get_prop_in props k Hk) as I1.
    pose proof (get_prop_in p2 k (proj1 (K k) Hk)) as I2.
    rewrite Forall_forall in IHp, F1, F2.
    apply (IHp _ I1); [exact (F1 _ I1) | exact (F2 _ I2) | now apply V].
Qed.

(** * Verification of the ledger *)

Lemma insert_asc_perm (b : DocumentBlock) (l : list DocumentBlock) :
  Permutation (insert_asc b l) (b :: l).
Proof.
  induction l as [|x l IH]; simpl; [reflexivity|].
  destruct (created_at b <=? created_at x)%Z; [reflexivity|].
  rewrite IH. apply perm_swap.
Qed.

Lemma order_asc_perm (l : list DocumentBlock) : Permutation (order_asc l) l.
Proof.
  induction l as [|x l IH]; simpl; [reflexivity|].
  rewrite insert_asc_perm. now constructor.
Qed.

Lemma insert_asc_sorted (b : DocumentBlock) (l : list DocumentBlock) :
  chronological l -> chronological (insert_asc b l).
Proof.
  unfold chronological. induction l as [|x l IH]; intros S; simpl.
  - repeat constructor.
  - inversion S as [|x' l' Sl Hx]; subst.
    destruct (Z.leb_spec (created_at b) (created_at x)) as [E|E].
    + constructor; [exact S|]. constructor; [exact E|].
      rewrite Forall_forall in *. intros y Hy. specialize (Hx y Hy). lia.
    + constructor; [now apply IH|].
      rewrite Forall_forall in *. intros y Hy.
      apply (Permutation_in _ (insert_asc_perm b l)) in Hy. destruct Hy as [<-|Hy].
      * lia.
      * now apply Hx.
Qed.

Lemma order_asc_sorted (l : list DocumentBlock) : chronological (order_asc l).
Proof.
  induction l as [|x l IH]; simpl; [constructor | now apply insert_asc_sorted].
Qed.

Lemma calculatedHash_ok (b : DocumentBlock) :
  json_column (metadata b) -> calculatedHash b = Ok (recomputed_hash b).
Proof.
  intros [W D]. unfold calculatedHash. rewrite (normalize_image _ W D). reflexivity.
Qed.

Lemma verify_iteration_spec (blocks : list DocumentBlock) (i : nat) (block : DocumentBlock)
    (errs : list string) :
  json_column (metadata block) ->
  verify_iteration blocks i block errs = Ok (errs ++ problems_of blocks block i)%list.
Proof.
  intros J. unfold verify_iteration. rewrite (calculatedHash_ok block J).
  cbn [bind]. unfold problems_of, hash_problem, link_problem. f_equal.
  destruct (recomputed_hash block =? hash block)%string; cbn [negb];
    destruct i as [|j]; cbn [Nat.ltb Nat.leb Nat.sub];
    rewrite ?Nat.sub_0_r;
    repeat match goal with
      | |- context [match nth_error ?l ?j with _ => _ end] => destruct (nth_error l j)
      | |- context [differs ?a ?b] => destruct (differs a b) eqn:?
      | |- context [match previous_hash ?b with _ => _ end] => destruct (previous_hash b)
      end;
    cbn [app]; rewrite ?app_nil_r, <- ?app_assoc; try reflexivity; try discriminate.
Qed.

Lemma nth_error_skipn {A : Type} (l : list A) (i : nat) (x : A) :
  nth_error l i = Some x -> skipn i l = x :: skipn (S i) l.
Proof.
  revert i. induction l as [|y l IH]; intros [|i]; simpl; try discriminate.
  - now intros [= ->].
  - intros H. now rewrite (IH i H).
Qed.

Lemma verify_loop_spec (blocks : list DocumentBlock) :
  Forall (fun b => json_column (metadata b)) blocks ->
  forall n i errs, (i + n = List.length blocks)%nat ->
    verify_loop blocks n i errs
    = Ok (errs ++ List.concat (map_indexed (problems_of blocks) (skipn i blocks) i))%list.
Proof.
  intros F. induction n as [|n IH]; intros i errs H.
  - rewrite skipn_all2 by lia. cbn. now rewrite app_nil_r.
  - cbn [verify_loop].
    destruct (nth_error blocks i) as [block|] eqn:E;
      [| apply nth_error_None in E; lia].
    rewrite (nth_error_skipn _ _ _ E). cbn [map_indexed List.concat].
    rewrite verify_iteration_spec
      by (rewrite Forall_forall in F; apply F; eapply nth_error_In; exact E).
    cbn [bind]. rewrite IH by lia. now rewrite <- app_assoc.
Qed.

Lemma verifyBlockchain_spec (st : Store) :
  store_wf st ->
  verifyBlockchain st
  = Ok {| valid := match all_problems (findAll_asc st) with [] => true | _ => false end;
          errors := all_problems (findAll_asc st) |}.
Proof.
  intros W. unfold verifyBlockchain.
  assert (F : Forall (fun b => json_column (metadata b)) (findAll_asc st)).
  { unfold store_wf in W. rewrite Forall_forall in *. intros b Hb. apply W.
    eapply Permutation_in; [apply order_asc_perm | exact Hb]. }
  rewrite (verify_loop_spec _ F) by reflexivity. cbn [bind skipn app].
  fold (all_problems (findAll_asc st)).
  destruct (all_problems (findAll_asc st)); reflexivity.
Qed.

(** * Appending *)

Lemma insert_desc_perm (b : DocumentBlock) (l : list DocumentBlock) :
  Permutation (insert_desc b l) (b :: l).
Proof.
  induction l as [|x l IH]; simpl; [reflexivity|].
  destruct (created_at x <=? created_at b)%Z; [reflexivity|].
  rewrite IH. apply perm_swap.
Qed.

Lemma order_desc_perm (l : list DocumentBlock) : Permutation (order_desc l) l.
Proof.
  induction l as [|x l IH]; simpl; [reflexivity|].
  rewrite insert_desc_perm. now constructor.
Qed.

Lemma insert_desc_sorted (b : DocumentBlock) (l : list DocumentBlock) :
  antichronological l -> antichronological (insert_desc b l).
Proof.
  unfold antichronological. induction l as [|x l IH]; intros S; simpl.
  - repeat constructor.
  - inversion S as [|x' l' Sl Hx]; subst.
    destruct (Z.leb_spec (created_at x) (created_at b)) as [E|E].
    + constructor; [exact S|]. constructor; [exact E|].
      rewrite Forall_forall in *. intros y Hy. specialize (Hx y Hy). lia.
    + constructor; [now apply IH|].
      rewrite Forall_forall in *. intros y Hy.
      apply (Permutation_in _ (insert_desc_perm b l)) in Hy. destruct Hy as [<-|Hy].
      * lia.
      * now apply Hx.
Qed.

Lemma order_desc_sorted (l : list DocumentBlock) : antichronological (order_desc l).
Proof.
  induction l as [|x l IH]; simpl; [constructor | now apply insert_desc_sorted].
Qed.

Lemma findOne_latest_none (st : Store) : findOne_latest st = None <-> rows st = [].
Proof.
  unfold findOne_latest. split; intros H.
  - destruct (order_desc (rows st)) eqn:E; [|discriminate].
    pose proof (order_desc_perm (rows st)) as P. rewrite E in P.
    now apply Permutation_nil in P.
  - now rewrite H.
Qed.

Lemma findOne_latest_some (st : Store) (p : DocumentBlock) :
  findOne_latest st = Some p ->
  In p (rows st) /\ forall x, In x (rows st) -> (created_at x <= created_at p)%Z.
Proof.
  unfold findOne_latest. intros H.
  pose proof (order_desc_perm (rows st)) as P.
  pose proof (order_desc_sorted (rows st)) as S.
  destruct (order_desc (rows st)) as [|q l] eqn:E; [discriminate|].
  injection H as ->. split.
  - eapply Permutation_in; [exact P | now left].
  - intros x Hx. apply (Permutation_in _ (Permutation_sym P)) in Hx.
    inversion S as [|q' l' _ Hq]; subst. destruct Hx as [<-|Hx]; [lia|].
    rewrite Forall_forall in Hq. now apply Hq.
Qed.

Lemma hash_of_data_blockData (d : string) (p : option string) (c sd : string) (nm : value)
    (ts : string) :
  hash_of_data (blockData d p c sd nm ts)
  = Ok (calculateHash (template (deterministicStringify (blockData d p c sd nm ts)))).
Proof. reflexivity. Qed.

(** What a successful [createBlock] did. *)
Lemma createBlock_inv (st st' : Store) (clock insert_clock : Date)
    (documentId contentHash signatureData : string) (m : value) (b : DocumentBlock) :
  createBlock st clock insert_clock documentId contentHash signatureData m = Ok (st', b) ->
  exists nm,
    normalize m = Some nm /\
    b = {| id := next_id st;
           document_id := documentId;
           previous_hash := option_map hash (findOne_latest st);
           hash := calculateHash (template (deterministicStringify
                     (blockData documentId (option_map hash (findOne_latest st))
                        contentHash signatureData nm (toISOString clock))));
           content_hash := contentHash;
           signature_data := signatureData;
           metadata := nm;
           created_at := insert_clock |} /\
    st' = {| rows := (rows st ++ [b])%list; next_id := next_id st + 1 |} /\
    forallb (fun x => negb ((document_id x =? documentId)%string
                            || (hash x =? hash b)%string)) (rows st) = true.
Proof.
  unfold createBlock.
  destruct (normalize m) as [nm|] eqn:N; cbn [or_throw bind]; [|discriminate].
  rewrite hash_of_data_blockData. cbn [bind].
  unfold DocumentBlock_create. rewrite N. cbn [or_throw bind].
  match goal with |- context [existsb ?f ?l] => destruct (existsb f l) eqn:E end;
    [discriminate|].
  intros H. injection H as <- <-. exists nm. repeat split.
  rewrite forallb_forall. intros x Hx. cbn [hash].
  apply negb_true_iff. destruct (_ || _) eqn:O; [|reflexivity].
  exfalso. rewrite <- not_true_iff_false in E. apply E.
  apply existsb_exists. exists x. split; [exact Hx | exact O].
Qed.

(** C4: after a successful append the ledger is the old one followed by the
    new block; the new block's [previous_hash] is null when the ledger was
    empty, and otherwise the hash of the block with the latest [created_at],
    the one [findOne] returns. *)
Theorem createBlock_links_to_latest (st st' : Store) (clock insert_clock : Date)
    (documentId contentHash signatureData : string) (m : value) (b : DocumentBlock) :
  createBlock st clock insert_clock documentId contentHash signatureData m = Ok (st', b) ->
  rows st' = (rows st ++ [b])%list /\
  (rows st = [] -> previous_hash b = None) /\
  (rows st <> [] ->
   exists last, In last (rows st)
     /\ (forall x, In x (rows st) -> (created_at x <= created_at last)%Z)
     /\ findOne_latest st = Some last
     /\ previous_hash b = Some (hash last)).
Proof.
  intros H. apply createBlock_inv in H as (nm & _ & -> & -> & _). cbn [rows previous_hash].
  split; [reflexivity|]. split.
  - intros E. apply findOne_latest_none in E. now rewrite E.
  - intros NE. destruct (findOne_latest st) as [last|] eqn:L.
    + exists last. destruct (findOne_latest_some st last L) as [I M]. repeat split; auto.
    + apply findOne_latest_none in L. contradiction.
Qed.

(** * Instants are told apart by their ISO text *)

Lemma doy_of_range (doe : Z) :
  (0 <= doe <= 146096 -> 0 <= yoe_of doe <= 399 /\ 0 <= doy_of doe <= 365)%Z.
Proof. intros H. unfold doy_of, yoe_of. Z.div_mod_to_equations. lia. Qed.

Lemma mp_of_range (doy : Z) : (0 <= doy <= 365 -> 0 <= mp_of doy <= 11)%Z.
Proof. intros H. unfold mp_of. Z.div_mod_to_equations. lia. Qed.

Lemma month_of_inj (a b : Z) :
  (0 <= a <= 11 -> 0 <= b <= 11 -> month_of a = month_of b -> a = b)%Z.
Proof.
  unfold month_of. intros Ha Hb.
  destruct (Z.ltb_spec a 10); destruct (Z.ltb_spec b 10); lia.
Qed.

Lemma month_of_range (a : Z) : (0 <= a <= 11 -> 1 <= month_of a <= 12)%Z.
Proof. unfold month_of. intros Ha. destruct (Z.ltb_spec a 10); lia. Qed.

Lemma day_of_range (doy : Z) : (0 <= doy <= 365 -> 1 <= day_of doy <= 31)%Z.
Proof. intros H. unfold day_of, mp_of. Z.div_mod_to_equations. lia. Qed.

Lemma civil_from_days_eq (z : Z) :
  civil_from_days z
  = let doe := ((z + 719468) mod 146097)%Z in
    ((yoe_of doe + (z + 719468) / 146097 * 400
       + (if month_of (mp_of (doy_of doe)) <=? 2 then 1 else 0))%Z,
     month_of (mp_of (doy_of doe)), day_of (doy_of doe)).
Proof. reflexivity. Qed.

Lemma civil_from_days_range (z y m d : Z) :
  civil_from_days z = (y, m, d) -> (1 <= m <= 12 /\ 1 <= d <= 31)%Z.
Proof.
  rewrite civil_from_days_eq. cbv zeta.
  pose proof (Z.mod_pos_bound (z + 719468) 146097 ltac:(lia)) as B.
  destruct (doy_of_range ((z + 719468) mod 146097) ltac:(lia)) as (_ & R).
  intros H. injection H as _ <- <-.
  split; [apply month_of_range, mp_of_range, R | apply day_of_range, R].
Qed.

Lemma civil_from_days_inj (z1 z2 : Z) :
  civil_from_days z1 = civil_from_days z2 -> z1 = z2.
Proof.
  rewrite !civil_from_days_eq. cbv zeta.
  pose proof (Z.mod_pos_bound (z1 + 719468) 146097 ltac:(lia)) as B1.
  pose proof (Z.mod_pos_bound (z2 + 719468) 146097 ltac:(lia)) as B2.
  pose proof (Z.div_mod (z1 + 719468) 146097 ltac:(lia)) as D1.
  pose proof (Z.div_mod (z2 + 719468) 146097 ltac:(lia)) as D2.
  set (doe1 := ((z1 + 719468) mod 146097)%Z) in *.
  set (doe2 := ((z2 + 719468) mod 146097)%Z) in *.
  set (era1 := ((z1 + 719468) / 146097)%Z) in *.
  set (era2 := ((z2 + 719468) / 146097)%Z) in *.
  destruct (doy_of_range doe1 ltac:(lia)) as (Y1 & R1).
  destruct (doy_of_range doe2 ltac:(lia)) as (Y2 & R2).
  pose proof (mp_of_range _ R1) as M1. pose proof (mp_of_range _ R2) as M2.
  intros H. injection H as Hy Hm Hd.
  rewrite Hm in Hy.
  apply month_of_inj in Hm; [|assumption..].
  assert (Ey : yoe_of doe1 = yoe_of doe2 /\ era1 = era2) by lia.
  destruct Ey as (Ey & Ee).
  assert (Ed : doy_of doe1 = doy_of doe2).
  { unfold day_of in Hd. rewrite Hm in Hd. lia. }
  assert (E : doe1 = doe2).
  { unfold doy_of in Ed. rewrite Ey in Ed. lia. }
  lia.
Qed.

(** The time of day is told by its hour, minute, second and millisecond. *)
Lemma time_of_day_inj (r1 r2 : Z) :
  (0 <= r1 < 86400000 -> 0 <= r2 < 86400000 ->
   r1 / 3600000 = r2 / 3600000 -> r1 / 60000 mod 60 = r2 / 60000 mod 60 ->
   r1 / 1000 mod 60 = r2 / 1000 mod 60 -> r1 mod 1000 = r2 mod 1000 -> r1 = r2)%Z.
Proof. intros. Z.div_mod_to_equations. lia. Qed.

(** ** Padded numbers *)

Lemma N_of_string_zero (s : string) : N_of_string (String "0" s) = N_of_string s.
Proof.
  unfold N_of_string. cbn [NilEmpty.uint_of_string].
  destruct (NilEmpty.uint_of_string s); reflexivity.
Qed.

Lemma N_of_string_zeros (k : nat) (s : string) : N_of_string (zeros k ++ s) = N_of_string s.
Proof.
  induction k as [|k IH]; [reflexivity|]. cbn [zeros append]. now rewrite N_of_string_zero.
Qed.

Lemma N_of_string_pad_num (w : nat) (n : Z) : N_of_string (pad_num w n) = Z.to_N n.
Proof. unfold pad_num. cbv zeta. now rewrite N_of_string_zeros, N_of_string_of_N. Qed.

Lemma pad_num_inj (w : nat) (a b : Z) :
  (0 <= a)%Z -> (0 <= b)%Z -> pad_num w a = pad_num w b -> a = b.
Proof.
  intros Ha Hb H. apply (f_equal N_of_string) in H. rewrite !N_of_string_pad_num in H. lia.
Qed.

Lemma all_digits_pad_num (w : nat) (n : Z) : all_digits (pad_num w n) = true.
Proof.
  unfold pad_num. cbv zeta.
  now rewrite all_digits_app, all_digits_zeros, all_digits_string_of_N.
Qed.

Lemma pad_num_nonempty (w : nat) (n : Z) : pad_num w n <> "".
Proof.
  unfold pad_num. cbv zeta. intros H. apply (string_of_N_nonempty (Z.to_N n)).
  destruct (zeros _); [exact H | discriminate H].
Qed.

Lemma length_pad_num_2 (n : Z) : (0 <= n < 100)%Z -> String.length (pad_num 2 n) = 2%nat.
Proof.
  intros H.
  assert (A : forallb (fun k => Nat.eqb (String.length (pad_num 2 (Z.of_nat k))) 2)
                      (seq 0 100) = true) by (vm_compute; reflexivity).
  rewrite forallb_forall in A. specialize (A (Z.to_nat n)).
  rewrite Z2Nat.id in A by lia. apply Nat.eqb_eq, A, in_seq. lia.
Qed.

Lemma length_pad_num_3 (n : Z) : (0 <= n < 1000)%Z -> String.length (pad_num 3 n) = 3%nat.
Proof.
  intros H.
  assert (A : forallb (fun k => Nat.eqb (String.length (pad_num 3 (Z.of_nat k))) 3)
                      (seq 0 1000) = true) by (vm_compute; reflexivity).
  rewrite forallb_forall in A. specialize (A (Z.to_nat n)).
  rewrite Z2Nat.id in A by lia. apply Nat.eqb_eq, A, in_seq. lia.
Qed.

(** ** Texts cut at a known length *)

Lemma append_inv_length (a b c d : string) :
  String.length a = String.length c -> a ++ b = c ++ d -> a = c /\ b = d.
Proof.
  revert c. induction a as [|x a IH]; intros [|y c] L H; try discriminate L.
  - split; [reflexivity | exact H].
  - cbn [append] in H. injection H as -> H. injection L as L.
    destruct (IH c L H) as (-> & ->). split; reflexivity.
Qed.

Lemma append_inv_length_r (a b c d : string) :
  String.length b = String.length d -> a ++ b = c ++ d -> a = c /\ b = d.
Proof.
  intros L H. apply append_inv_length; [|exact H].
  apply (f_equal String.length) in H. rewrite !length_append in H. lia.
Qed.

Lemma length_after_year (m d h mi s ms : Z) :
  (0 <= m < 100)%Z -> (0 <= d < 100)%Z -> (0 <= h < 100)%Z -> (0 <= mi < 100)%Z ->
  (0 <= s < 100)%Z -> (0 <= ms < 1000)%Z ->
  String.length (after_year m d h mi s ms) = 20%nat.
Proof.
  intros Hm Hd Hh Hmi Hs Hms. unfold after_year.
  rewrite !length_append, !length_pad_num_2, length_pad_num_3 by assumption. reflexivity.
Qed.

Lemma after_year_inj (m d h mi s ms m' d' h' mi' s' ms' : Z) :
  (0 <= m < 100)%Z -> (0 <= d < 100)%Z -> (0 <= h < 100)%Z -> (0 <= mi < 100)%Z ->
  (0 <= s < 100)%Z -> (0 <= ms < 1000)%Z ->
  (0 <= m' < 100)%Z -> (0 <= d' < 100)%Z -> (0 <= h' < 100)%Z -> (0 <= mi' < 100)%Z ->
  (0 <= s' < 100)%Z -> (0 <= ms' < 1000)%Z ->
  after_year m d h mi s ms = after_year m' d' h' mi' s' ms' ->
  m = m' /\ d = d' /\ h = h' /\ mi = mi' /\ s = s' /\ ms = ms'.
Proof.
  intros Hm Hd Hh Hmi Hs Hms Hm' Hd' Hh' Hmi' Hs' Hms' H. unfold after_year in H.
  repeat match type of H with
         | String ?c _ = String ?c _ => injection H as H
         | pad_num 2 ?x ++ _ = pad_num 2 ?y ++ _ =>
             let E := fresh "E" in
             apply append_inv_length in H as (E & H);
             [apply pad_num_inj in E; [|lia..] | now rewrite !length_pad_num_2]
         | pad_num 3 ?x ++ _ = pad_num 3 ?y ++ _ =>
             let E := fresh "E" in
             apply append_inv_length in H as (E & H);
             [apply pad_num_inj in E; [|lia..] | now rewrite !length_pad_num_3]
         | _ => progress cbn [append] in H
         end.
  repeat split; assumption.
Qed.

(** ** The year *)

Lemma pad_num_first_digit (w : nat) (n : Z) (c : ascii) (r : string) :
  pad_num w n = String c r -> is_digit c = true.
Proof.
  intros H. pose proof (all_digits_pad_num w n) as A. rewrite H in A.
  cbn [all_digits] in A. now apply andb_prop in A as (A & _).
Qed.

Lemma iso_year_inj (y1 y2 : Z) : iso_year y1 = iso_year y2 -> y1 = y2.
Proof.
  unfold iso_year.
  destruct (Z.leb_spec 0 y1) as [A1|A1], (Z.leb_spec y1 9999) as [B1|B1],
           (Z.ltb_spec y1 0) as [C1|C1];
    destruct (Z.leb_spec 0 y2) as [A2|A2], (Z.leb_spec y2 9999) as [B2|B2],
             (Z.ltb_spec y2 0) as [C2|C2];
    cbn [andb]; try lia; intros E;
    first
      [ apply pad_num_inj in E; lia
      | cbn [append] in E; injection E as E; apply pad_num_inj in E; lia
      | cbn [append] in E; discriminate E
      | cbn [append] in E; apply pad_num_first_digit in E; discriminate E
      | cbn [append] in E; symmetry in E; apply pad_num_first_digit in E; discriminate E ].
Qed.

Lemma toISOString_eq (t : Date) :
  toISOString t
  = let '(y, m, d) := civil_from_days (t / ms_per_day) in
    let r := (t mod ms_per_day)%Z in
    iso_year y ++ after_year m d (r / 3600000) (r / 60000 mod 60) (r / 1000 mod 60)
                             (r mod 1000).
Proof. unfold toISOString. destruct (civil_from_days _) as [[y m] d]. reflexivity. Qed.

(** Two instants with one ISO text are one instant. *)
Lemma toISOString_inj (t1 t2 : Date) : toISOString t1 = toISOString t2 -> t1 = t2.
Proof.
  rewrite !toISOString_eq. unfold ms_per_day.
  destruct (civil_from_days (t1 / 86400000)) as [[y1 m1] d1] eqn:C1.
  destruct (civil_from_days (t2 / 86400000)) as [[y2 m2] d2] eqn:C2.
  cbv zeta.
  destruct (civil_from_days_range _ _ _ _ C1) as (Hm1 & Hd1).
  destruct (civil_from_days_range _ _ _ _ C2) as (Hm2 & Hd2).
  pose proof (Z.mod_pos_bound t1 86400000 ltac:(lia)) as B1.
  pose proof (Z.mod_pos_bound t2 86400000 ltac:(lia)) as B2.
  set (r1 := (t1 mod 86400000)%Z) in *. set (r2 := (t2 mod 86400000)%Z) in *.
  assert (R1 : (0 <= r1 / 3600000 < 100 /\ 0 <= r1 / 60000 mod 60 < 100 /\
                0 <= r1 / 1000 mod 60 < 100 /\ 0 <= r1 mod 1000 < 1000)%Z)
    by (Z.div_mod_to_equations; lia).
  assert (R2 : (0 <= r2 / 3600000 < 100 /\ 0 <= r2 / 60000 mod 60 < 100 /\
                0 <= r2 / 1000 mod 60 < 100 /\ 0 <= r2 mod 1000 < 1000)%Z)
    by (Z.div_mod_to_equations; lia).
  destruct R1 as (Rh1 & Rm1 & Rs1 & Rms1). destruct R2 as (Rh2 & Rm2 & Rs2 & Rms2).
  intros H. apply append_inv_length_r in H as (Hy & Ha);
    [|rewrite !length_after_year by lia; reflexivity].
  apply iso_year_inj in Hy.
  apply after_year_inj in Ha as (Em & Ed & Eh & Emi & Es & Ems); try lia.
  assert (Er : r1 = r2) by (apply time_of_day_inj; assumption).
  assert (Ez : (t1 / 86400000 = t2 / 86400000)%Z).
  { apply civil_from_days_inj. rewrite C1, C2. congruence. }
  pose proof (Z.div_mod t1 86400000 ltac:(lia)) as D1.
  pose proof (Z.div_mod t2 86400000 ltac:(lia)) as D2.
  fold r1 in D1. fold r2 in D2. lia.
Qed.

(** * The serializer tells JSON values apart, key order aside *)

Lemma get_prop_map (f : value -> value) (props : list (string * value)) (k : string) :
  In k (keys props) ->
  get_prop (map (fun kv => (fst kv, f (snd kv))) props) k = f (get_prop props k).
Proof.
  induction props as [|[k' v] props IH]; [intros []|].
  cbn [keys map fst snd get_prop]. intros H.
  destruct (String.eqb_spec k' k) as [->|N]; [reflexivity|].
  apply IH. destruct H as [H|H]; [congruence | exact H].
Qed.

Lemma canon_obj (props : list (string * value)) :
  canon (VObj props)
  = VObj (map (fun k => (k, canon (get_prop props k))) (sort_keys (keys props))).
Proof.
  cbn [canon]. f_equal. apply map_ext_in. intros k Hk. f_equal.
  apply get_prop_map. exact (Permutation_in _ (sort_keys_perm _) Hk).
Qed.

Lemma keys_of_sorted (f : string -> value) (l : list string) :
  keys (map (fun k => (k, f k)) l) = l.
Proof. unfold keys. rewrite map_map. cbn [fst]. apply map_id. Qed.

Lemma canon_defined (v : value) : v <> VUndefined -> canon v <> VUndefined.
Proof. destruct v; intros H; try discriminate; exact H. Qed.

Lemma is_json_defined (v : value) : is_json v -> v <> VUndefined.
Proof. intros H. inversion H; discriminate. Qed.

Lemma is_json_image (v : value) : is_json (json_image v).
Proof.
  induction v as [| | b | n | s | l IH | props IH] using value_ind'; try constructor.
  - rewrite Forall_forall in *. intros x Hx. apply in_map_iff in Hx as (y & <- & Hy). auto.
  - rewrite Forall_forall in *. intros [k x] Hx.
    change (In (k, x) (image_props props)) in Hx.
    apply image_props_keys_in in Hx as (v & Hv & _ & ->). exact (IH _ Hv).
Qed.

Lemma json_image_json (v : value) : is_json v -> json_image v = v.
Proof.
  induction v as [| | b | n | s | l IH | props IH] using value_ind'; intros J;
    inversion J as [| | | |? F|? F]; subst; try reflexivity.
  - cbn [json_image]. f_equal. rewrite <- (map_id l) at 2. apply map_ext_in.
    intros x Hx. rewrite Forall_forall in IH, F. auto.
  - cbn [json_image]. f_equal. fold (image_props props).
    rewrite image_props_defined.
    + rewrite <- (map_id props) at 2. apply map_ext_in. intros [k x] Hx.
      rewrite Forall_forall in IH, F. cbn [fst snd]. f_equal.
      apply (IH _ Hx). exact (F _ Hx).
    + rewrite Forall_forall in *. intros kv Hkv. apply is_json_defined. auto.
Qed.

Lemma is_json_canon (v : value) : is_json v -> is_json (canon v).
Proof.
  induction v as [| | b | n | s | l IH | props IH] using value_ind'; intros J;
    inversion J as [| | | |? F|? F]; subst.
  1-4: constructor.
  - cbn [canon]. constructor.
    rewrite Forall_forall in *. intros x Hx. apply in_map_iff in Hx as (y & <- & Hy). auto.
  - rewrite canon_obj. constructor.
    rewrite Forall_forall in *. intros [k x] Hx. apply in_map_iff in Hx as (k' & E & Hk).
    injection E as <- <-. cbn [snd].
    apply (Permutation_in _ (sort_keys_perm _)) in Hk. apply get_prop_in in Hk.
    apply (IH _ Hk). exact (F _ Hk).
Qed.

Lemma wf_canon (v : value) : wf_value v -> wf_value (canon v).
Proof.
  induction v as [| | b | n | s | l IH | props IH] using value_ind'; intros W;
    inversion W as [| | |? Wn| |? F|? N F]; subst; try (constructor; assumption).
  - cbn [canon]. constructor.
    rewrite Forall_forall in *. intros x Hx. apply in_map_iff in Hx as (y & <- & Hy). auto.
  - rewrite canon_obj. constructor.
    + rewrite keys_of_sorted. exact (Permutation_NoDup (Permutation_sym (sort_keys_perm _)) N).
    + rewrite Forall_forall in *. intros [k x] Hx. apply in_map_iff in Hx as (k' & E & Hk).
      injection E as <- <-. cbn [snd].
      apply (Permutation_in _ (sort_keys_perm _)) in Hk. apply get_prop_in in Hk.
      apply (IH _ Hk). exact (F _ Hk).
Qed.

Lemma flat_map_singletons {A B : Type} (g : A -> list B) (e : A -> B) (l : list A) :
  (forall a, In a l -> g a = [e a]) -> flat_map g l = map e l.
Proof.
  induction l as [|a l IH]; intros H; [reflexivity|].
  cbn [flat_map map]. rewrite (H a (or_introl eq_refl)), IH; [reflexivity|].
  intros x Hx. apply H. now right.
Qed.

(** On a JSON value, the serializer writes what [JSON.stringify] writes for
    the value with its keys in order. *)
Lemma deterministicStringify_canon (v : value) :
  wf_value v -> is_json v -> deterministicStringify v = JSON_stringify (canon v).
Proof.
  induction v as [| | b | n | s | l IH | props IH] using value_ind'; intros W J;
    inversion W as [| | |? Wn| |? Fw|? N Fw]; inversion J as [| | | |? F|? F]; subst;
    try reflexivity.
  - rewrite deterministicStringify_array. cbn [canon JSON_stringify]. do 4 f_equal.
    rewrite map_map. apply map_ext_in. intros x Hx.
    rewrite Forall_forall in IH, F, Fw.
    rewrite (IH _ Hx (Fw _ Hx) (F _ Hx)).
    rewrite (JSON_stringify_defined _ (canon_defined _ (is_json_defined _ (F _ Hx)))).
    reflexivity.
  - rewrite deterministicStringify_object, canon_obj. cbn [JSON_stringify]. do 4 f_equal.
    rewrite flat_map_concat_map, map_map, <- flat_map_concat_map.
    symmetry. apply flat_map_singletons. intros k Hk. cbn [fst snd].
    apply (Permutation_in _ (sort_keys_perm _)) in Hk. apply get_prop_in in Hk.
    rewrite Forall_forall in IH, F, Fw.
    pose proof (IH _ Hk (Fw _ Hk) (F _ Hk)) as E. cbn [snd] in E. rewrite E.
    pose proof (is_json_defined _ (F _ Hk)) as D. cbn [snd] in D.
    rewrite (JSON_stringify_defined _ (canon_defined _ D)). reflexivity.
Qed.

Lemma canon_same (v1 : value) : forall v2, canon v1 = canon v2 -> same_value v1 v2.
Proof.
  induction v1 as [| | b | n | s | l IH | props IH] using value_ind'; intros v2 H.
  1-5: destruct v2; try discriminate H; try (injection H as <-); constructor.
  - destruct v2 as [| | | | | l2 |]; try discriminate H.
    cbn [canon] in H. injection H as H. constructor.
    revert l2 H. induction IH as [|x l Px _ IHl]; intros [|y l2] H; try discriminate H.
    + constructor.
    + cbn [map] in H. injection H as Hx Hl. constructor; [now apply Px | now apply IHl].
  - destruct v2 as [| | | | | | p2]; try discriminate H.
    rewrite !canon_obj in H. injection H as H.
    assert (S : sort_keys (keys props) = sort_keys (keys p2)).
    { apply (f_equal keys) in H. now rewrite !keys_of_sorted in H. }
    rewrite <- S in H.
    assert (K : forall k, In k (keys props) <-> In k (keys p2)).
    { intros k. split; intros Hk.
      - apply (Permutation_in _ (sort_keys_perm _)). rewrite <- S.
        exact (Permutation_in _ (Permutation_sym (sort_keys_perm _)) Hk).
      - apply (Permutation_in _ (sort_keys_perm _)). rewrite S.
        exact (Permutation_in _ (Permutation_sym (sort_keys_perm _)) Hk). }
    constructor; [exact K|]. intros k Hk.
    pose proof (get_prop_in props k Hk) as I.
    rewrite Forall_forall in IH. apply (IH _ I). cbn [snd].
    assert (Hs : In k (sort_keys (keys props)))
      by exact (Permutation_in _ (Permutation_sym (sort_keys_perm _)) Hk).
    pose proof (proj1 map_ext_in_iff H k Hs) as E. now injection E.
Qed.

(** Two JSON values with one encoding are the same, key order aside. *)
Lemma deterministicStringify_inj (v1 v2 : value) :
  wf_value v1 -> wf_value v2 -> is_json v1 -> is_json v2 ->
  deterministicStringify v1 = deterministicStringify v2 -> same_value v1 v2.
Proof.
  intros W1 W2 J1 J2 H.
  rewrite !deterministicStringify_canon in H by assumption.
  rewrite !JSON_stringify_defined in H
    by (apply canon_defined, is_json_defined; assumption).
  injection H as H. apply (f_equal JSON_parse) in H.
  rewrite !JSON_parse_printed in H by (apply wf_canon; assumption).
  injection H as H.
  rewrite !json_image_json in H by (apply is_json_canon; assumption).
  now apply canon_same.
Qed.

(** * Tampering is detected *)

Lemma append_inv_tail (x y s : string) : x ++ s = y ++ s -> x = y.
Proof.
  revert y. induction x as [|c x IH]; intros [|d y] H; simpl in H.
  - reflexivity.
  - exfalso. apply (f_equal String.length) in H. simpl in H.
    rewrite length_append in H. lia.
  - exfalso. apply (f_equal String.length) in H. simpl in H.
    rewrite length_append in H. lia.
  - injection H as -> H. f_equal. now apply IH.
Qed.

Lemma quote_inj (s t : string) : quote s = quote t -> s = t.
Proof.
  unfold quote. intros H. injection H as H.
  pose proof (parse_string_body_escape s "") as P1.
  pose proof (parse_string_body_escape t "") as P2.
  rewrite H in P1. rewrite P1 in P2. now injection P2.
Qed.

Lemma encode_nullable_inj (a b : option string) :
  encode_nullable a = encode_nullable b -> a = b.
Proof.
  destruct a as [a|], b as [b|]; simpl; intros H.
  - f_equal. now apply quote_inj.
  - discriminate H.
  - discriminate H.
  - reflexivity.
Qed.

Lemma block_text_layout (b : DocumentBlock) :
  block_text b
  = block_layout (quote (content_hash b)) (quote (document_id b))
      (template (deterministicStringify (json_image (metadata b))))
      (encode_nullable (previous_hash b)) (quote (signature_data b))
      (quote (toISOString (created_at b))).
Proof.
  unfold block_text, blockData, block_layout, layout6, q.
  rewrite deterministicStringify_object.
  destruct (previous_hash b); cbn -[quote deterministicStringify json_image toISOString append];
    rewrite ?append_assoc; reflexivity.
Qed.

Lemma layout6_inj (a0 a1 a2 a3 a4 a5 a6 e1 e2 e3 e4 e5 e6 f1 f2 f3 f4 f5 f6 : string) :
  layout6 a0 a1 a2 a3 a4 a5 a6 e1 e2 e3 e4 e5 e6
  = layout6 a0 a1 a2 a3 a4 a5 a6 f1 f2 f3 f4 f5 f6 ->
  (e2 = f2 -> e3 = f3 -> e4 = f4 -> e5 = f5 -> e6 = f6 -> e1 = f1) /\
  (e1 = f1 -> e3 = f3 -> e4 = f4 -> e5 = f5 -> e6 = f6 -> e2 = f2) /\
  (e1 = f1 -> e2 = f2 -> e4 = f4 -> e5 = f5 -> e6 = f6 -> e3 = f3) /\
  (e1 = f1 -> e2 = f2 -> e3 = f3 -> e5 = f5 -> e6 = f6 -> e4 = f4) /\
  (e1 = f1 -> e2 = f2 -> e3 = f3 -> e4 = f4 -> e6 = f6 -> e5 = f5) /\
  (e1 = f1 -> e2 = f2 -> e3 = f3 -> e4 = f4 -> e5 = f5 -> e6 = f6).
Proof.
  unfold layout6. intros H.
  repeat split; intros; subst; repeat apply append_inv_head in H;
    now apply append_inv_tail in H.
Qed.

Lemma block_layout_inj (e1 e2 e3 e4 e5 e6 f1 f2 f3 f4 f5 f6 : string) :
  block_layout e1 e2 e3 e4 e5 e6 = block_layout f1 f2 f3 f4 f5 f6 ->
  (e2 = f2 -> e3 = f3 -> e4 = f4 -> e5 = f5 -> e6 = f6 -> e1 = f1) /\
  (e1 = f1 -> e3 = f3 -> e4 = f4 -> e5 = f5 -> e6 = f6 -> e2 = f2) /\
  (e1 = f1 -> e2 = f2 -> e4 = f4 -> e5 = f5 -> e6 = f6 -> e3 = f3) /\
  (e1 = f1 -> e2 = f2 -> e3 = f3 -> e5 = f5 -> e6 = f6 -> e4 = f4) /\
  (e1 = f1 -> e2 = f2 -> e3 = f3 -> e4 = f4 -> e6 = f6 -> e5 = f5) /\
  (e1 = f1 -> e2 = f2 -> e3 = f3 -> e4 = f4 -> e5 = f5 -> e6 = f6).
Proof. apply layout6_inj. Qed.

Lemma template_inj (a b : value) :
  a <> VUndefined -> b <> VUndefined ->
  template (deterministicStringify a) = template (deterministicStringify b) ->
  deterministicStringify a = deterministicStringify b.
Proof.
  intros Da Db.
  assert (S : forall v, v <> VUndefined -> exists t, deterministicStringify v = Some t).
  { intros v D. destruct v as [| | [|] | | | |]; try (eexists; reflexivity). congruence. }
  destruct (S a Da) as [ta ->], (S b Db) as [tb ->]. simpl. now intros ->.
Qed.

(** A change of a hashed field changes the hashed text. *)
Lemma changes_text (mu : Mutation) (b : DocumentBlock) :
  json_column (metadata b) ->
  changes mu b ->
  (forall s, mu <> SetHash s) ->
  block_text (mutate mu b) <> block_text b.
Proof.
  intros Jb C NH E. rewrite !block_text_layout in E.
  apply block_layout_inj in E as (E1 & E2 & E3 & E4 & E5 & E6).
  destruct mu; cbn [changes mutate content_hash document_id metadata previous_hash
                    signature_data created_at] in *.
  - apply C. apply quote_inj. now apply E2.
  - apply C. apply encode_nullable_inj. now apply E4.
  - now apply (NH s).
  - apply C. apply quote_inj. now apply E1.
  - apply C. apply quote_inj. now apply E5.
  - destruct C as [Jm C]. apply C.
    apply deterministicStringify_inj;
      try apply is_json_image; try (apply wf_json_image; [apply Jm || apply Jb]).
    apply template_inj; try apply json_image_defined. now apply E3.
  - apply C. apply toISOString_inj, quote_inj. now apply E6.
Qed.

Lemma concat_nil_inv {A : Type} (ll : list (list A)) (l : list A) :
  List.concat ll = [] -> In l ll -> l = [].
Proof.
  induction ll as [|x ll IH]; [intros _ []|]. cbn [List.concat]. intros H [<-|I].
  - now apply app_eq_nil in H.
  - apply IH; [now apply app_eq_nil in H | exact I].
Qed.

Lemma in_map_indexed {A B : Type} (f : A -> nat -> B) (l : list A) (x : A) (start : nat) :
  In x l -> exists i, In (f x i) (map_indexed f l start).
Proof.
  revert start. induction l as [|y l IH]; intros start; [intros []|].
  intros [->|I]; cbn [map_indexed].
  - exists start. now left.
  - destruct (IH (S start) I) as [i Hi]. exists i. now right.
Qed.

Lemma no_problems_hash (blocks : list DocumentBlock) (x : DocumentBlock) :
  all_problems blocks = [] -> In x blocks -> recomputed_hash x = hash x.
Proof.
  intros H I. destruct (in_map_indexed (problems_of blocks) blocks x 0 I) as [i Hi].
  pose proof (concat_nil_inv _ _ H Hi) as P. unfold problems_of in P.
  apply app_eq_nil in P as [P _]. unfold hash_problem in P.
  destruct (String.eqb_spec (recomputed_hash x) (hash x)); [assumption | discriminate].
Qed.

Lemma hash_problem_reported (blocks : list DocumentBlock) (x : DocumentBlock) :
  In x blocks -> recomputed_hash x <> hash x ->
  In (invalid_hash_message x) (all_problems blocks).
Proof.
  intros I N. destruct (in_map_indexed (problems_of blocks) blocks x 0 I) as [i Hi].
  unfold all_problems. apply in_concat. eexists. split; [exact Hi|].
  unfold problems_of, hash_problem. apply in_or_app. left.
  destruct (String.eqb_spec (recomputed_hash x) (hash x)); [contradiction | now left].
Qed.

Lemma update_nth_in {A : Type} (f : A -> A) (l : list A) (n : nat) (x : A) :
  nth_error l n = Some x -> In (f x) (update_nth n f l).
Proof.
  revert n. induction l as [|y l IH]; intros [|n]; simpl; try discriminate.
  - intros [= ->]. now left.
  - intros H. right. now apply IH.
Qed.

Lemma update_nth_forall {A : Type} (P : A -> Prop) (f : A -> A) (l : list A) (n : nat) :
  Forall P l -> (forall x, nth_error l n = Some x -> P (f x)) -> Forall P (update_nth n f l).
Proof.
  revert n. induction l as [|y l IH]; intros [|n] F H; simpl; try constructor;
    inversion F; subst; auto.
Qed.

(** C6: in a ledger that verifies, give one field of one row another value:
    the document id, the previous hash, the hash, the content hash, the
    signature data, the instant, or the metadata (another JSON document, the
    order of keys aside).  Unless SHA-256 collides on the row's old and new
    texts, verification then fails and its errors include the invalid-hash
    message with that row's id. *)
Theorem tamper_detected (st : Store) (n : nat) (b : DocumentBlock) (mu : Mutation) :
  store_wf st ->
  verifyBlockchain st = Ok {| valid := true; errors := [] |} ->
  nth_error (rows st) n = Some b ->
  changes mu b ->
  no_collision b (mutate mu b) ->
  exists r,
    verifyBlockchain (tamper st n mu) = Ok r /\
    valid r = false /\
    In (invalid_hash_message b) (errors r).
Proof.
  intros W V Hn C NC.
  rewrite (verifyBlockchain_spec st W) in V. injection V as _ V.
  assert (Hb : recomputed_hash b = hash b).
  { apply (no_problems_hash _ b V). eapply Permutation_in;
      [symmetry; apply order_asc_perm | eapply nth_error_In; exact Hn]. }
  assert (Jb : json_column (metadata b)).
  { unfold store_wf in W. rewrite Forall_forall in W. apply W.
    eapply nth_error_In; exact Hn. }
  assert (W' : store_wf (tamper st n mu)).
  { unfold store_wf, tamper. cbn [rows]. apply update_nth_forall; [exact W|].
    intros x Hx. rewrite Hn in Hx. injection Hx as <-.
    destruct mu; cbn [mutate metadata]; try exact Jb. exact (proj1 C). }
  assert (Hbad : recomputed_hash (mutate mu b) <> hash (mutate mu b)).
  { destruct mu;
      try (intros E; apply (changes_text _ b Jb C); [intros s0 X; discriminate X|];
           apply NC; transitivity (hash b); [exact E | symmetry; exact Hb]).
    change (recomputed_hash (mutate (SetHash s) b)) with (recomputed_hash b).
    cbn [mutate hash changes] in *. rewrite Hb. congruence. }
  assert (Hin : In (mutate mu b) (findAll_asc (tamper st n mu))).
  { unfold findAll_asc, tamper. cbn [rows]. eapply Permutation_in;
      [symmetry; apply order_asc_perm | now apply update_nth_in]. }
  pose proof (hash_problem_reported _ _ Hin Hbad) as R.
  replace (invalid_hash_message (mutate mu b)) with (invalid_hash_message b) in R
    by (destruct mu; reflexivity).
  rewrite (verifyBlockchain_spec _ W'). eexists. split; [reflexivity|].
  cbn [valid errors]. split; [|exact R].
  destruct (all_problems (findAll_asc (tamper st n mu))); [contradiction | reflexivity].
Qed.

(** * Bytes *)

Lemma byte_of_to_Z (b : byte) : byte_of_Z (byte_to_Z b) = b.
Proof.
  unfold byte_of_Z, byte_to_Z.
  pose proof (Byte.to_N_bounded b) as B.
  rewrite Z.mod_small by lia. rewrite N2Z.id, Byte.of_to_N. reflexivity.
Qed.

Lemma byte_to_Z_range (b : byte) : (0 <= byte_to_Z b < 256)%Z.
Proof. unfold byte_to_Z. pose proof (Byte.to_N_bounded b). lia. Qed.

Lemma map_byte_of_to_Z (l : Buffer) : map byte_of_Z (map byte_to_Z l) = l.
Proof. rewrite map_map. rewrite <- (map_id l) at 2. apply map_ext. apply byte_of_to_Z. Qed.

Lemma buffer_of_string_app (a b : string) :
  buffer_of_string (a ++ b) = (buffer_of_string a ++ buffer_of_string b)%list.
Proof.
  unfold buffer_of_string, list_byte_of_string.
  induction a as [|c a IH]; simpl; [reflexivity | now rewrite IH].
Qed.

Lemma string_of_buffer_of_string (s : string) : string_of_buffer (buffer_of_string s) = s.
Proof. apply string_of_list_byte_of_string. Qed.

(** * Base64 *)

Lemma b64_char_table :
  forallb (fun i => match unbase64 (b64_char (Z.of_nat i)) with
                    | Some v => (v =? Z.of_nat i)%Z
                    | None => false
                    end) (seq 0 64) = true.
Proof. vm_compute. reflexivity. Qed.

Lemma unbase64_b64_char (n : Z) : (0 <= n < 64)%Z -> unbase64 (b64_char n) = Some n.
Proof.
  intros H. pose proof b64_char_table as T. rewrite forallb_forall in T.
  specialize (T (Z.to_nat n)). rewrite Z2Nat.id in T by lia.
  assert (I : In (Z.to_nat n) (seq 0 64)) by (apply in_seq; lia).
  specialize (T I). destruct (unbase64 (b64_char n)); [|discriminate].
  apply Z.eqb_eq in T. now subst.
Qed.

Lemma list_ind3 {A : Type} (P : list A -> Prop) :
  P [] -> (forall a, P [a]) -> (forall a b, P [a; b]) ->
  (forall a b c r, P r -> P (a :: b :: c :: r)) ->
  forall l, P l.
Proof.
  intros H0 H1 H2 H3.
  assert (G : forall l, P l /\ (forall a, P (a :: l)) /\ (forall a b, P (a :: b :: l))).
  { induction l as [|x l (IH0 & IH1 & IH2)]; repeat split; auto. }
  intros l. apply G.
Qed.

Ltac sextet_range := Z.div_mod_to_equations; lia.

Lemma base64_decode_encode (bs : list Z) :
  in_byte_range bs -> base64_decode (base64_encode bs) = bs.
Proof.
  unfold base64_decode. induction bs as [| a | a b | a b c r IH] using list_ind3; intros R.
  - reflexivity.
  - inversion R as [|? ? Ha _]; subst.
    cbn [base64_encode sextets]. rewrite !unbase64_b64_char by sextet_range.
    cbn. f_equal. sextet_range.
  - inversion R as [|? ? Ha R1]; subst. inversion R1 as [|? ? Hb _]; subst.
    cbn [base64_encode sextets]. rewrite !unbase64_b64_char by sextet_range.
    cbn. f_equal; [|f_equal]; sextet_range.
  - inversion R as [|? ? Ha R1]; subst. inversion R1 as [|? ? Hb R2]; subst.
    inversion R2 as [|? ? Hc R3]; subst.
    cbn [base64_encode sextets]. rewrite !unbase64_b64_char by sextet_range.
    cbn [bytes_of_sextets]. rewrite (IH R3).
    f_equal; [|f_equal; [|f_equal]]; sextet_range.
Qed.

Lemma Buffer_from_base64_toString (b : Buffer) :
  Buffer_from_base64 (toString_base64 b) = b.
Proof.
  unfold Buffer_from_base64, toString_base64. rewrite base64_decode_encode.
  - apply map_byte_of_to_Z.
  - unfold in_byte_range. rewrite Forall_forall. intros z Hz.
    apply in_map_iff in Hz as (x & <- & _). apply byte_to_Z_range.
Qed.

Lemma b64_char_text_table :
  forallb (fun i => is_b64_text (b64_char (Z.of_nat i))) (seq 0 64) = true.
Proof. vm_compute. reflexivity. Qed.

Lemma b64_char_text (n : Z) : (0 <= n < 64)%Z -> is_b64_text (b64_char n) = true.
Proof.
  intros H. pose proof b64_char_text_table as T. rewrite forallb_forall in T.
  specialize (T (Z.to_nat n)). rewrite Z2Nat.id in T by lia.
  apply T. apply in_seq. lia.
Qed.

Lemma base64_encode_text (bs : list Z) :
  in_byte_range bs -> all_chars is_b64_text (base64_encode bs) = true.
Proof.
  induction bs as [| a | a b | a b c r IH] using list_ind3; intros R.
  - reflexivity.
  - inversion R as [|? ? Ha _]; subst.
    cbn [base64_encode all_chars]. rewrite !b64_char_text by sextet_range. reflexivity.
  - inversion R as [|? ? Ha R1]; subst. inversion R1 as [|? ? Hb _]; subst.
    cbn [base64_encode all_chars]. rewrite !b64_char_text by sextet_range. reflexivity.
  - inversion R as [|? ? Ha R1]; subst. inversion R1 as [|? ? Hb R2]; subst.
    inversion R2 as [|? ? Hc R3]; subst.
    cbn [base64_encode all_chars]. rewrite !b64_char_text by sextet_range.
    rewrite (IH R3). reflexivity.
Qed.

Lemma toString_base64_text (b : Buffer) : all_chars is_b64_text (toString_base64 b) = true.
Proof.
  apply base64_encode_text. unfold in_byte_range. rewrite Forall_forall. intros z Hz.
  apply in_map_iff in Hz as (x & <- & _). apply byte_to_Z_range.
Qed.

(** * Searching a buffer *)

Lemma lastIndexOf_from_app (tag pre suf : Buffer) (i : nat) (found : option nat) :
  exists found',
    lastIndexOf_from tag (pre ++ suf)%list i found
    = lastIndexOf_from tag suf (i + List.length pre) found'.
Proof.
  revert i found. induction pre as [|x pre IH]; intros i found.
  - exists found. cbn. now rewrite Nat.add_0_r.
  - cbn [app lastIndexOf_from List.length].
    destruct (IH (S i) (if starts_with tag (x :: pre ++ suf)%list then Some i else found))
      as [f' E].
    exists f'. rewrite E. f_equal. lia.
Qed.

Lemma lastIndexOf_from_none (tag buf : Buffer) (i : nat) (found : option nat) :
  (forall j, starts_with tag (skipn j buf) = false) ->
  lastIndexOf_from tag buf i found = found.
Proof.
  revert i found. induction buf as [|x buf IH]; intros i found H; [reflexivity|].
  cbn [lastIndexOf_from]. rewrite (H 0%nat : starts_with tag (x :: buf) = false).
  apply IH. intros j. exact (H (S j)).
Qed.

Lemma lastIndexOf_at (tag pre suf : Buffer) :
  suf <> [] -> starts_with tag suf = true ->
  (forall j, starts_with tag (skipn (S j) suf) = false) ->
  lastIndexOf (pre ++ suf)%list tag = Some (List.length pre).
Proof.
  intros NE S L. unfold lastIndexOf.
  destruct (lastIndexOf_from_app tag pre suf 0 None) as [f' ->].
  destruct suf as [|x suf]; [congruence|].
  cbn [lastIndexOf_from]. rewrite S. rewrite lastIndexOf_from_none; [reflexivity|].
  intros j. exact (L j).
Qed.


Lemma in_skipn {A : Type} (j : nat) (l : list A) (y : A) : In y (skipn j l) -> In y l.
Proof.
  revert l. induction j as [|j IH]; intros [|x l]; simpl; auto.
Qed.

Lemma starts_with_markerTag_free (x : Buffer) (j : nat) :
  Forall (fun y => y <> percent) x -> starts_with markerTag (skipn j x) = false.
Proof.
  intros F. destruct (skipn j x) as [|y r] eqn:E; [reflexivity|].
  assert (I : In y x).
  { apply (in_skipn j). rewrite E. now left. }
  rewrite Forall_forall in F. specialize (F y I).
  change markerTag with (percent :: tl markerTag). cbn [starts_with].
  destruct (Byte.eqb percent y) eqn:B; [|reflexivity].
  apply Byte.byte_dec_bl in B. congruence.
Qed.

Lemma markerTag_no_later (x : Buffer) (j : nat) :
  Forall (fun y => y <> percent) x ->
  starts_with markerTag (skipn (S j) (markerTag ++ x)%list) = false.
Proof.
  intros F.
  do 18 (destruct j as [|j]; [reflexivity|]).
  change (skipn (S (S (S (S (S (S (S (S (S (S (S (S (S (S (S (S (S (S (S j)))))))))))))))))))
                (markerTag ++ x)%list) with (skipn j x).
  now apply starts_with_markerTag_free.
Qed.

Lemma indexOf_from_app (b : byte) (e rest : Buffer) (i : nat) :
  Forall (fun y => y <> b) e ->
  indexOf_from b (e ++ b :: rest)%list i = Some (i + List.length e)%nat.
Proof.
  revert i. induction e as [|y e IH]; intros i F; cbn [app indexOf_from List.length].
  - assert (R : Byte.eqb b b = true) by (apply Byte.byte_dec_lb; reflexivity).
    rewrite R. f_equal. lia.
  - inversion F as [|? ? Hy Fe]; subst.
    destruct (Byte.eqb y b) eqn:B; [apply Byte.byte_dec_bl in B; congruence|].
    rewrite IH by exact Fe. f_equal. lia.
Qed.

Lemma skipn_app_length {A : Type} (a b : list A) : skipn (List.length a) (a ++ b)%list = b.
Proof. induction a; simpl; auto. Qed.

Lemma firstn_app_length {A : Type} (a b : list A) : firstn (List.length a) (a ++ b)%list = a.
Proof. induction a; simpl; [reflexivity | now f_equal]. Qed.

(** * Trimming *)

Lemma trim_end_clean (s : string) :
  all_chars (fun c => negb (is_js_space c)) s = true -> trim_end s = s.
Proof.
  induction s as [|c s IH]; [reflexivity|]. cbn [all_chars trim_end].
  intros H. apply andb_true_iff in H as [Hc Hs]. rewrite (IH Hs).
  destruct s; [|reflexivity]. apply negb_true_iff in Hc. now rewrite Hc.
Qed.

Lemma trim_clean (s : string) :
  all_chars (fun c => negb (is_js_space c)) s = true -> trim s = s.
Proof.
  intros H. unfold trim.
  assert (E : skip_js_space s = s).
  { destruct s as [|c s]; [reflexivity|]. cbn [all_chars skip_js_space] in *.
    apply andb_true_iff in H as [Hc _]. apply negb_true_iff in Hc. now rewrite Hc. }
  rewrite E. now apply trim_end_clean.
Qed.

Lemma all_chars_impl (p p' : ascii -> bool) (s : string) :
  (forall c, p c = true -> p' c = true) -> all_chars p s = true -> all_chars p' s = true.
Proof.
  intros I. induction s as [|c s IH]; [reflexivity|]. cbn [all_chars].
  intros H. apply andb_true_iff in H as [Hc Hs]. rewrite (I c Hc), (IH Hs). reflexivity.
Qed.

Lemma b64_text_facts (c : ascii) :
  is_b64_text c = true ->
  is_js_space c = false /\ byte_of_ascii c <> percent /\ byte_of_ascii c <> newline.
Proof.
  destruct c as [[|] [|] [|] [|] [|] [|] [|] [|]]; vm_compute; intros H;
    try discriminate H; repeat split; discriminate.
Qed.

Lemma buffer_of_string_all (p : ascii -> bool) (P : byte -> Prop) (s : string) :
  (forall c, p c = true -> P (byte_of_ascii c)) ->
  all_chars p s = true -> Forall P (buffer_of_string s).
Proof.
  intros I. unfold buffer_of_string, list_byte_of_string.
  induction s as [|c s IH]; cbn [all_chars list_ascii_of_string map]; [constructor|].
  intros H. apply andb_true_iff in H as [Hc Hs]. constructor; auto.
Qed.

(** * The envelope round trip *)

Lemma deterministicStringify_defined (v : value) :
  v <> VUndefined ->
  deterministicStringify v = Some (template (deterministicStringify v)).
Proof.
  intros D. destruct v as [| | [|] | | | |]; try reflexivity. congruence.
Qed.

Lemma or_empty_object_defined (m : value) : or_empty_object m <> VUndefined.
Proof. destruct m; discriminate. Qed.

Lemma attach_result (clock : Date) (b : Buffer) (m : value) (secret : option string) :
  let mh := calculateHash (template (deterministicStringify (or_empty_object m))) in
  let env := envelope_signed (envelope_base clock b m mh) secret in
  let encoded := toString_base64 (buffer_of_string (elem_text (VObj env))) in
  attachPreviewEnvelope clock b m secret
  = Ok {| buffer := (b ++ marker_bytes encoded)%list;
          envelope := VObj env;
          encodedEnvelope := encoded |}.
Proof.
  intros mh env encoded. unfold attachPreviewEnvelope, hashMetadata.
  rewrite (deterministicStringify_defined _ (or_empty_object_defined m)).
  cbn [or_throw bind]. fold mh. fold (envelope_base clock b m mh).
  assert (E : (match nonempty secret with
               | Some secret0 =>
                   let* envelopeForHmac :=
                     or_throw TypeError (deterministicStringify (VObj (envelope_base clock b m mh))) in
                   Ok (envelope_base clock b m mh
                       ++ [("hmac", VStr (createHmac secret0 envelopeForHmac))])%list
               | None => Ok (envelope_base clock b m mh)
               end) = Ok env).
  { unfold env, envelope_signed. destruct (nonempty secret); reflexivity. }
  rewrite E. cbn [bind]. rewrite (JSON_stringify_defined (VObj env)) by discriminate.
  cbn [or_throw bind]. fold encoded. do 2 f_equal.
  unfold marker_bytes.
  change (String "010" "%%DocuChainPreview:" ++ encoded ++ String "010" "")
    with (String "010" ("%%DocuChainPreview:" ++ encoded ++ String "010" "")).
  change (buffer_of_string (String "010" ("%%DocuChainPreview:" ++ encoded ++ String "010" "")))
    with (newline :: buffer_of_string ("%%DocuChainPreview:" ++ encoded ++ String "010" "")).
  rewrite !buffer_of_string_app. reflexivity.
Qed.

Lemma encoded_free_of (encoded : string) (x : byte) :
  all_chars is_b64_text encoded = true ->
  x = percent \/ x = newline ->
  Forall (fun y => y <> x) (buffer_of_string encoded).
Proof.
  intros T Hx. apply (buffer_of_string_all is_b64_text); [|exact T].
  intros c Hc. destruct (b64_text_facts c Hc) as (_ & P & N).
  destruct Hx as [-> | ->]; assumption.
Qed.

Lemma lastIndexOf_attached (b : Buffer) (encoded : string) :
  all_chars is_b64_text encoded = true ->
  lastIndexOf (b ++ marker_bytes encoded)%list markerTag = Some (S (List.length b)).
Proof.
  intros T. unfold marker_bytes.
  change (b ++ newline :: markerTag ++ buffer_of_string encoded ++ [newline])%list
    with (b ++ [newline] ++ (markerTag ++ buffer_of_string encoded ++ [newline]))%list.
  rewrite app_assoc.
  rewrite lastIndexOf_at.
  - rewrite length_app. cbn [List.length]. f_equal. lia.
  - discriminate.
  - reflexivity.
  - intros j. apply markerTag_no_later. apply Forall_app. split.
    + apply encoded_free_of; auto.
    + repeat constructor. discriminate.
Qed.

Lemma decoded_payload_attached (b : Buffer) (json : string) :
  decoded_payload (b ++ marker_bytes (toString_base64 (buffer_of_string json)))%list
                  (S (List.length b)) = json.
Proof.
  set (encoded := toString_base64 (buffer_of_string json)).
  assert (T : all_chars is_b64_text encoded = true) by apply toString_base64_text.
  unfold decoded_payload, marker_bytes.
  set (E := buffer_of_string encoded).
  assert (Sk : skipn (S (List.length b) + List.length markerTag)
                 (b ++ newline :: markerTag ++ E ++ [newline])%list = (E ++ [newline])%list).
  { change (b ++ newline :: markerTag ++ E ++ [newline])%list
      with (b ++ [newline] ++ markerTag ++ E ++ [newline])%list.
    rewrite !app_assoc. rewrite <- (app_assoc _ E).
    replace (S (List.length b) + List.length markerTag)%nat
      with (List.length ((b ++ [newline]) ++ markerTag)%list)
      by (rewrite !length_app; cbn [List.length]; lia).
    apply skipn_app_length. }
  unfold indexOf. rewrite Sk.
  rewrite indexOf_from_app by (apply encoded_free_of; auto).
  unfold slice. rewrite Sk.
  replace (S (List.length b) + List.length markerTag + List.length E
           - (S (List.length b) + List.length markerTag))%nat
    with (List.length E) by lia.
  rewrite firstn_app_length. unfold E. rewrite string_of_buffer_of_string.
  rewrite trim_clean.
  - unfold encoded. rewrite Buffer_from_base64_toString. apply string_of_buffer_of_string.
  - eapply all_chars_impl; [|exact T]. intros c Hc.
    destruct (b64_text_facts c Hc) as (S & _). now rewrite S.
Qed.

Lemma step_back_newline (b rest : Buffer) :
  step_back (b ++ newline :: rest)%list newline (S (List.length b)) = List.length b.
Proof.
  unfold step_back. cbn [Nat.ltb Nat.leb Nat.sub]. rewrite Nat.sub_0_r.
  rewrite nth_error_app2 by lia. rewrite Nat.sub_diag. cbn [nth_error andb].
  reflexivity.
Qed.

Lemma step_back_cr (b rest : Buffer) :
  step_back (b ++ rest)%list carriage_return (List.length b)
  = if ends_with_cr b then (List.length b - 1)%nat else List.length b.
Proof.
  unfold step_back, ends_with_cr. destruct b as [|x b]; [reflexivity|].
  cbn [List.length Nat.ltb Nat.leb andb].
  rewrite nth_error_app1 by (cbn [List.length]; lia). reflexivity.
Qed.

Lemma wf_number_one : wf_number number_one.
Proof. repeat split; discriminate. Qed.

Lemma wf_envelope (clock : Date) (b : Buffer) (m : value) (mh : string)
    (secret : option string) :
  wf_value m -> wf_value (VObj (envelope_signed (envelope_base clock b m mh) secret)).
Proof.
  intros W. unfold envelope_signed, envelope_base.
  destruct (nonempty secret); cbn [app]; constructor.
  - unfold keys. cbn [map fst].
    repeat (constructor; [simpl; intuition discriminate|]). constructor.
  - repeat (apply Forall_cons;
            [cbn [snd]; first [exact W | apply wf_num, wf_number_one | constructor] |]).
    apply Forall_nil.
  - unfold keys. cbn [map fst].
    repeat (constructor; [simpl; intuition discriminate|]). constructor.
  - repeat (apply Forall_cons;
            [cbn [snd]; first [exact W | apply wf_num, wf_number_one | constructor] |]).
    apply Forall_nil.
Qed.

(** What [extract] returns on what [attach] wrote. *)
Lemma extract_attached (clock : Date) (b : Buffer) (m : value) (secret : option string) :
  wf_value m ->
  exists r,
    attachPreviewEnvelope clock b m secret = Ok r /\
    extracted (extractPreviewEnvelope (buffer r)) = json_image (envelope r) /\
    field (extracted (extractPreviewEnvelope (buffer r))) "content_hash"
      = VStr (calculateHashBuffer b) /\
    unsignedBuffer (extractPreviewEnvelope (buffer r))
      = firstn (if ends_with_cr b then List.length b - 1 else List.length b)%nat b.
Proof.
  intros W. eexists. split; [apply attach_result|]. cbn [buffer envelope].
  set (mh := calculateHash (template (deterministicStringify (or_empty_object m)))).
  set (env := envelope_signed (envelope_base clock b m mh) secret).
  set (json := elem_text (VObj env)).
  unfold extractPreviewEnvelope.
  rewrite lastIndexOf_attached by apply toString_base64_text.
  rewrite decoded_payload_attached. unfold json.
  rewrite JSON_parse_printed by (apply wf_envelope; exact W).
  cbn [extracted unsignedBuffer]. split; [reflexivity|]. split.
  - unfold env, envelope_signed, envelope_base.
    destruct (nonempty secret); reflexivity.
  - unfold marker_bytes. rewrite step_back_newline, step_back_cr.
    unfold slice. cbn [skipn]. rewrite Nat.sub_0_r.
    destruct (ends_with_cr b).
    + rewrite firstn_app. replace (List.length b - 1 - List.length b)%nat with 0%nat by lia.
      cbn [firstn]. now rewrite app_nil_r.
    + rewrite firstn_app_length. now rewrite firstn_all.
Qed.

(** * The checks at sign time *)

Lemma without_hmac_defined (x : value) : without_hmac x <> VUndefined.
Proof. destruct x; discriminate. Qed.

Lemma sign_checks_unfold (key : option string) (pdfBuffer : Buffer) (sig : option string) :
  let e := sign_envelope pdfBuffer sig in
  signDocument_checks key (Some pdfBuffer) sig =
  if negb (truthy e) then Ok (Rejected 400 "Preview envelope not found in upload")
  else
    let after :=
      let bufferForHash :=
        if truthy (extracted (extractPreviewEnvelope pdfBuffer))
        then unsignedBuffer (extractPreviewEnvelope pdfBuffer) else pdfBuffer in
      if str_differs (calculateHashBuffer bufferForHash) (field e "content_hash")
      then Ok content_mismatch
      else if str_differs
                (calculateHash (template (deterministicStringify
                                           (or_empty_object (field e "metadata")))))
                (field e "metadata_hash")
           then Ok metadata_mismatch
           else Ok (Verified e) in
    if truthy (field e "hmac") then
      match nonempty key with
      | None => Ok missing_secret
      | Some secret =>
          if str_differs (createHmac secret (hmac_text e)) (field e "hmac")
          then Ok hmac_mismatch
          else after
      end
    else after.
Proof.
  intros e. unfold signDocument_checks. fold (sign_envelope pdfBuffer sig). fold e.
  destruct (negb (truthy e)); [reflexivity|].
  assert (A : forall x, or_throw TypeError (calculateObjectHash (or_empty_object x))
                        = Ok (calculateHash (template (deterministicStringify
                                                         (or_empty_object x))))).
  { intros x. unfold calculateObjectHash.
    rewrite (deterministicStringify_defined _ (or_empty_object_defined x)). reflexivity. }
  destruct (truthy (field e "hmac")).
  - destruct (nonempty key) as [secret|]; [|reflexivity].
    rewrite (deterministicStringify_defined _ (without_hmac_defined e)).
    cbn [or_throw bind]. fold (hmac_text e).
    destruct (str_differs (createHmac secret (hmac_text e)) (field e "hmac")); [reflexivity|].
    cbn [bind]. destruct (str_differs _ (field e "content_hash")); [reflexivity|].
    rewrite A. cbn [bind]. reflexivity.
  - cbn [bind]. destruct (str_differs _ (field e "content_hash")); [reflexivity|].
    rewrite A. cbn [bind]. reflexivity.
Qed.




(** * The digest is never empty *)

Lemma compress_length (h block : list Z) :
  List.length h = 8%nat -> List.length (SHA256.compress h block) = 8%nat.
Proof.
  intros H. unfold SHA256.compress. rewrite length_map, length_combine, H. reflexivity.
Qed.

Lemma blocks_length (fuel : nat) (h ws : list Z) :
  List.length h = 8%nat -> List.length (SHA256.blocks fuel h ws) = 8%nat.
Proof.
  revert h ws. induction fuel as [|fuel IH]; intros h ws H; cbn [SHA256.blocks]; [exact H|].
  destruct ws; [exact H|]. apply IH. now apply compress_length.
Qed.

Lemma digest_Z_nonempty (msg : list Z) : SHA256.digest_Z msg <> [].
Proof.
  unfold SHA256.digest_Z.
  pose proof (blocks_length (List.length (SHA256.words (List.length (SHA256.pad msg))
                                            (SHA256.pad msg)))
                SHA256.H0 (SHA256.words (List.length (SHA256.pad msg)) (SHA256.pad msg))
                eq_refl) as L.
  destruct (SHA256.blocks _ SHA256.H0 _) as [|w ws]; [discriminate L|].
  cbn [flat_map SHA256.be_bytes app]. discriminate.
Qed.

Lemma createHmac_nonempty (key data : string) : createHmac key data <> "".
Proof.
  unfold createHmac, HMAC.hmac_Z.
  match goal with |- hex_of_Zs (SHA256.digest_Z ?m) <> _ =>
    pose proof (digest_Z_nonempty m) as N; destruct (SHA256.digest_Z m) end;
    [congruence | discriminate].
Qed.

Lemma truthy_hmac (key data : string) : truthy (VStr (createHmac key data)) = true.
Proof.
  pose proof (createHmac_nonempty key data) as N. cbn [truthy].
  destruct (createHmac key data); [congruence | reflexivity].
Qed.

(** * An envelope as verification reads it *)

Lemma json_stable_envelope (clock : Date) (b : Buffer) (m : value) (mh : string)
    (secret : option string) :
  json_stable m ->
  json_stable (VObj (envelope_signed (envelope_base clock b m mh) secret)).
Proof.
  unfold json_stable. intros S.
  assert (D : m <> VUndefined) by (intros ->; discriminate S).
  unfold envelope_signed, envelope_base.
  destruct (nonempty secret); cbn [app json_image flat_map fst snd];
    destruct m; try congruence; cbn [app]; rewrite ?S; reflexivity.
Qed.


Lemma hmac_text_envelope (base : list (string * value)) (h : value) :
  (forall kv, In kv base -> fst kv <> "hmac") ->
  hmac_text (VObj (base ++ [("hmac", h)])) = template (deterministicStringify (VObj base)).
Proof.
  intros H. unfold hmac_text, without_hmac. do 3 f_equal.
  rewrite filter_app. cbn [filter fst String.eqb Ascii.eqb Bool.eqb negb andb].
  rewrite app_nil_r. induction base as [|kv base IH]; [reflexivity|].
  cbn [filter]. rewrite IH by (intros x Hx; apply H; now right).
  specialize (H kv (or_introl eq_refl)). apply String.eqb_neq in H. now rewrite H.
Qed.

Lemma hmac_text_unsigned (base : list (string * value)) :
  (forall kv, In kv base -> fst kv <> "hmac") ->
  hmac_text (VObj base) = template (deterministicStringify (VObj base)).
Proof.
  intros H. unfold hmac_text, without_hmac. do 3 f_equal.
  induction base as [|kv base IH]; [reflexivity|].
  cbn [filter]. rewrite IH by (intros x Hx; apply H; now right).
  specialize (H kv (or_introl eq_refl)). apply String.eqb_neq in H. now rewrite H.
Qed.

Lemma envelope_base_no_hmac (clock : Date) (b : Buffer) (m : value) (mh : string) :
  forall kv, In kv (envelope_base clock b m mh) -> fst kv <> "hmac".
Proof.
  intros kv H. unfold envelope_base in H. cbn [In] in H.
  repeat destruct H as [<-|H]; try discriminate. contradiction.
Qed.

Lemma str_differs_same (t : string) : str_differs t (VStr t) = false.
Proof. cbn. now rewrite String.eqb_refl. Qed.

(** The upload that [attach] wrote, for metadata that the JSON round trip
    leaves alone: the HMAC check passes, then the metadata hash, and the
    outcome rests on the content hash of the bytes extraction gives back. *)
Lemma attach_then_checks (clock : Date) (b : Buffer) (m : value) (secret : option string) :
  wf_value m -> json_stable m ->
  exists r,
    attachPreviewEnvelope clock b m secret = Ok r /\
    signDocument_checks secret (Some (buffer r)) None
    = if str_differs
           (calculateHashBuffer (unsignedBuffer (extractPreviewEnvelope (buffer r))))
           (VStr (calculateHashBuffer b))
      then Ok content_mismatch
      else Ok (Verified (envelope r)).
Proof.
  intros W S.
  destruct (extract_attached clock b m secret W) as (r & A & E1 & E2 & _).
  exists r. split; [exact A|].
  rewrite attach_result in A. injection A as <-. cbn [buffer envelope] in *.
  set (mh := calculateHash (template (deterministicStringify (or_empty_object m)))) in *.
  set (base := envelope_base clock b m mh) in *.
  pose proof (json_stable_envelope clock b m mh secret S) as St. unfold json_stable in St.
  fold base in St. rewrite St in E1.
  rewrite sign_checks_unfold. unfold sign_envelope.
  cbn [decodePreviewSignatureField nonempty coalesce].
  rewrite E1. cbv zeta. cbn [truthy negb].
  assert (Fc : field (VObj (envelope_signed base secret)) "content_hash"
               = VStr (calculateHashBuffer b)) by (rewrite <- E1; exact E2).
  assert (Fm : field (VObj (envelope_signed base secret)) "metadata" = m).
  { unfold envelope_signed. destruct (nonempty secret); reflexivity. }
  assert (Fh : field (VObj (envelope_signed base secret)) "metadata_hash" = VStr mh).
  { unfold envelope_signed. destruct (nonempty secret); reflexivity. }
  rewrite Fc, Fm, Fh, !str_differs_same.
  unfold envelope_signed. destruct (nonempty secret) as [s|] eqn:K.
  - replace (field (VObj (base ++ [("hmac", VStr (createHmac s
               (template (deterministicStringify (VObj base)))))])) "hmac")
      with (VStr (createHmac s (template (deterministicStringify (VObj base)))))
      by reflexivity.
    rewrite truthy_hmac.
    rewrite hmac_text_envelope by apply envelope_base_no_hmac.
    rewrite str_differs_same. reflexivity.
  - reflexivity.
Qed.

(** With a file that does not end in a carriage return, all three checks pass. *)
Lemma attach_then_sign (clock : Date) (b : Buffer) (m : value) (secret : option string) :
  wf_value m -> json_stable m -> ends_with_cr b = false ->
  exists r,
    attachPreviewEnvelope clock b m secret = Ok r /\
    signDocument_checks secret (Some (buffer r)) None = Ok (Verified (envelope r)).
Proof.
  intros W S C.
  destruct (attach_then_checks clock b m secret W S) as (r & A & E).
  destruct (extract_attached clock b m secret W) as (r' & A' & _ & _ & U).
  rewrite A in A'. injection A' as <-.
  exists r. split; [exact A|]. rewrite E, U, C, firstn_all, str_differs_same. reflexivity.
Qed.

(** * An envelope altered after issuance *)




(** * The export *)




Lemma nth_error_map_indexed {A B : Type} (f : A -> nat -> B) (l : list A) (start i : nat) :
  nth_error (map_indexed f l start) i
  = option_map (fun x => f x (start + i)%nat) (nth_error l i).
Proof.
  revert start i. induction l as [|x l IH]; intros start [|i]; cbn [map_indexed nth_error option_map];
    try reflexivity.
  - now rewrite Nat.add_0_r.
  - rewrite IH. destruct (nth_error l i); cbn [option_map]; [|reflexivity].
    do 2 f_equal. lia.
Qed.




(** * Extraction degrades *)





(** * Keys whose value is undefined *)

Lemma join_occurs (sep x : string) (l : list string) :
  In x l -> occurs_in x (join sep l).
Proof.
  induction l as [|y l IH]; [intros []|]. intros [->|I].
  - destruct l as [|z l].
    + exists "", "". cbn [join append]. now rewrite append_empty_r.
    + exists "", (sep ++ join sep (z :: l)). reflexivity.
  - destruct l as [|z l]; [destruct I|].
    destruct (IH I) as (pre & post & E). rewrite join_cons2, E.
    exists (y ++ sep ++ pre), post. now rewrite !append_assoc.
Qed.

Lemma get_prop_nodup (props : list (string * value)) (k : string) (v : value) :
  NoDup (keys props) -> In (k, v) props -> get_prop props k = v.
Proof.
  induction props as [|[k' v'] props IH]; [intros _ []|].
  cbn [keys map fst]. intros N I. inversion N as [|? ? Hk N']; subst. cbn [get_prop].
  destruct I as [E|I].
  - injection E as -> ->. now rewrite String.eqb_refl.
  - destruct (String.eqb_spec k' k) as [->|_].
    + exfalso. apply Hk. change k with (fst (k, v)). now apply in_map.
    + now apply IH.
Qed.

(** A property that holds [undefined] is written out by the serializer with
    the word [undefined]. *)
Lemma undefined_is_written (props : list (string * value)) (k : string) :
  NoDup (keys props) -> In (k, VUndefined) props ->
  exists pre post,
    deterministicStringify (VObj props)
    = Some (pre ++ (quote k ++ ":undefined") ++ post).
Proof.
  intros N I. rewrite deterministicStringify_object.
  assert (Ik : In k (sort_keys (keys props))).
  { eapply Permutation_in; [symmetry; apply sort_keys_perm|].
    change k with (fst (k, VUndefined)). now apply in_map. }
  pose proof (in_map (fun k0 => quote k0 ++ ":"
                 ++ template (deterministicStringify (get_prop props k0))) _ _ Ik) as Im.
  cbv beta in Im. rewrite (get_prop_nodup props k VUndefined N I) in Im.
  destruct (join_occurs "," _ _ Im) as (pre & post & E). rewrite E.
  exists ("{" ++ pre), (post ++ "}"). cbn [deterministicStringify JSON_stringify template].
  now rewrite !append_assoc.
Qed.

(** The JSON round trip leaves such a property out. *)
Lemma undefined_is_dropped (props : list (string * value)) (k : string) :
  wf_value (VObj props) -> In (k, VUndefined) props ->
  normalize (VObj props) = Some (VObj (image_props props)) /\
  ~ In k (keys (image_props props)).
Proof.
  intros W I. split; [apply normalize_image; [exact W | discriminate]|].
  inversion W as [| | | | | | ? N _]; subst. intros Hk.
  unfold keys in Hk. apply in_map_iff in Hk as ([k' x] & E & Hx). cbn [fst] in E. subst k'.
  apply image_props_keys_in in Hx as (v & Iv & D & _).
  rewrite <- (get_prop_nodup props k v N Iv) in D.
  now rewrite (get_prop_nodup props k VUndefined N I) in D.
Qed.

Lemma hashes_differ_example :
  normalize (VObj [("a", VUndefined)]) = Some (VObj []) /\
  calculateObjectHash (VObj [("a", VUndefined)]) <> calculateObjectHash (VObj []).
Proof. split; [reflexivity|]. vm_compute. discriminate. Qed.

(** * What the serializer writes for such an object is not JSON *)

Lemma parse_value_zero (s : string) : parse_value 0 s = None.
Proof. reflexivity. Qed.

Lemma parse_value_refuses (c : ascii) (r : string) (fuel : nat) :
  c = ","%char \/ c = "]"%char \/ c = "}"%char \/ c = "u"%char ->
  parse_value fuel (String c r) = None.
Proof.
  destruct fuel as [|f]; [reflexivity|]. rewrite parse_value_unfold.
  intros [ -> | [ -> | [ -> | -> ] ] ]; reflexivity.
Qed.

Lemma ds_text_defined (v : value) : v <> VUndefined -> ds_item v = ds_text v.
Proof.
  intros D. unfold ds_item, ds_text. now rewrite (deterministicStringify_defined v D).
Qed.

Lemma ds_text_start (v : value) : wf_value v -> v <> VUndefined -> value_start (ds_text v) = true.
Proof.
  intros W D. destruct v as [| | [|] | n | s | l | props]; try reflexivity.
  exact (elem_text_start (VNum n) W).
Qed.

Lemma read_elements (l : list value) :
  l <> [] -> Forall read_exactly l ->
  forall rest fuel, delimited rest = true ->
    parse_elements fuel (join "," (map ds_item l) ++ String "]" rest) = None \/
    exists ws, parse_elements fuel (join "," (map ds_item l) ++ String "]" rest)
               = Some (ws, rest).
Proof.
  induction l as [|x l IHl]; [congruence|].
  intros _ HF rest fuel Hr. inversion HF as [|x' l' Hx Hl]; subst.
  destruct fuel as [|f]; [now left|]. rewrite parse_elements_unfold.
  destruct (value_eq_undefined x) as [-> | D].
  - left. destruct l as [|y l]; cbn [map join ds_item deterministicStringify JSON_stringify
                                       join_item append];
      rewrite parse_value_refuses; auto.
  - destruct l as [|y l].
    + cbn [map join]. rewrite (ds_text_defined x D).
      destruct (Hx (String "]" rest) f eq_refl) as [-> | [w ->]]; [now left|].
      right. exists [w]. reflexivity.
    + cbn [map]. rewrite join_cons2, (ds_text_defined x D), !append_assoc. cbn [append].
      destruct (Hx (String "," (join "," (ds_item y :: map ds_item l) ++ String "]" rest))
                  f eq_refl) as [-> | [w ->]]; [now left|].
      cbn [skip_ws is_ws Ascii.eqb Bool.eqb orb].
      change (ds_item y :: map ds_item l) with (map ds_item (y :: l)).
      destruct (IHl ltac:(discriminate) Hl rest f Hr) as [-> | [ws ->]]; [now left|].
      right. exists (w :: ws). reflexivity.
Qed.

Lemma parse_members_entry (props : list (string * value)) (k : string) (tail : string)
    (f : nat) :
  parse_members (S f) (entry_of props k ++ tail) =
  match parse_value f (ds_text (get_prop props k) ++ tail) with
  | None => None
  | Some (v, r3) =>
      match skip_ws r3 with
      | String d r4 =>
          if (d =? ",")%char then
            match parse_members f r4 with
            | Some (ms, r5) => Some ((k, v) :: ms, r5)
            | None => None
            end
          else if (d =? "}")%char then Some ([(k, v)], r4)
          else None
      | EmptyString => None
      end
  end.
Proof.
  rewrite parse_members_unfold. unfold entry_of, quote. rewrite !append_assoc.
  cbn [append skip_ws].
  replace (is_ws dquote) with false by reflexivity.
  replace (dquote =? dquote)%char with true by reflexivity.
  rewrite append_assoc. cbn [append]. rewrite parse_string_body_escape.
  cbn [append skip_ws is_ws Ascii.eqb Bool.eqb orb]. reflexivity.
Qed.

Lemma read_members (props : list (string * value)) (ks : list string) :
  ks <> [] -> Forall (fun k => read_exactly (get_prop props k)) ks ->
  forall rest fuel, delimited rest = true ->
    (parse_members fuel (join "," (map (entry_of props) ks) ++ String "}" rest) = None \/
     exists ms, parse_members fuel (join "," (map (entry_of props) ks) ++ String "}" rest)
                = Some (ms, rest)) /\
    ((exists k, In k ks /\ get_prop props k = VUndefined) ->
     parse_members fuel (join "," (map (entry_of props) ks) ++ String "}" rest) = None).
Proof.
  induction ks as [|k ks IH]; [congruence|].
  intros _ HF rest fuel Hr. inversion HF as [|k' l' Hk Hl]; subst.
  destruct fuel as [|f]; [split; [now left | reflexivity]|].
  destruct ks as [|k2 ks].
  - cbn [map join]. rewrite parse_members_entry.
    destruct (Hk (String "}" rest) f eq_refl) as [E | [w E]]; rewrite E.
    + split; [now left | reflexivity].
    + cbn [skip_ws is_ws Ascii.eqb Bool.eqb orb]. split; [right; now exists [(k, w)]|].
      intros (k0 & [<-|[]] & U). exfalso. rewrite U in E.
      cbn [ds_text deterministicStringify JSON_stringify template append] in E.
      now rewrite parse_value_refuses in E by auto.
  - cbn [map]. rewrite join_cons2, !append_assoc. cbn [append].
    rewrite parse_members_entry.
    change (entry_of props k2 :: map (entry_of props) ks)
      with (map (entry_of props) (k2 :: ks)).
    destruct (IH ltac:(discriminate) Hl rest f Hr) as [IH1 IH2].
    destruct (Hk (String "," (join "," (map (entry_of props) (k2 :: ks)) ++ String "}" rest))
                f eq_refl) as [E | [w E]]; rewrite E.
    + split; [now left | reflexivity].
    + cbn [skip_ws is_ws Ascii.eqb Bool.eqb orb]. split.
      * destruct IH1 as [-> | [ms ->]]; [now left | right; now exists ((k, w) :: ms)].
      * intros (k0 & [<-|I] & U).
        -- exfalso. rewrite U in E.
           cbn [ds_text deterministicStringify JSON_stringify template append] in E.
           now rewrite parse_value_refuses in E by auto.
        -- rewrite IH2; [reflexivity | now exists k0].
Qed.

Lemma join_items_start (l : list value) :
  l <> [] -> Forall wf_value l ->
  join "," (map ds_item l) = "" \/ value_start (join "," (map ds_item l)) = true.
Proof.
  intros NE W. destruct l as [|x l]; [congruence|]. inversion W as [|? ? Wx _]; subst.
  destruct (value_eq_undefined x) as [-> | D].
  - destruct l; [now left | right; reflexivity].
  - right. pose proof (ds_text_start x Wx D) as S. rewrite <- (ds_text_defined x D) in S.
    destruct l; cbn [map join]; [exact S|].
    destruct (ds_item x); [discriminate | exact S].
Qed.

Lemma read_exactly_all (v : value) : wf_value v -> read_exactly v.
Proof.
  induction v as [| | b | n | s | l IHl | props IHp] using value_ind'; intros W rest fuel Hr.
  - left. apply parse_value_refuses. auto.
  - destruct fuel; [now left|]. right. exists VNull. reflexivity.
  - destruct fuel; [now left|]. right. exists (VBool b). destruct b; reflexivity.
  - destruct fuel as [|f]; [now left|]. right. exists (VNum n).
    exact (reparses_all (VNum n) W rest (S f) Hr ltac:(simpl; lia)).
  - destruct fuel as [|f]; [now left|]. right. exists (VStr s). apply parse_quote.
  - inversion W as [| | | | | l' Wl |]; subst.
    assert (HF : Forall read_exactly l).
    { rewrite Forall_forall in *. intros x Hx. apply IHl; [exact Hx | now apply Wl]. }
    destruct fuel as [|f]; [now left|].
    unfold ds_text. rewrite deterministicStringify_array. cbn [template].
    change (map (fun x => join_item (deterministicStringify x)) l) with (map ds_item l).
    rewrite parse_value_unfold. rewrite !append_assoc.
    cbn [append skip_ws is_ws Ascii.eqb Bool.eqb orb].
    destruct l as [|x l].
    + cbn [map join append skip_ws is_ws Ascii.eqb Bool.eqb orb]. right. now exists (VArr []).
    + destruct (join_items_start (x :: l) ltac:(discriminate) Wl) as [E | S].
      * rewrite E. cbn [append skip_ws is_ws Ascii.eqb Bool.eqb orb].
        right. now exists (VArr []).
      * rewrite (value_start_skip_ws _ _ S).
        destruct (join "," (map ds_item (x :: l))) as [|c0 r0] eqn:J; [discriminate|].
        cbn [append]. cbn [value_start] in S.
        destruct (c0 =? "]")%char; [rewrite !andb_false_r in S; simpl in S; discriminate|].
        change (String c0 (r0 ++ String "]" rest)) with (String c0 r0 ++ String "]" rest).
        rewrite <- J.
        destruct (read_elements (x :: l) ltac:(discriminate) HF rest f Hr) as [-> | [ws ->]];
          [now left | right; now exists (VArr ws)].
  - inversion W as [| | | | | | props' Wk Wp]; subst.
    assert (HF : Forall (fun k => read_exactly (get_prop props k)) (sort_keys (keys props))).
    { rewrite Forall_forall in *. intros k Hk.
      apply (Permutation_in _ (sort_keys_perm _)) in Hk.
      pose proof (get_prop_in props k Hk) as I.
      apply (IHp _ I). exact (Wp _ I). }
    destruct fuel as [|f]; [now left|].
    unfold ds_text. rewrite deterministicStringify_object. cbn [template].
    change (map (fun k => quote k ++ ":" ++ template (deterministicStringify (get_prop props k)))
                (sort_keys (keys props)))
      with (map (entry_of props) (sort_keys (keys props))).
    rewrite parse_value_unfold. rewrite !append_assoc.
    cbn [append skip_ws is_ws Ascii.eqb Bool.eqb orb].
    destruct (sort_keys (keys props)) as [|k ks] eqn:Ks.
    + cbn [map join append skip_ws is_ws Ascii.eqb Bool.eqb orb]. right. now exists (VObj []).
    + assert (Hq : exists t, join "," (map (entry_of props) (k :: ks)) = String dquote t).
      { destruct ks; cbn [map join]; unfold entry_of, quote; cbn [append]; eexists; reflexivity. }
      destruct Hq as [t Ht]. rewrite Ht. cbn [append skip_ws].
      replace (is_ws dquote) with false by reflexivity.
      replace (dquote =? "}")%char with false by reflexivity.
      change (String dquote (t ++ String "}" rest)) with (String dquote t ++ String "}" rest).
      rewrite <- Ht.
      destruct (read_members props (k :: ks) ltac:(discriminate) HF rest f Hr)
        as [[-> | [ms ->]] _]; [now left | right; now exists (obj_of_members ms)].
Qed.

Lemma undefined_is_not_json (props : list (string * value)) (k : string) :
  wf_value (VObj props) -> In (k, VUndefined) props ->
  JSON_parse (ds_text (VObj props)) = None.
Proof.
  intros W I. inversion W as [| | | | | | props' Wk Wp]; subst.
  assert (HF : Forall (fun k => read_exactly (get_prop props k)) (sort_keys (keys props))).
  { rewrite Forall_forall in *. intros k0 Hk.
    apply (Permutation_in _ (sort_keys_perm _)) in Hk.
    pose proof (get_prop_in props k0 Hk) as I0.
    apply read_exactly_all. exact (Wp _ I0). }
  assert (Ik : In k (sort_keys (keys props))).
  { eapply Permutation_in; [symmetry; apply sort_keys_perm|].
    change k with (fst (k, VUndefined)). now apply in_map. }
  unfold JSON_parse.
  replace (2 * String.length (ds_text (VObj props)) + 2)%nat
    with (S (2 * String.length (ds_text (VObj props)) + 1))%nat by lia.
  set (f := (2 * String.length (ds_text (VObj props)) + 1)%nat). clearbody f.
  unfold ds_text. rewrite deterministicStringify_object. cbn [template].
  change (map (fun k => quote k ++ ":" ++ template (deterministicStringify (get_prop props k)))
              (sort_keys (keys props)))
    with (map (entry_of props) (sort_keys (keys props))).
  rewrite parse_value_unfold. cbn [append skip_ws is_ws Ascii.eqb Bool.eqb orb].
  destruct (sort_keys (keys props)) as [|k1 ks] eqn:Ks; [destruct Ik|].
  assert (Hq : exists t, join "," (map (entry_of props) (k1 :: ks)) = String dquote t).
  { destruct ks; cbn [map join]; unfold entry_of, quote; cbn [append]; eexists; reflexivity. }
  destruct Hq as [t Ht]. rewrite Ht. cbn [append skip_ws].
  replace (is_ws dquote) with false by reflexivity.
  replace (dquote =? "}")%char with false by reflexivity.
  change (String dquote (t ++ "}")) with (String dquote t ++ String "}" "").
  rewrite <- Ht.
  destruct (read_members props (k1 :: ks) ltac:(discriminate) HF "" f eq_refl) as [_ N].
  rewrite N; [reflexivity|]. exists k. split; [exact Ik|].
  now apply get_prop_nodup.
Qed.

(** * Ledgers appended in step, and out of step *)

Lemma order_asc_id (l : list DocumentBlock) : strictly_chronological l -> order_asc l = l.
Proof.
  induction l as [|x l IH]; intros S; [reflexivity|].
  inversion S as [|? ? Sl Hx]; subst. cbn [order_asc fold_right]. fold (order_asc l).
  rewrite (IH Sl). destruct l as [|y l]; [reflexivity|]. cbn [insert_asc].
  inversion Hx as [|? ? Hy _]; subst.
  destruct (Z.leb_spec (created_at x) (created_at y)); [reflexivity | lia].
Qed.

Lemma strictly_chronological_snoc (l : list DocumentBlock) (b : DocumentBlock) :
  strictly_chronological l -> (forall x, In x l -> (created_at x < created_at b)%Z) ->
  strictly_chronological (l ++ [b]).
Proof.
  unfold strictly_chronological. induction l as [|x l IH]; intros S H; cbn [app].
  - repeat constructor.
  - inversion S as [|? ? Sl Hx]; subst. constructor.
    + apply IH; [exact Sl | intros y Hy; apply H; now right].
    + apply Forall_app. split; [exact Hx|]. constructor; [|constructor].
      apply H. now left.
Qed.

Lemma strictly_chronological_last (l : list DocumentBlock) (b p : DocumentBlock) :
  strictly_chronological (l ++ [b]) -> In p (l ++ [b]) ->
  (forall x, In x (l ++ [b]) -> (created_at x <= created_at p)%Z) -> p = b.
Proof.
  unfold strictly_chronological. intros S I M.
  apply in_app_or in I as [I | [<- | []]]; [|reflexivity]. exfalso.
  assert (L : (created_at p < created_at b)%Z).
  { clear M. induction l as [|x l IH]; [destruct I|]. cbn [app] in S.
    inversion S as [|? ? Sl Hx]; subst. destruct I as [-> | I].
    - rewrite Forall_forall in Hx. apply Hx. apply in_or_app. right. now left.
    - now apply IH. }
  specialize (M b ltac:(apply in_or_app; right; now left)). lia.
Qed.

Lemma latest_of_snoc (next : Z) (l : list DocumentBlock) (b : DocumentBlock) :
  strictly_chronological (l ++ [b]) ->
  findOne_latest {| rows := l ++ [b]; next_id := next |} = Some b.
Proof.
  intros S. destruct (findOne_latest {| rows := l ++ [b]; next_id := next |}) as [p|] eqn:E.
  - destruct (findOne_latest_some _ _ E) as [I M]. cbn [rows] in I, M.
    f_equal. eapply strictly_chronological_last; eassumption.
  - apply findOne_latest_none in E. cbn [rows] in E. destruct l; discriminate.
Qed.

Lemma link_problem_linked (l : list DocumentBlock) :
  linked l -> forall i b, nth_error l i = Some b -> link_problem l i b = [].
Proof.
  intros L i b H. specialize (L i b H). unfold link_problem. destruct i as [|j].
  - now rewrite L.
  - destruct L as (p & -> & ->). cbn [differs]. now rewrite String.eqb_refl.
Qed.

Lemma all_problems_none (l : list DocumentBlock) :
  (forall b, In b l -> recomputed_hash b = hash b) -> linked l -> all_problems l = [].
Proof.
  intros H L. unfold all_problems.
  assert (G : forall (rest : list DocumentBlock) start,
             (forall i b, nth_error rest i = Some b -> nth_error l (start + i) = Some b) ->
             List.concat (map_indexed (problems_of l) rest start) = []).
  { induction rest as [|x rest IH]; intros start N; [reflexivity|].
    cbn [map_indexed List.concat].
    pose proof (N 0%nat x eq_refl) as Nx. rewrite Nat.add_0_r in Nx.
    unfold problems_of at 1, hash_problem.
    rewrite (H x (nth_error_In _ _ Nx)), String.eqb_refl.
    rewrite (link_problem_linked l L _ _ Nx). cbn [app].
    apply IH. intros i b Hb. specialize (N (S i) b Hb).
    now replace (S start + i)%nat with (start + S i)%nat by lia. }
  apply G. intros i b Hb. exact Hb.
Qed.

Lemma sound_empty : sound empty_store.
Proof.
  repeat split.
  - constructor.
  - constructor.
  - intros b [].
  - intros [|i] b H; discriminate H.
Qed.

Lemma sound_step (st st' : Store) (t : Date) (d ch sd : string) (m : value)
    (b : DocumentBlock) :
  sound st -> wf_value m ->
  (forall x, In x (rows st) -> (created_at x < t)%Z) ->
  createBlock st t t d ch sd m = Ok (st', b) ->
  sound st'.
Proof.
  intros (W & Sc & H & L) Wm Ht C.
  apply createBlock_inv in C as (nm & N & Eb & -> & _).
  assert (Dm : m <> VUndefined) by (intros ->; discriminate N).
  rewrite (normalize_image m Wm Dm) in N. injection N as <-.
  assert (Tb : created_at b = t) by (rewrite Eb; reflexivity).
  assert (S' : strictly_chronological (rows st ++ [b])).
  { apply strictly_chronological_snoc; [exact Sc|]. intros x Hx. rewrite Tb. now apply Ht. }
  repeat split; cbn [rows].
  - unfold store_wf. cbn [rows]. apply Forall_app. split; [exact W|]. constructor; [|constructor].
    rewrite Eb. cbn [metadata]. split; [now apply wf_json_image | apply json_image_defined].
  - exact S'.
  - intros x Hx. apply in_app_or in Hx as [Hx | [<- | []]]; [now apply H|].
    rewrite Eb. unfold recomputed_hash, block_text.
    cbn [document_id previous_hash content_hash signature_data metadata created_at hash].
    now rewrite json_image_idempotent.
  - intros i x Hx. destruct (Nat.lt_ge_cases i (List.length (rows st))) as [Lt | Ge].
    + rewrite nth_error_app1 in Hx by exact Lt. specialize (L i x Hx).
      destruct i as [|j]; [exact L|]. destruct L as (p & Hp & E). exists p.
      split; [|exact E]. rewrite nth_error_app1 by lia. exact Hp.
    + rewrite nth_error_app2 in Hx by exact Ge.
      destruct (i - List.length (rows st))%nat as [|k] eqn:K;
        [| destruct k; discriminate Hx].
      cbn [nth_error] in Hx. injection Hx as <-.
      assert (Ei : i = List.length (rows st)) by lia. subst i.
      destruct (rows st) as [|r0 rs] eqn:R using rev_ind.
      * cbn [List.length]. rewrite Eb. cbn [previous_hash].
        rewrite (proj2 (findOne_latest_none st) R). reflexivity.
      * clear IHrs. rewrite length_app. cbn [List.length].
        replace (List.length rs + 1)%nat with (S (List.length rs)) by lia.
        exists r0. split.
        -- rewrite nth_error_app1 by (rewrite length_app; cbn [List.length]; lia).
           rewrite nth_error_app2 by lia. now rewrite Nat.sub_diag.
        -- rewrite Eb. cbn [previous_hash].
           destruct st as [rws nxt]. cbn [rows] in *. subst rws.
           now rewrite latest_of_snoc.
Qed.

Lemma appended_in_step_sound (st : Store) : appended_in_step st -> sound st.
Proof.
  induction 1 as [| st st' t d ch sd m b _ IH Wm Ht C]; [apply sound_empty|].
  eapply sound_step; eassumption.
Qed.

(** X1: a ledger written by [createBlock] alone verifies, and is linked, when
    each append reads one instant for the hashed timestamp and for
    [created_at], later than the instants already stored. *)
Theorem appended_in_step_verifies (st : Store) :
  appended_in_step st ->
  verifyBlockchain st = Ok {| valid := true; errors := [] |} /\ linked (findAll_asc st).
Proof.
  intros A. destruct (appended_in_step_sound st A) as (W & S & H & L).
  rewrite (verifyBlockchain_spec st W). unfold findAll_asc. rewrite (order_asc_id _ S).
  rewrite (all_problems_none _ H L). split; [reflexivity | exact L].
Qed.

(** C1: not every ledger that [createBlock] wrote verifies.  One append on
    the empty ledger, the clock one millisecond further at the insert than
    at the timestamp that was hashed: the ledger was written by
    [createBlock] alone and verification reports an invalid hash. *)
Theorem append_out_of_step_fails :
  exists st b,
    createBlock empty_store new_year_2024 (new_year_2024 + 1)%Z "doc-1" "aaa" "[]" (VObj [])
    = Ok (st, b) /\
    appended st /\
    verifyBlockchain st
    = Ok {| valid := false; errors := ["Block 1 has invalid hash"] |}.
Proof.
  evaluate E (createBlock empty_store new_year_2024 (new_year_2024 + 1)%Z "doc-1" "aaa" "[]"
                (VObj [])).
  match type of E with _ = Ok (?s, ?x) => exists s, x end.
  split; [exact E|]. split.
  - exact (appended_block _ _ _ _ _ _ _ _ _ appended_empty E).
  - vm_compute. reflexivity.
Qed.

(** * The last occurrence of the marker *)

Lemma lastIndexOf_from_last (tag buf : Buffer) (i : nat) (found : option nat) (k : nat) :
  lastIndexOf_from tag buf i found = Some k ->
  (found = Some k /\
   forall j, (j < List.length buf)%nat -> starts_with tag (skipn j buf) = false) \/
  (exists j, k = (i + j)%nat /\ (j < List.length buf)%nat /\
             starts_with tag (skipn j buf) = true /\
             forall j', (j < j' < List.length buf)%nat ->
                        starts_with tag (skipn j' buf) = false).
Proof.
  revert i found. induction buf as [|x buf IH]; intros i found H.
  - left. split; [exact H | intros j Hj; inversion Hj].
  - cbn [lastIndexOf_from] in H. apply IH in H as [(F & N) | (j & -> & Lt & St & N)].
    + destruct (starts_with tag (x :: buf)) eqn:S0.
      * right. exists 0%nat. injection F as <-. repeat split.
        -- lia.
        -- cbn [List.length]. lia.
        -- exact S0.
        -- intros [|j'] Hj; [lia|]. cbn [skipn]. apply N. cbn [List.length] in Hj. lia.
      * left. split; [exact F|]. intros [|j] Hj; [exact S0|].
        cbn [skipn]. apply N. cbn [List.length] in Hj. lia.
    + right. exists (S j). repeat split.
      * lia.
      * cbn [List.length]. lia.
      * exact St.
      * intros [|j'] Hj; [lia|]. cbn [skipn]. apply N. cbn [List.length] in Hj. lia.
Qed.

(** X4: [lastIndexOf] answers with an offset inside the buffer at which the
    tag is read, and the tag is read at no later offset. *)
Theorem lastIndexOf_last (buf tag : Buffer) (k : nat) :
  lastIndexOf buf tag = Some k ->
  (k < List.length buf)%nat /\
  starts_with tag (skipn k buf) = true /\
  forall j, (k < j < List.length buf)%nat -> starts_with tag (skipn j buf) = false.
Proof.
  intros H. apply lastIndexOf_from_last in H as [(F & _) | (j & -> & Lt & St & N)];
    [discriminate F|]. cbn [Nat.add]. auto.
Qed.

(** * The properties of the specification, and their instances *)

(** Two appends in step, five milliseconds apart. *)
Lemma appended_in_step_verifies_witness :
  exists st1 b1 st2 b2,
    createBlock empty_store new_year_2024 new_year_2024 "doc-1" "aaa" "[]" (VObj [])
    = Ok (st1, b1) /\
    createBlock st1 (new_year_2024 + 5)%Z (new_year_2024 + 5)%Z "doc-2" "bbb" "[]"
      (VObj [("title", VStr "Lease")])
    = Ok (st2, b2) /\
    verifyBlockchain st2 = Ok {| valid := true; errors := [] |} /\
    linked (findAll_asc st2).
Proof.
  evaluate E1 (createBlock empty_store new_year_2024 new_year_2024 "doc-1" "aaa" "[]"
                 (VObj [])).
  match type of E1 with _ = Ok (?s, ?b) => set (st1 := s) in *; set (b1 := b) in * end.
  evaluate E2 (createBlock st1 (new_year_2024 + 5)%Z (new_year_2024 + 5)%Z "doc-2" "bbb" "[]"
                 (VObj [("title", VStr "Lease")])).
  match type of E2 with _ = Ok (?s, ?b) => set (st2 := s) in *; set (b2 := b) in * end.
  exists st1, b1, st2, b2. split; [exact E1|]. split; [exact E2|].
  apply appended_in_step_verifies.
  refine (in_step_block st1 st2 _ _ _ _ _ b2 _ _ _ E2).
  - refine (in_step_block empty_store st1 _ _ _ _ _ b1 in_step_empty _ _ E1).
    + repeat constructor.
    + intros x [].
  - repeat constructor. simpl. tauto.
  - intros x [<- | []]. reflexivity.
Defined.

(** C2 (as amended): for every buffer [b] and metadata [m], the envelope is
    attached after [b], extraction finds the marker right after the line
    feed that follows [b], the extracted [content_hash] is the SHA-256 of
    [b], and the unsigned bytes are [b] itself unless [b] ends in a carriage
    return, in which case they are [b] without that last byte. *)
Theorem envelope_round_trip (clock : Date) (b : Buffer) (m : value) (secret : option string) :
  wf_value m ->
  exists r,
    attachPreviewEnvelope clock b m secret = Ok r /\
    buffer r = (b ++ marker_bytes (encodedEnvelope r))%list /\
    lastIndexOf (buffer r) markerTag = Some (S (List.length b)) /\
    field (extracted (extractPreviewEnvelope (buffer r))) "content_hash"
      = VStr (calculateHashBuffer b) /\
    (ends_with_cr b = false -> unsignedBuffer (extractPreviewEnvelope (buffer r)) = b) /\
    (ends_with_cr b = true ->
     unsignedBuffer (extractPreviewEnvelope (buffer r)) = removelast b).
Proof.
  intros W. destruct (extract_attached clock b m secret W) as (r & A & _ & C & U).
  exists r. split; [exact A|].
  pose proof (attach_result clock b m secret) as R. cbv zeta in R.
  rewrite R in A. injection A as <-. cbn [buffer encodedEnvelope] in *.
  split; [reflexivity|]. split; [apply lastIndexOf_attached, toString_base64_text|].
  split; [exact C|]. rewrite U. split; intros ->.
  - apply firstn_all.
  - symmetry. rewrite Nat.sub_1_r. apply removelast_firstn_len.
Qed.

(** A signed envelope attached to five bytes that end in a line feed. *)
Lemma envelope_round_trip_witness :
  exists r,
    attachPreviewEnvelope new_year_2024 [x25; x50; x44; x46; x0a] (VObj [("title", VStr "Lease")])
      (Some "secret") = Ok r /\
    unsignedBuffer (extractPreviewEnvelope (buffer r)) = [x25; x50; x44; x46; x0a] /\
    field (extracted (extractPreviewEnvelope (buffer r))) "content_hash"
    = VStr (calculateHashBuffer [x25; x50; x44; x46; x0a]).
Proof.
  destruct (envelope_round_trip new_year_2024 [x25; x50; x44; x46; x0a]
              (VObj [("title", VStr "Lease")]) (Some "secret"))
    as (r & A & _ & _ & C & U & _).
  - repeat constructor. simpl. tauto.
  - exists r. split; [exact A|]. split; [apply U; reflexivity | exact C].
Defined.

(** C2, the case that fails: a buffer that ends in a carriage return comes
    back without it. *)
Lemma carriage_return_is_lost :
  exists r,
    attachPreviewEnvelope new_year_2024 [x25; x0d] (VObj []) None = Ok r /\
    unsignedBuffer (extractPreviewEnvelope (buffer r)) = [x25] /\
    unsignedBuffer (extractPreviewEnvelope (buffer r)) <> [x25; x0d].
Proof.
  evaluate A (attachPreviewEnvelope new_year_2024 [x25; x0d] (VObj []) None).
  match type of A with _ = Ok ?x => exists x end.
  split; [exact A|]. split; [vm_compute; reflexivity | vm_compute; discriminate].
Qed.




(** Two appends: the first block names no hash, the second names the hash of
    the first. *)
Lemma createBlock_links_to_latest_witness :
  exists st1 b1 st2 b2,
    createBlock empty_store new_year_2024 (new_year_2024 + 2)%Z "doc-1" "aaa" "[]" (VObj [])
    = Ok (st1, b1) /\
    createBlock st1 (new_year_2024 + 5)%Z (new_year_2024 + 9)%Z "doc-2" "bbb" "[]" (VObj [])
    = Ok (st2, b2) /\
    previous_hash b1 = None /\
    previous_hash b2 = Some (hash b1) /\
    rows st2 = [b1; b2].
Proof.
  evaluate E1 (createBlock empty_store new_year_2024 (new_year_2024 + 2)%Z "doc-1" "aaa" "[]"
                 (VObj [])).
  match type of E1 with _ = Ok (?s, ?b) => set (st1 := s) in *; set (b1 := b) in * end.
  evaluate E2 (createBlock st1 (new_year_2024 + 5)%Z (new_year_2024 + 9)%Z "doc-2" "bbb" "[]"
                 (VObj [])).
  match type of E2 with _ = Ok (?s, ?b) => set (st2 := s) in *; set (b2 := b) in * end.
  exists st1, b1, st2, b2. split; [exact E1|]. split; [exact E2|].
  destruct (createBlock_links_to_latest _ _ _ _ _ _ _ _ _ E1) as (_ & First & _).
  destruct (createBlock_links_to_latest _ _ _ _ _ _ _ _ _ E2) as (R & _ & Next).
  split; [exact (First eq_refl)|]. split; [| exact R].
  destruct Next as (last & [<- | []] & _ & _ & P); [discriminate | exact P].
Defined.



(** A ledger of one block that verifies, and its [content_hash] changed. *)
Lemma tamper_detected_witness :
  exists st b r,
    createBlock empty_store new_year_2024 new_year_2024 "doc-1" "aaa" "[]" (VObj [])
    = Ok (st, b) /\
    verifyBlockchain st = Ok {| valid := true; errors := [] |} /\
    verifyBlockchain (tamper st 0 (SetContentHash "bbb")) = Ok r /\
    valid r = false /\
    In "Block 1 has invalid hash" (errors r).
Proof.
  evaluate E (createBlock empty_store new_year_2024 new_year_2024 "doc-1" "aaa" "[]"
                (VObj [])).
  match type of E with _ = Ok (?s, ?x) => set (st := s) in *; set (b := x) in * end.
  assert (V : verifyBlockchain st = Ok {| valid := true; errors := [] |})
    by (vm_compute; reflexivity).
  destruct (tamper_detected st 0 b (SetContentHash "bbb")) as (r & T & F & I).
  - repeat constructor. discriminate.
  - exact V.
  - reflexivity.
  - discriminate.
  - intros H. exfalso. apply String.eqb_eq in H. revert H. vm_compute. discriminate.
  - exists st, b, r. split; [exact E|]. split; [exact V|]. split; [exact T|].
    split; [exact F | exact I].
Defined.

(** C7: [verifyBlockchain] reads the blocks in the order of [created_at] and
    returns every problem of every block, in that order: for each block its
    hash problem, then its link problem (for the first block, a
    [previous_hash] that is not null); [valid] says that the list is empty. *)
Theorem verifyBlockchain_reports_all (st : Store) :
  store_wf st ->
  chronological (findAll_asc st) /\
  Permutation (findAll_asc st) (rows st) /\
  verifyBlockchain st
  = Ok {| valid := match all_problems (findAll_asc st) with [] => true | _ => false end;
          errors := all_problems (findAll_asc st) |} /\
  (forall i b msg,
     nth_error (findAll_asc st) i = Some b ->
     In msg (problems_of (findAll_asc st) b i) ->
     exists r, verifyBlockchain st = Ok r /\ In msg (errors r)).
Proof.
  intros W. split; [apply order_asc_sorted|]. split; [apply order_asc_perm|].
  pose proof (verifyBlockchain_spec st W) as E. split; [exact E|].
  intros i b msg N I. eexists. split; [exact E|]. cbn [errors].
  unfold all_problems. apply in_concat. exists (problems_of (findAll_asc st) b i).
  split; [|exact I]. apply (nth_error_In _ i).
  rewrite nth_error_map_indexed, N. reflexivity.
Qed.

(** Four problems in two rows, all reported, in order. *)
Lemma verifyBlockchain_reports_all_witness :
  verifyBlockchain broken_ledger
  = Ok {| valid := false;
          errors := [ "Block 1 has invalid hash";
                      "First block 1 should have null previous_hash";
                      "Block 2 has invalid hash";
                      "Block 2 has invalid previous hash link" ] |}.
Proof.
  destruct (verifyBlockchain_reports_all broken_ledger) as (_ & _ & E & _).
  - repeat constructor; discriminate.
  - rewrite E. vm_compute. reflexivity.
Defined.

(** C10: for an object with a key whose value is [undefined],
    [deterministicStringify] writes the key followed by [undefined], a text
    that [JSON.parse] refuses, while the JSON round trip that [createBlock]
    applies before hashing returns the object without that key; and there
    are values whose hash differs from the hash of their round trip. *)
Theorem undefined_written_then_dropped (props : list (string * value)) (k : string) :
  wf_value (VObj props) -> In (k, VUndefined) props ->
  occurs_in (quote k ++ ":undefined") (ds_text (VObj props)) /\
  JSON_parse (ds_text (VObj props)) = None /\
  normalize (VObj props) = Some (VObj (image_props props)) /\
  ~ In k (keys (image_props props)) /\
  exists m m', normalize m = Some m' /\ calculateObjectHash m <> calculateObjectHash m'.
Proof.
  intros W I. split.
  - inversion W as [| | | | | |? N F]; subst.
    destruct (undefined_is_written props k N I) as (pre & post & E).
    exists pre, post. unfold ds_text. now rewrite E.
  - split; [exact (undefined_is_not_json props k W I)|].
    destruct (undefined_is_dropped props k W I) as (N & K).
    split; [exact N|]. split; [exact K|].
    exists (VObj [("a", VUndefined)]), (VObj []). exact hashes_differ_example.
Qed.

(** An object with one defined and one undefined value. *)
Lemma undefined_written_then_dropped_witness :
  let m := VObj [("title", VStr "Lease"); ("note", VUndefined)] in
  occurs_in (quote "note" ++ ":undefined") (ds_text m) /\
  JSON_parse (ds_text m) = None /\
  normalize m = Some (VObj [("title", VStr "Lease")]).
Proof.
  intros m.
  destruct (undefined_written_then_dropped
              [("title", VStr "Lease"); ("note", VUndefined)] "note")
    as (O & P & N & _).
  - repeat constructor; simpl; intuition discriminate.
  - right. left. reflexivity.
  - split; [exact O|]. split; [exact P | exact N].
Defined.



(** A buffer with the marker tag at offsets 0 and 21. *)
Lemma lastIndexOf_last_witness :
  let twice := (markerTag ++ [x41; x0a] ++ markerTag ++ [x42; x0a])%list in
  lastIndexOf twice markerTag = Some 21%nat /\
  starts_with markerTag (skipn 21 twice) = true /\
  forall j, (21 < j < List.length twice)%nat -> starts_with markerTag (skipn j twice) = false.
Proof.
  intros twice.
  assert (E : lastIndexOf twice markerTag = Some 21%nat) by reflexivity.
  destruct (lastIndexOf_last twice markerTag 21 E) as (_ & S & N).
  split; [exact E|]. split; [exact S | exact N].
Defined.

(** X2: on a value other than [undefined], [JSON.parse (JSON.stringify v)]
    returns the JSON image of [v]: undefined-valued keys dropped, undefined
    array elements turned into [null], the rest as it was; the image is a
    fixed point of the round trip. *)
Theorem json_round_trip (v : value) :
  wf_value v -> v <> VUndefined ->
  normalize v = Some (json_image v) /\
  normalize (json_image v) = Some (json_image v) /\
  wf_value (json_image v).
Proof.
  intros W D. pose proof (normalize_image v W D) as N.
  split; [exact N|]. split; [exact (normalize_idempotent v _ W N)|].
  now apply wf_json_image.
Qed.

(** An object with an undefined value and an array with an undefined element. *)
Lemma json_round_trip_witness :
  normalize (VObj [ ("a", VUndefined);
                    ("b", VArr [VUndefined; VNum {| nneg := true; ndigits := "15"; nexp := -1 |}]);
                    ("c", VStr "x") ])
  = Some (VObj [ ("b", VArr [VNull; VNum {| nneg := true; ndigits := "15"; nexp := -1 |}]);
                 ("c", VStr "x") ]).
Proof.
  refine (proj1 (json_round_trip _ _ _)).
  - repeat constructor; simpl; intuition discriminate.
  - discriminate.
Defined.

(** X3: the text of an envelope comes back from its base64, as bytes and as
    a string. *)
Theorem envelope_base64_round_trip (b : Buffer) (text : string) :
  Buffer_from_base64 (toString_base64 b) = b /\
  string_of_buffer (Buffer_from_base64 (toString_base64 (buffer_of_string text))) = text.
Proof.
  split; [apply Buffer_from_base64_toString|].
  rewrite Buffer_from_base64_toString. apply string_of_buffer_of_string.
Qed.

(** X5: two instants have the same ISO text only if they are the same
    instant: the hashed timestamp determines [created_at]. *)
Theorem iso_text_tells_instants_apart (t1 t2 : Date) :
  toISOString t1 = toISOString t2 <-> t1 = t2.
Proof. split; [apply toISOString_inj | now intros ->]. Qed.

(** X6: on JSON values, the deterministic encoding is the same exactly when
    the values are the same up to the order of their keys. *)
Theorem serializer_tells_values_apart (v1 v2 : value) :
  wf_value v1 -> wf_value v2 -> is_json v1 -> is_json v2 ->
  (deterministicStringify v1 = deterministicStringify v2 <-> same_value v1 v2).
Proof.
  intros W1 W2 J1 J2. split.
  - now apply deterministicStringify_inj.
  - now apply deterministicStringify_same.
Qed.

(** Two objects that differ in one value. *)
Lemma serializer_tells_values_apart_witness :
  deterministicStringify (VObj [("a", VStr "x"); ("b", VNull)])
  = deterministicStringify (VObj [("b", VBool false); ("a", VStr "x")])
  <-> same_value (VObj [("a", VStr "x"); ("b", VNull)])
                 (VObj [("b", VBool false); ("a", VStr "x")]).
Proof.
  apply serializer_tells_values_apart.
  - repeat constructor; simpl; intuition discriminate.
  - repeat constructor; simpl; intuition discriminate.
  - repeat constructor.
  - repeat constructor.
Defined.

(** * The digest as a text *)

Lemma be_bytes_range (n : nat) (x : Z) : in_byte_range (SHA256.be_bytes n x).
Proof.
  unfold in_byte_range. induction n as [|n IH]; cbn [SHA256.be_bytes]; constructor;
    [apply Z.mod_pos_bound; lia | exact IH].
Qed.

Lemma digest_Z_range (msg : list Z) : in_byte_range (SHA256.digest_Z msg).
Proof.
  unfold SHA256.digest_Z, in_byte_range. cbv zeta. rewrite Forall_forall.
  intros z Hz. apply in_flat_map in Hz as (w & _ & Hz).
  pose proof (be_bytes_range 4 w) as R. unfold in_byte_range in R.
  rewrite Forall_forall in R. now apply R.
Qed.

Lemma digest_Z_length (msg : list Z) : List.length (SHA256.digest_Z msg) = 32%nat.
Proof.
  unfold SHA256.digest_Z. cbv zeta.
  match goal with |- context [SHA256.blocks ?f SHA256.H0 ?ws] =>
    pose proof (blocks_length f SHA256.H0 ws eq_refl) as L;
    destruct (SHA256.blocks f SHA256.H0 ws) as [|a [|b [|c [|d [|e [|f0 [|g [|h [|]]]]]]]]];
    try discriminate L end.
  reflexivity.
Qed.

Lemma hex_digit_lower (n : Z) : is_lower_hex (hex_digit n) = true.
Proof.
  destruct n as [|p|p]; try reflexivity.
  do 4 (destruct p as [p|p|]; try reflexivity).
Qed.

Lemma hex_of_Zs_text (l : list Z) :
  String.length (hex_of_Zs l) = (2 * List.length l)%nat /\
  all_chars is_lower_hex (hex_of_Zs l) = true.
Proof.
  induction l as [|z l [IH1 IH2]]; [split; reflexivity|].
  cbn [hex_of_Zs String.length List.length all_chars]. split; [lia|].
  now rewrite !hex_digit_lower, IH2.
Qed.

Lemma calculateHashBuffer_text (data : Buffer) : is_digest_text (calculateHashBuffer data).
Proof.
  unfold is_digest_text, calculateHashBuffer.
  destruct (hex_of_Zs_text (SHA256.digest_Z (map byte_to_Z data))) as [L A].
  rewrite digest_Z_length in L. split; assumption.
Qed.

(** X7: a hash is always a text of 64 lower-case hexadecimal digits, whether
    of a string, of a buffer or of an object that is not [undefined]; so is
    an HMAC. *)
Theorem digests_are_hex_texts :
  (forall data, is_digest_text (calculateHash data)) /\
  (forall data, is_digest_text (calculateHashBuffer data)) /\
  (forall v, v <> VUndefined ->
     exists t, calculateObjectHash v = Some t /\ is_digest_text t) /\
  (forall key data, is_digest_text (createHmac key data)).
Proof.
  split; [intros data; apply calculateHashBuffer_text|].
  split; [exact calculateHashBuffer_text|]. split.
  - intros v D. unfold calculateObjectHash.
    rewrite (deterministicStringify_defined v D). cbn [option_map].
    eexists. split; [reflexivity | apply calculateHashBuffer_text].
  - intros key data. unfold is_digest_text, createHmac, HMAC.hmac_Z.
    match goal with |- context [hex_of_Zs (SHA256.digest_Z ?m)] =>
      destruct (hex_of_Zs_text (SHA256.digest_Z m)) as [L A];
      rewrite digest_Z_length in L end.
    split; assumption.
Qed.

Lemma digest_text_nonempty (t : string) : is_digest_text t -> t <> "".
Proof. intros [L _] ->. discriminate L. Qed.

(** * Problems and links *)

Lemma problems_reported (l : list DocumentBlock) (i : nat) (b : DocumentBlock) (msg : string) :
  nth_error l i = Some b -> In msg (problems_of l b i) -> In msg (all_problems l).
Proof.
  intros N I. unfold all_problems. apply in_concat. exists (problems_of l b i).
  split; [|exact I]. apply (nth_error_In _ i).
  rewrite nth_error_map_indexed, N. reflexivity.
Qed.

Lemma no_problems_linked (l : list DocumentBlock) : all_problems l = [] -> linked l.
Proof.
  intros H i b N.
  assert (P : problems_of l b i = []).
  { destruct (problems_of l b i) as [|m r] eqn:E; [reflexivity|].
    pose proof (problems_reported l i b m N) as R. rewrite E, H in R.
    destruct (R (or_introl eq_refl)). }
  unfold problems_of in P. apply app_eq_nil in P as [_ P]. unfold link_problem in P.
  destruct i as [|j].
  - destruct (previous_hash b); [discriminate P | reflexivity].
  - assert (Lt : (S j < List.length l)%nat) by (apply nth_error_Some; congruence).
    destruct (nth_error l j) as [p|] eqn:Ej; [| apply nth_error_None in Ej; lia].
    exists p. split; [reflexivity|].
    destruct (previous_hash b) as [ph|]; cbn [differs] in P; [|discriminate P].
    destruct (String.eqb_spec ph (hash p)) as [E|]; [now rewrite E | discriminate P].
Qed.

(** A ledger has no problem exactly when every block has its hash and the
    blocks are linked. *)
Lemma all_problems_nil_iff (l : list DocumentBlock) :
  all_problems l = [] <->
  (forall b, In b l -> recomputed_hash b = hash b) /\ linked l.
Proof.
  split.
  - intros H. split; [intros b Hb; now apply (no_problems_hash l) | now apply no_problems_linked].
  - intros [H L]. now apply all_problems_none.
Qed.

Lemma valid_ledger (st : Store) :
  store_wf st -> verifyBlockchain st = Ok {| valid := true; errors := [] |} ->
  all_problems (findAll_asc st) = [].
Proof.
  intros W V. rewrite (verifyBlockchain_spec st W) in V. now injection V as _ V.
Qed.

Lemma linked_predecessor (l : list DocumentBlock) (b : DocumentBlock) (h : string) :
  linked l -> In b l -> previous_hash b = Some h -> exists p, In p l /\ hash p = h.
Proof.
  intros L I P. apply In_nth_error in I as [i N]. specialize (L i b N).
  destruct i as [|j]; [congruence|]. destruct L as (p & Np & E).
  exists p. split; [eapply nth_error_In; exact Np | congruence].
Qed.

(** * One document *)

(** What both verifications do with the row they found. *)
Lemma found_block_intact (findOne : Finder) (st : Store) (b : DocumentBlock)
    (e1 e2 : string) :
  selects findOne -> store_wf st -> all_problems (findAll_asc st) = [] -> In b (rows st) ->
  (let* h := calculatedHash b in
   let errors1 := if negb (h =? hash b)%string then [e1] else [] in
   let errors2 :=
     match nonempty (previous_hash b) with
     | Some previous =>
         match findOne (fun x => (hash x =? previous)%string) (rows st) with
         | None => (errors1 ++ [e2])%list
         | Some _ => errors1
         end
     | None => errors1
     end in
   Ok {| doc_valid := Nat.eqb (List.length errors2) 0; doc_block := Some b;
         doc_errors := errors2 |})
  = Ok {| doc_valid := true; doc_block := Some b; doc_errors := [] |}.
Proof.
  intros S W V I. apply all_problems_nil_iff in V as [H L].
  assert (Ia : In b (findAll_asc st))
    by (eapply Permutation_in; [symmetry; apply order_asc_perm | exact I]).
  assert (J : json_column (metadata b)).
  { unfold store_wf in W. rewrite Forall_forall in W. now apply W. }
  rewrite (calculatedHash_ok b J). cbn [bind]. rewrite (H b Ia), String.eqb_refl. cbn [negb].
  destruct (nonempty (previous_hash b)) as [previous|] eqn:N; [|reflexivity].
  assert (P : previous_hash b = Some previous).
  { destruct (previous_hash b) as [[|c r]|]; cbn in N; congruence. }
  destruct (linked_predecessor _ b previous L Ia P) as (p & Ip & Ep).
  apply (Permutation_in _ (order_asc_perm _)) in Ip.
  specialize (S (fun x => (hash x =? previous)%string) (rows st)).
  destruct (findOne _ (rows st)); [reflexivity|].
  specialize (S p Ip). cbn in S. rewrite Ep, String.eqb_refl in S. discriminate S.
Qed.

(** X8: in a ledger that verifies, every stored document verifies on its
    own, by its id: the answer is valid, without errors, and carries a row
    with that id.  An id that no row has is reported as not found. *)
Theorem verified_ledger_verifies_each_document (findOne : Finder) (st : Store) :
  selects findOne -> store_wf st ->
  verifyBlockchain st = Ok {| valid := true; errors := [] |} ->
  (forall b, In b (rows st) ->
     exists b', In b' (rows st) /\ document_id b' = document_id b /\
       verifyDocument findOne st (document_id b)
       = Ok {| doc_valid := true; doc_block := Some b'; doc_errors := [] |}) /\
  (forall documentId,
     (forall b, In b (rows st) -> document_id b <> documentId) ->
     verifyDocument findOne st documentId
     = Ok {| doc_valid := false; doc_block := None;
             doc_errors := ["Document not found in blockchain"] |}).
Proof.
  intros S W V. pose proof (valid_ledger st W V) as A. split.
  - intros b I. unfold verifyDocument.
    pose proof (S (fun x => (document_id x =? document_id b)%string) (rows st)) as F.
    destruct (findOne _ (rows st)) as [b'|].
    + destruct F as [I' E]. apply String.eqb_eq in E. exists b'.
      split; [exact I'|]. split; [exact E|].
      now apply found_block_intact.
    + specialize (F b I). cbn in F. rewrite String.eqb_refl in F. discriminate F.
  - intros documentId N. unfold verifyDocument.
    pose proof (S (fun x => (document_id x =? documentId)%string) (rows st)) as F.
    destruct (findOne _ (rows st)) as [b'|]; [|reflexivity].
    destruct F as [I' E]. apply String.eqb_eq in E. now destruct (N b' I').
Qed.

(** X9: in a ledger that verifies, an uploaded file whose SHA-256 is the
    content hash of a stored row is answered valid, with that hash and a row
    that has it; a file whose hash no row has is answered not found; a
    request without a file is refused. *)
Theorem verified_ledger_verifies_each_file (findOne : Finder) (st : Store) :
  selects findOne -> store_wf st ->
  verifyBlockchain st = Ok {| valid := true; errors := [] |} ->
  (forall pdf b, In b (rows st) -> content_hash b = calculateHashBuffer pdf ->
     exists b', In b' (rows st) /\ content_hash b' = calculateHashBuffer pdf /\
       verifyDocumentByFile findOne st (Some pdf)
       = Ok (FileVerdict {| doc_valid := true; doc_block := Some b'; doc_errors := [] |}
                         (calculateHashBuffer pdf))) /\
  (forall pdf,
     (forall b, In b (rows st) -> content_hash b <> calculateHashBuffer pdf) ->
     verifyDocumentByFile findOne st (Some pdf)
     = Ok (FileVerdict
             {| doc_valid := false; doc_block := None;
                doc_errors :=
                  ["Document not found in blockchain - this PDF was not generated by DocuChain or has been modified"] |}
             (calculateHashBuffer pdf))) /\
  verifyDocumentByFile findOne st None = Ok FileRequired.
Proof.
  intros S W V. pose proof (valid_ledger st W V) as A. split; [|split; [|reflexivity]].
  - intros pdf b I E. unfold verifyDocumentByFile, verifyDocumentByHash. cbv zeta.
    pose proof (S (fun x => (content_hash x =? calculateHashBuffer pdf)%string) (rows st)) as F.
    destruct (findOne _ (rows st)) as [b'|].
    + destruct F as [I' E']. apply String.eqb_eq in E'. exists b'.
      split; [exact I'|]. split; [exact E'|].
      rewrite (found_block_intact findOne st b' _ _ S W A I'). reflexivity.
    + specialize (F b I). cbn in F. rewrite E, String.eqb_refl in F. discriminate F.
  - intros pdf N. unfold verifyDocumentByFile, verifyDocumentByHash. cbv zeta.
    pose proof (S (fun x => (content_hash x =? calculateHashBuffer pdf)%string) (rows st)) as F.
    destruct (findOne _ (rows st)) as [b'|]; [|reflexivity].
    destruct F as [I' E]. apply String.eqb_eq in E. now destruct (N b' I').
Qed.

(** * One document, tampered with *)

Lemma mutation_breaks_hash (mu : Mutation) (b : DocumentBlock) :
  json_column (metadata b) -> recomputed_hash b = hash b ->
  changes mu b -> no_collision b (mutate mu b) ->
  recomputed_hash (mutate mu b) <> hash (mutate mu b).
Proof.
  intros Jb Hb C NC.
  destruct mu;
    try (intros E; apply (changes_text _ b Jb C); [intros s0 X; discriminate X|];
         apply NC; transitivity (hash b); [exact E | symmetry; exact Hb]).
  change (recomputed_hash (mutate (SetHash s) b)) with (recomputed_hash b).
  cbn [mutate hash changes] in *. rewrite Hb. congruence.
Qed.

Lemma mutation_keeps_column (mu : Mutation) (b : DocumentBlock) :
  json_column (metadata b) -> changes mu b -> json_column (metadata (mutate mu b)).
Proof. intros J C. destruct mu; cbn [mutate metadata]; try exact J. exact (proj1 C). Qed.

(** X10: a row whose stored hash was right, one of its fields changed behind
    the ledger's back: [verifyDocument] on the row's id answers invalid, with
    the hash error, as long as no other row goes by that id and SHA-256 does
    not collide on the row's old and new texts. *)
Theorem verifyDocument_detects_tampering (findOne : Finder) (st : Store) (n : nat)
    (b : DocumentBlock) (mu : Mutation) :
  selects findOne -> store_wf st ->
  nth_error (rows st) n = Some b ->
  recomputed_hash b = hash b ->
  changes mu b ->
  no_collision b (mutate mu b) ->
  (forall x, In x (rows (tamper st n mu)) ->
     document_id x = document_id (mutate mu b) -> x = mutate mu b) ->
  exists r,
    verifyDocument findOne (tamper st n mu) (document_id (mutate mu b)) = Ok r /\
    doc_valid r = false /\
    doc_block r = Some (mutate mu b) /\
    In "Block hash verification failed" (doc_errors r).
Proof.
  intros S W Hn Hb C NC U.
  assert (Jb : json_column (metadata b)).
  { unfold store_wf in W. rewrite Forall_forall in W. apply W. eapply nth_error_In; exact Hn. }
  assert (Im : In (mutate mu b) (rows (tamper st n mu)))
    by (unfold tamper; cbn [rows]; now apply update_nth_in).
  unfold verifyDocument.
  pose proof (S (fun x => (document_id x =? document_id (mutate mu b))%string)
                (rows (tamper st n mu))) as F.
  destruct (findOne _ (rows (tamper st n mu))) as [x|].
  - destruct F as [Ix Ex]. apply String.eqb_eq in Ex. rewrite (U x Ix Ex).
    rewrite (calculatedHash_ok _ (mutation_keeps_column mu b Jb C)). cbn [bind].
    pose proof (mutation_breaks_hash mu b Jb Hb C NC) as Bad.
    apply String.eqb_neq in Bad. rewrite Bad. cbn [negb].
    destruct (nonempty (previous_hash (mutate mu b))) as [previous|].
    + destruct (findOne _ (rows (tamper st n mu))); eexists; repeat split; now left.
    + eexists; repeat split; now left.
  - specialize (F _ Im). cbn in F. rewrite String.eqb_refl in F. discriminate F.
Qed.

(** * Rows deleted *)

Lemma linked_app_l (l1 l2 : list DocumentBlock) : linked (l1 ++ l2) -> linked l1.
Proof.
  intros L i b N.
  assert (Lt : (i < List.length l1)%nat) by (apply nth_error_Some; congruence).
  specialize (L i b). rewrite nth_error_app1 in L by exact Lt. specialize (L N).
  destruct i as [|j]; [exact L|]. destruct L as (p & Np & E).
  rewrite nth_error_app1 in Np by lia. now exists p.
Qed.

(** X11: the last block of a ledger that verifies can be deleted unseen:
    the ledger without it verifies as well. *)
Theorem truncated_ledger_verifies (st st' : Store) (l : list DocumentBlock)
    (b : DocumentBlock) :
  store_wf st -> store_wf st' ->
  findAll_asc st = (l ++ [b])%list -> findAll_asc st' = l ->
  verifyBlockchain st = Ok {| valid := true; errors := [] |} ->
  verifyBlockchain st' = Ok {| valid := true; errors := [] |}.
Proof.
  intros W W' E E' V. pose proof (valid_ledger st W V) as A.
  rewrite E in A. apply all_problems_nil_iff in A as [H L].
  rewrite (verifyBlockchain_spec st' W'), E'.
  rewrite (proj2 (all_problems_nil_iff l)); [reflexivity|].
  split; [intros x Hx; apply H, in_or_app; now left | now apply linked_app_l in L].
Qed.

Lemma NoDup_map_app_cons {A B : Type} (f : A -> B) (l1 l2 : list A) (b x : A) :
  NoDup (map f (l1 ++ b :: l2)) -> In x (l1 ++ l2) -> f x <> f b.
Proof.
  rewrite map_app. cbn [map]. intros N I E.
  apply NoDup_remove_2 in N. apply N. rewrite <- E, <- map_app. now apply in_map.
Qed.

(** X12: a block other than the last deleted from a ledger that verifies,
    whose hashes are all different: the ledger no longer verifies, and the
    block that followed the deleted one is named, as the first block with a
    link when nothing precedes it, for its link otherwise. *)
Theorem deleted_block_is_missed (st st' : Store) (l1 l2 : list DocumentBlock)
    (b s : DocumentBlock) :
  store_wf st -> store_wf st' ->
  findAll_asc st = (l1 ++ b :: s :: l2)%list ->
  findAll_asc st' = (l1 ++ s :: l2)%list ->
  NoDup (map hash (findAll_asc st)) ->
  verifyBlockchain st = Ok {| valid := true; errors := [] |} ->
  exists r,
    verifyBlockchain st' = Ok r /\ valid r = false /\
    In (match l1 with
        | [] => first_block_message s
        | _ => invalid_link_message s
        end) (errors r).
Proof.
  intros W W' E E' U V. pose proof (valid_ledger st W V) as A.
  rewrite E in A, U. apply all_problems_nil_iff in A as [_ L].
  assert (Ps : previous_hash s = Some (hash b)).
  { specialize (L (S (List.length l1)) s).
    rewrite nth_error_app2 in L by lia.
    replace (S (List.length l1) - List.length l1)%nat with 1%nat in L by lia.
    destruct (L eq_refl) as (p & Np & Ep).
    rewrite nth_error_app2, Nat.sub_diag in Np by lia. injection Np as <-. exact Ep. }
  assert (Ns : nth_error (l1 ++ s :: l2) (List.length l1) = Some s)
    by (rewrite nth_error_app2, Nat.sub_diag by lia; reflexivity).
  assert (R : In (match l1 with
                  | [] => first_block_message s
                  | _ => invalid_link_message s
                  end) (all_problems (l1 ++ s :: l2))).
  { apply (problems_reported _ _ _ _ Ns). unfold problems_of. apply in_or_app. right.
    unfold link_problem. destruct l1 as [|x l1] using rev_ind.
    - cbn [List.length]. rewrite Ps. now left.
    - clear IHl1. rewrite length_app. cbn [List.length].
      replace (List.length l1 + 1)%nat with (S (List.length l1)) by lia.
      rewrite <- app_assoc. cbn [app].
      rewrite nth_error_app2, Nat.sub_diag by lia. cbn [nth_error].
      rewrite Ps. cbn [differs].
      assert (D : hash x <> hash b).
      { apply (NoDup_map_app_cons hash (l1 ++ [x]) (s :: l2) b x U).
        apply in_or_app. left. apply in_or_app. right. now left. }
      apply not_eq_sym, String.eqb_neq in D. rewrite D. cbn [negb].
      destruct (l1 ++ [x])%list eqn:X; [now destruct l1 | now left]. }
  rewrite (verifyBlockchain_spec st' W'), E'. eexists. split; [reflexivity|].
  cbn [valid errors]. split; [|exact R].
  destruct (all_problems (l1 ++ s :: l2)); [destruct R | reflexivity].
Qed.

(** X13: after its predecessor is deleted, a block no longer verifies on its
    own either: [verifyDocument] answers that the previous block is not
    found, when no row is left with the hash the block names. *)
Theorem verifyDocument_misses_predecessor (findOne : Finder) (st : Store)
    (s : DocumentBlock) (h : string) :
  selects findOne -> store_wf st -> In s (rows st) ->
  (forall x, In x (rows st) -> document_id x = document_id s -> x = s) ->
  previous_hash s = Some h -> h <> "" ->
  (forall x, In x (rows st) -> hash x <> h) ->
  exists r,
    verifyDocument findOne st (document_id s) = Ok r /\
    doc_valid r = false /\ doc_block r = Some s /\
    In "Previous block not found" (doc_errors r).
Proof.
  intros S W I U P N M. unfold verifyDocument.
  pose proof (S (fun x => (document_id x =? document_id s)%string) (rows st)) as F.
  destruct (findOne _ (rows st)) as [x|].
  - destruct F as [Ix Ex]. apply String.eqb_eq in Ex. rewrite (U x Ix Ex).
    assert (J : json_column (metadata s)).
    { unfold store_wf in W. rewrite Forall_forall in W. now apply W. }
    rewrite (calculatedHash_ok s J). cbn [bind]. rewrite P.
    assert (Nh : nonempty (Some h) = Some h) by (destruct h; [congruence | reflexivity]).
    rewrite Nh.
    pose proof (S (fun x => (hash x =? h)%string) (rows st)) as G.
    destruct (findOne (fun x => (hash x =? h)%string) (rows st)) as [p|].
    + destruct G as [Ip Ep]. apply String.eqb_eq in Ep. now destruct (M p Ip).
    + eexists. split; [reflexivity|]. cbn [doc_valid doc_block doc_errors].
      split; [|split; [reflexivity | apply in_or_app; right; now left]].
      rewrite length_app. cbn [List.length]. apply Nat.eqb_neq. lia.
  - specialize (F s I). cbn in F. rewrite String.eqb_refl in F. discriminate F.
Qed.

(** * The history *)




(** * What [createBlock] keeps *)

Lemma NoDup_map_snoc {A B : Type} (f : A -> B) (l : list A) (b : A) :
  NoDup (map f l) -> (forall x, In x l -> f x <> f b) -> NoDup (map f (l ++ [b])).
Proof.
  intros N H. rewrite map_app. cbn [map].
  apply NoDup_app; [exact N | repeat constructor; intros [] |].
  intros y Hy [<-|[]]. apply in_map_iff in Hy as (x & E & Hx). exact (H x Hx E).
Qed.

(** X16: in a ledger that [createBlock] alone wrote, no two blocks have the
    same document id or the same hash, and every hash is a digest text. *)
Theorem createBlock_keeps_ledger_keyed (st : Store) :
  appended st ->
  NoDup (map document_id (rows st)) /\
  NoDup (map hash (rows st)) /\
  Forall (fun b => is_digest_text (hash b)) (rows st).
Proof.
  induction 1 as [| st st' clock insert_clock d ch sd m b _ (Nd & Nh & Fh) C].
  - repeat split; constructor.
  - apply createBlock_inv in C as (nm & _ & Eb & -> & U). cbn [rows next_id].
    rewrite forallb_forall in U.
    assert (Ud : forall x, In x (rows st) -> document_id x <> document_id b).
    { intros x Hx E. specialize (U x Hx). rewrite Eb in E. cbn [document_id] in E.
      rewrite E, String.eqb_refl in U. discriminate U. }
    assert (Uh : forall x, In x (rows st) -> hash x <> hash b).
    { intros x Hx E. specialize (U x Hx). rewrite E, String.eqb_refl, orb_true_r in U.
      discriminate U. }
    split; [now apply NoDup_map_snoc|]. split; [now apply NoDup_map_snoc|].
    apply Forall_app. split; [exact Fh|]. constructor; [|constructor].
    rewrite Eb. cbn [hash]. apply calculateHashBuffer_text.
Qed.


(** * The sample ledger *)

Lemma first_inserted_selects : selects first_inserted.
Proof.
  intros w l. unfold first_inserted. destruct (find w l) as [b|] eqn:E.
  - now apply find_some in E.
  - intros b Hb. exact (find_none _ _ E b Hb).
Qed.

Lemma three_blocks_appends :
  createBlock empty_store new_year_2024 new_year_2024 "doc-1" "aaa" "[]" (VObj [])
  = Ok (ledger_of [block_one], block_one) /\
  createBlock (ledger_of [block_one]) (new_year_2024 + 5)%Z (new_year_2024 + 5)%Z
    "doc-2" "bbb" "[]" (VObj [("title", VStr "Lease")])
  = Ok (ledger_of [block_one; block_two], block_two) /\
  createBlock (ledger_of [block_one; block_two]) (new_year_2024 + 9)%Z (new_year_2024 + 9)%Z
    "doc-3" (calculateHashBuffer sample_pdf) "[]" (VObj [])
  = Ok (three_blocks, block_three).
Proof. split; [|split]; vm_compute; reflexivity. Qed.

Lemma three_blocks_verify :
  verifyBlockchain three_blocks = Ok {| valid := true; errors := [] |}.
Proof. vm_compute. reflexivity. Qed.

Lemma sample_ledgers_wf (l : list DocumentBlock) :
  incl l [block_one; block_two; block_three] -> store_wf (ledger_of l).
Proof.
  intros I. unfold store_wf, ledger_of. cbn [rows]. rewrite Forall_forall.
  intros x Hx. apply I in Hx. destruct Hx as [<-|[<-|[<-|[]]]];
    (split; [repeat constructor; simpl; tauto | discriminate]).
Qed.

Lemma three_blocks_wf : store_wf three_blocks.
Proof. apply sample_ledgers_wf, incl_refl. Qed.

Lemma three_blocks_appended : appended three_blocks.
Proof.
  destruct three_blocks_appends as (A1 & A2 & A3).
  exact (appended_block _ _ _ _ _ _ _ _ _
           (appended_block _ _ _ _ _ _ _ _ _
              (appended_block _ _ _ _ _ _ _ _ _ appended_empty A1) A2) A3).
Qed.

(** Every document of the sample ledger, and an id that it does not have. *)
Lemma verified_ledger_verifies_each_document_witness :
  (exists b', In b' (rows three_blocks) /\ document_id b' = document_id block_two /\
     verifyDocument first_inserted three_blocks (document_id block_two)
     = Ok {| doc_valid := true; doc_block := Some b'; doc_errors := [] |}) /\
  verifyDocument first_inserted three_blocks "doc-9"
  = Ok {| doc_valid := false; doc_block := None;
          doc_errors := ["Document not found in blockchain"] |}.
Proof.
  destruct (verified_ledger_verifies_each_document first_inserted three_blocks
              first_inserted_selects three_blocks_wf three_blocks_verify) as [A B].
  split.
  - apply A. right. left. reflexivity.
  - apply B. intros b [<-|[<-|[<-|[]]]]; discriminate.
Defined.

(** The sample file, and the same file with a byte more. *)
Lemma verified_ledger_verifies_each_file_witness :
  (exists b', In b' (rows three_blocks) /\ content_hash b' = calculateHashBuffer sample_pdf /\
     verifyDocumentByFile first_inserted three_blocks (Some sample_pdf)
     = Ok (FileVerdict {| doc_valid := true; doc_block := Some b'; doc_errors := [] |}
                       (calculateHashBuffer sample_pdf))) /\
  verifyDocumentByFile first_inserted three_blocks (Some (sample_pdf ++ [x0a])%list)
  = Ok (FileVerdict
          {| doc_valid := false; doc_block := None;
             doc_errors :=
               ["Document not found in blockchain - this PDF was not generated by DocuChain or has been modified"] |}
          (calculateHashBuffer (sample_pdf ++ [x0a])%list)).
Proof.
  destruct (verified_ledger_verifies_each_file first_inserted three_blocks
              first_inserted_selects three_blocks_wf three_blocks_verify) as (A & B & _).
  split.
  - apply (A sample_pdf block_three); [right; right; left; reflexivity|].
    vm_compute. reflexivity.
  - apply B. intros b [<-|[<-|[<-|[]]]] E; apply String.eqb_eq in E; revert E;
      vm_compute; discriminate.
Defined.

(** The content hash of the second block, changed. *)
Lemma verifyDocument_detects_tampering_witness :
  exists r,
    verifyDocument first_inserted (tamper three_blocks 1 (SetContentHash "zzz")) "doc-2"
    = Ok r /\
    doc_valid r = false /\
    In "Block hash verification failed" (doc_errors r).
Proof.
  destruct (verifyDocument_detects_tampering first_inserted three_blocks 1 block_two
              (SetContentHash "zzz") first_inserted_selects three_blocks_wf eq_refl)
    as (r & E & V & _ & I).
  - vm_compute. reflexivity.
  - discriminate.
  - intros H. exfalso. apply String.eqb_eq in H. revert H. vm_compute. discriminate.
  - intros x [<-|[<-|[<-|[]]]] E; try discriminate E; reflexivity.
  - exists r. split; [exact E|]. split; [exact V | exact I].
Defined.

(** The sample ledger without its third block. *)
Lemma truncated_ledger_verifies_witness :
  verifyBlockchain (ledger_of [block_one; block_two])
  = Ok {| valid := true; errors := [] |}.
Proof.
  apply (truncated_ledger_verifies three_blocks (ledger_of [block_one; block_two])
           [block_one; block_two] block_three).
  - exact three_blocks_wf.
  - apply sample_ledgers_wf. intros x [<-|[<-|[]]]; simpl; tauto.
  - reflexivity.
  - reflexivity.
  - exact three_blocks_verify.
Defined.

(** The sample ledger without its second block. *)
Lemma deleted_block_is_missed_witness :
  exists r,
    verifyBlockchain (ledger_of [block_one; block_three]) = Ok r /\ valid r = false /\
    In "Block 3 has invalid previous hash link" (errors r).
Proof.
  apply (deleted_block_is_missed three_blocks (ledger_of [block_one; block_three])
           [block_one] [] block_two block_three).
  - exact three_blocks_wf.
  - apply sample_ledgers_wf. intros x [<-|[<-|[]]]; simpl; tauto.
  - reflexivity.
  - reflexivity.
  - repeat constructor; simpl; intuition discriminate.
  - exact three_blocks_verify.
Defined.

(** The third block, once the second is gone. *)
Lemma verifyDocument_misses_predecessor_witness :
  exists r,
    verifyDocument first_inserted (ledger_of [block_one; block_three]) "doc-3" = Ok r /\
    doc_valid r = false /\ doc_block r = Some block_three /\
    In "Previous block not found" (doc_errors r).
Proof.
  apply (verifyDocument_misses_predecessor first_inserted
           (ledger_of [block_one; block_three]) block_three (hash block_two)).
  - exact first_inserted_selects.
  - apply sample_ledgers_wf. intros x [<-|[<-|[]]]; simpl; tauto.
  - right. left. reflexivity.
  - intros x [<-|[<-|[]]] E; try discriminate E; reflexivity.
  - reflexivity.
  - discriminate.
  - intros x [<-|[<-|[]]]; discriminate.
Defined.


(** The sample ledger. *)
Lemma createBlock_keeps_ledger_keyed_witness :
  NoDup (map document_id (rows three_blocks)) /\
  NoDup (map hash (rows three_blocks)) /\
  Forall (fun b => is_digest_text (hash b)) (rows three_blocks).
Proof. exact (createBlock_keeps_ledger_keyed three_blocks three_blocks_appended). Defined.


(** * escapeHtml *)

Lemma replace_char_app (c : ascii) (by_ a b : string) :
  replace_char c by_ (a ++ b) = replace_char c by_ a ++ replace_char c by_ b.
Proof.
  induction a as [|x a IH]; [reflexivity|].
  cbn [append replace_char]. destruct (x =? c)%char.
  - rewrite IH, append_assoc. reflexivity.
  - rewrite IH. reflexivity.
Qed.

Lemma escapeHtml_cons (c : ascii) (r : string) :
  escapeHtml (String c r) = html_entity c ++ escapeHtml r.
Proof.
  unfold escapeHtml, html_entity. cbn [replace_char].
  destruct (Ascii.eqb_spec c "&") as [->|N1].
  { rewrite !replace_char_app. reflexivity. }
  cbn [replace_char]. destruct (Ascii.eqb_spec c "<") as [->|N2].
  { rewrite !replace_char_app. reflexivity. }
  cbn [replace_char]. destruct (Ascii.eqb_spec c ">") as [->|N3].
  { rewrite !replace_char_app. reflexivity. }
  cbn [replace_char]. destruct (Ascii.eqb_spec c dquote) as [->|N4].
  { rewrite !replace_char_app. reflexivity. }
  cbn [replace_char]. destruct (Ascii.eqb_spec c "'") as [->|N5].
  { reflexivity. }
  reflexivity.
Qed.

Lemma escapeHtml_each (s : string) : escapeHtml s = escape_each s.
Proof.
  induction s as [|c s IH]; [reflexivity|].
  rewrite escapeHtml_cons, IH. reflexivity.
Qed.

Lemma all_chars_app (p : ascii -> bool) (a b : string) :
  all_chars p (a ++ b) = all_chars p a && all_chars p b.
Proof.
  induction a as [|x a IH]; [reflexivity|].
  cbn [append all_chars]. rewrite IH, andb_assoc. reflexivity.
Qed.

Lemma html_entity_free (c : ascii) : free_of_markup (html_entity c).
Proof.
  unfold free_of_markup, html_entity, is_markup.
  destruct (Ascii.eqb_spec c "&"); [reflexivity|].
  destruct (c =? "<")%char eqn:E1; [reflexivity|].
  destruct (c =? ">")%char eqn:E2; [reflexivity|].
  destruct (c =? dquote)%char eqn:E3; [reflexivity|].
  destruct (c =? "'")%char eqn:E4; [reflexivity|].
  cbn [all_chars]. rewrite E1, E2, E3, E4. reflexivity.
Qed.

Lemma escape_each_free (s : string) : free_of_markup (escape_each s).
Proof.
  unfold free_of_markup. induction s as [|c s IH]; [reflexivity|].
  cbn [escape_each]. rewrite all_chars_app, IH, andb_true_r. apply html_entity_free.
Qed.

Ltac split_entities H :=
  repeat match type of H with
         | context [(?x =? ?y)%char] => destruct (Ascii.eqb_spec x y); subst
         end.

Lemma escape_each_inj (a b : string) : escape_each a = escape_each b -> a = b.
Proof.
  revert b. induction a as [|c a IH]; intros [|d b] H.
  - reflexivity.
  - exfalso. cbn [escape_each] in H. unfold html_entity in H. split_entities H; discriminate H.
  - exfalso. cbn [escape_each] in H. unfold html_entity in H. split_entities H; discriminate H.
  - cbn [escape_each] in H. unfold html_entity in H.
    split_entities H; cbn [append] in H; try discriminate H;
      try (injection H as H; f_equal; apply IH; exact H);
      try (injection H as E H; congruence).
    injection H as E H. subst. f_equal. apply IH. exact H.
Qed.

(** * appendHiddenMetadataBlock *)

Lemma truthy_defined (v : value) : truthy v = true -> v <> VUndefined.
Proof. intros H ->. discriminate H. Qed.

Lemma appendHiddenMetadataBlock_layout (template_ : string) (metadata_ : value) :
  truthy metadata_ = true ->
  appendHiddenMetadataBlock template_ metadata_
  = Ok (template_
          ++ hidden_block (escapeHtml (elem_text metadata_))
               (toString_base64 (buffer_of_string (elem_text metadata_)))).
Proof.
  intros T. unfold appendHiddenMetadataBlock. rewrite T. cbn [negb].
  rewrite (JSON_stringify_defined _ (truthy_defined _ T)). cbn [or_throw bind].
  unfold hidden_block. cbn [append]. rewrite ?append_assoc. reflexivity.
Qed.

Lemma markup_free_prefix (a b x y : string) :
  free_of_markup a -> free_of_markup b -> a ++ String "<" x = b ++ String "<" y -> a = b.
Proof.
  unfold free_of_markup. revert b. induction a as [|c a IH]; intros [|d b] Fa Fb E.
  - reflexivity.
  - exfalso. cbn [append] in E. injection E as <- _. discriminate Fb.
  - exfalso. cbn [append] in E. injection E as -> _. discriminate Fa.
  - cbn [append] in E. injection E as -> E. f_equal.
    cbn [all_chars] in Fa, Fb. apply andb_true_iff in Fa as [_ Fa], Fb as [_ Fb]. eauto.
Qed.

(** * buildRequestMetadata *)

Lemma keys_filter_NoDup (p : string * value -> bool) (l : list (string * value)) :
  NoDup (keys l) -> NoDup (keys (filter p l)).
Proof.
  unfold keys. induction l as [|[k v] l IH]; [intros _; constructor|].
  cbn [map fst filter]. intros N. inversion N as [|? ? Hk Hl]; subst.
  destruct (p (k, v)); [|auto]. cbn [map fst]. constructor; [|auto].
  intros I. apply Hk. apply in_map_iff in I as (x & E & Hx).
  apply filter_In in Hx as [Hx _]. apply in_map_iff. exists x. auto.
Qed.

Lemma get_prop_removeUndefined (l : list (string * value)) (k : string) :
  NoDup (keys l) ->
  get_prop (removeUndefined l) k
  = if is_filled (get_prop l k) then get_prop l k else VUndefined.
Proof.
  unfold removeUndefined.
  induction l as [|[k' v] l IH]; [reflexivity|].
  intros N. inversion N as [|? ? Hk Hl]; subst. cbn [filter snd get_prop].
  destruct (String.eqb_spec k' k) as [->|Ne].
  - destruct (is_filled v) eqn:F.
    + cbn [get_prop]. rewrite String.eqb_refl. reflexivity.
    + rewrite (IH Hl).
      assert (G : get_prop l k = VUndefined).
      { clear -Hk. induction l as [|[k2 v2] l IH]; [reflexivity|].
        cbn [get_prop]. destruct (String.eqb_spec k2 k) as [->|]; [|apply IH].
        - exfalso. apply Hk. left. reflexivity.
        - intros I. apply Hk. right. exact I. }
      rewrite G. reflexivity.
  - destruct (is_filled v).
    + cbn [get_prop]. destruct (String.eqb_spec k' k); [congruence|]. apply IH, Hl.
    + apply IH, Hl.
Qed.

Lemma slot_value_json (s : SignatureSlot) : wf_value (slot_value s) /\ is_json (slot_value s).
Proof.
  unfold slot_value. split.
  - constructor.
    + repeat constructor; cbn [In]; intuition discriminate.
    + repeat constructor.
  - repeat constructor.
Qed.

Lemma optional_json (x : option string) :
  is_filled (optional x) = true -> wf_value (optional x) /\ is_json (optional x).
Proof. destruct x; [intros _; split; constructor | discriminate]. Qed.

Lemma buildRequestMetadata_keys (clock : Date) (fresh_id : string) (req : Request)
    (options : MetadataOptions) :
  NoDup (keys (buildRequestMetadata clock fresh_id req options)) /\
  incl (keys (buildRequestMetadata clock fresh_id req options)) metadata_names.
Proof.
  unfold buildRequestMetadata, removeUndefined. split.
  - apply keys_filter_NoDup. cbn [keys map fst].
    repeat (constructor; [cbn [In]; intuition discriminate|]). constructor.
  - intros k Hk. unfold keys in Hk. apply in_map_iff in Hk as (kv & <- & Hkv).
    apply filter_In in Hkv as [Hkv _].
    change (In (fst kv) (map fst
      (map (fun k => (k, get_prop [] k)) metadata_names))).
    rewrite map_map. cbn [fst]. rewrite map_id.
    cbn [In] in Hkv. unfold metadata_names. cbn [In].
    repeat (destruct Hkv as [<-|Hkv]; [cbn [fst]; tauto|]). destruct Hkv.
Qed.

Lemma buildRequestMetadata_json (clock : Date) (fresh_id : string) (req : Request)
    (options : MetadataOptions) :
  wf_value (customMetadata options) ->
  is_json (customMetadata options) \/ is_filled (customMetadata options) = false ->
  wf_value (VObj (buildRequestMetadata clock fresh_id req options)) /\
  is_json (VObj (buildRequestMetadata clock fresh_id req options)).
Proof.
  intros W J.
  assert (A : Forall (fun kv => wf_value (snd kv) /\ is_json (snd kv))
                     (buildRequestMetadata clock fresh_id req options)).
  { unfold buildRequestMetadata, removeUndefined. rewrite Forall_forall.
    intros kv Hkv. apply filter_In in Hkv as [Hkv F]. cbn [In] in Hkv.
    repeat (destruct Hkv as [<-|Hkv];
            [cbn [snd] in *;
             first [ apply optional_json; exact F
                   | split; constructor
                   | idtac ] |]); [| |destruct Hkv].
    - split; [exact W|]. destruct J as [J|J]; [exact J | congruence].
    - destruct (signatureSlots options) as [slots|]; [|discriminate F].
      split; constructor; rewrite Forall_forall; intros x Hx;
        apply in_map_iff in Hx as (s & <- & _); apply slot_value_json. }
  split.
  - constructor; [apply buildRequestMetadata_keys|].
    eapply Forall_impl; [|exact A]. intros kv [H _]. exact H.
  - constructor. eapply Forall_impl; [|exact A]. intros kv [_ H]. exact H.
Qed.

Lemma json_stable_json (v : value) : is_json v -> json_stable v.
Proof. exact (json_image_json v). Qed.

(** * The signatures of a request *)

Lemma somes_filter_has_slot (l : list (option SignaturePayloadEntry)) :
  Forall (fun e => slot e <> "") (somes (filter has_slot l)).
Proof.
  induction l as [|[e|] l IH]; cbn [filter has_slot somes]; [constructor| |exact IH].
  destruct (slot e) eqn:E; [exact IH|]. cbn [somes]. constructor; [|exact IH].
  rewrite E. discriminate.
Qed.

Lemma normalize_entry_text (v : value) (e : SignaturePayloadEntry) :
  normalize_entry v = Some e -> slot e <> "" -> signatureText e <> "".
Proof.
  unfold normalize_entry. destruct (truthy v); cbn [negb]; [|discriminate].
  destruct v as [| | b | n | t | l | props]; try discriminate.
  - intros E. injection E as <-. cbn [slot signatureText]. auto.
  - destruct (get_prop props "slot") as [| | | | raw | |]; try discriminate.
    destruct (js_trim raw) as [|c r] eqn:T; [discriminate|].
    intros E. injection E as <-. cbn [slot signatureText]. intros _.
    destruct (get_prop props "signatureText") as [| | | | t | |]; try discriminate.
    destruct t; discriminate.
Qed.

Lemma somes_in {A : Type} (l : list (option A)) (a : A) : In a (somes l) -> In (Some a) l.
Proof.
  induction l as [|[x|] l IH]; cbn [somes]; [intros []| |].
  - intros [->|H]; [left; reflexivity | right; auto].
  - intros H. right. auto.
Qed.

Lemma length_somes {A : Type} (l : list (option A)) : (List.length (somes l) <= List.length l)%nat.
Proof. induction l as [|[x|] l IH]; cbn [somes List.length]; lia. Qed.

Lemma normalizeSignaturePayload_filled (payload : value) :
  Forall (fun e => slot e <> "" /\ signatureText e <> "") (normalizeSignaturePayload payload).
Proof.
  destruct payload as [| | | | | l |]; try constructor.
  cbn [normalizeSignaturePayload]. rewrite Forall_forall. intros e He.
  pose proof (somes_filter_has_slot (map normalize_entry l)) as F.
  rewrite Forall_forall in F. pose proof (F e He) as Fe. split; [exact Fe|].
  apply somes_in, filter_In in He as [He _]. apply in_map_iff in He as (v & E & _).
  exact (normalize_entry_text v e E Fe).
Qed.

Lemma entry_value_json (e : SignaturePayloadEntry) :
  wf_value (entry_value e) /\ is_json (entry_value e).
Proof.
  unfold entry_value. split.
  - constructor.
    + repeat constructor; cbn [In]; intuition discriminate.
    + repeat constructor.
  - repeat constructor.
Qed.

Lemma signature_data_parses (entries : list SignaturePayloadEntry) :
  parseSignatureData (signature_data_of entries) = map entry_value entries.
Proof.
  unfold signature_data_of, parseSignatureData.
  set (v := VArr (map entry_value entries)).
  assert (W : wf_value v).
  { constructor. rewrite Forall_forall. intros x Hx.
    apply in_map_iff in Hx as (e & <- & _). apply entry_value_json. }
  assert (J : is_json v).
  { constructor. rewrite Forall_forall. intros x Hx.
    apply in_map_iff in Hx as (e & <- & _). apply entry_value_json. }
  rewrite (JSON_stringify_defined v) by discriminate. cbn [template].
  destruct (String.eqb_spec (elem_text v) "") as [E|_].
  - exfalso. pose proof (elem_text_start v W) as S. rewrite E in S. discriminate S.
  - rewrite (JSON_parse_printed v W), (json_image_json v J). reflexivity.
Qed.

(** * extractSignatureSlots *)

Lemma startsWith_split (p t : string) :
  startsWith p t = true -> t = p ++ str_drop (String.length p) t.
Proof.
  revert t. induction p as [|a p IH]; intros [|b t] H; try reflexivity; try discriminate H.
  cbn [startsWith] in H. apply andb_true_iff in H as [E H].
  apply Ascii.eqb_eq in E. subst. cbn [String.length str_drop append]. f_equal. auto.
Qed.

Lemma startsWith_app (p rest : string) : startsWith p (p ++ rest) = true.
Proof.
  induction p as [|a p IH]; [reflexivity|]. cbn [append startsWith].
  rewrite Ascii.eqb_refl. exact IH.
Qed.

Lemma from_first_split (p t found : string) :
  from_first p t = Some found ->
  startsWith p found = true /\ exists before, t = before ++ found.
Proof.
  induction t as [|c t IH].
  - cbn [from_first]. destruct (startsWith p "") eqn:S; [|discriminate].
    intros E. injection E as <-. split; [exact S | exists ""; reflexivity].
  - cbn [from_first]. destruct (startsWith p (String c t)) eqn:S.
    + intros E. injection E as <-. split; [exact S | exists ""; reflexivity].
    + intros E. destruct (IH E) as (S' & before & ->).
      split; [exact S' | exists (String c before); reflexivity].
Qed.

Lemma scan_slot_id_split (text : string) :
  text = fst (scan_slot_id text) ++ snd (scan_slot_id text).
Proof.
  induction text as [|c r IH]; [reflexivity|]. cbn [scan_slot_id].
  destruct ((c =? ":") || (c =? "}") && startsWith "}" r)%char; [reflexivity|].
  destruct (scan_slot_id r) as [i rest]. cbn [fst snd append] in *. f_equal. exact IH.
Qed.

Lemma scan_label_eq (a : ascii) (r : string) (depth : nat) :
  scan_label (String a r) depth
  = match r with
    | EmptyString => (String a "", "")
    | String b r2 =>
        if ((a =? "{") && (b =? "{"))%char then
          let (l, rest) := scan_label r2 (S depth) in ("{{" ++ l, rest)
        else if ((a =? "}") && (b =? "}"))%char then
          match depth with
          | O => ("", r2)
          | S d => let (l, rest) := scan_label r2 d in ("}}" ++ l, rest)
          end
        else
          let (l, rest) := scan_label r depth in (String a l, rest)
    end.
Proof. destruct r; reflexivity. Qed.

Lemma scan_label_split (fuel : nat) (text : string) (depth : nat) :
  (String.length text < fuel)%nat ->
  exists read, text = read ++ snd (scan_label text depth).
Proof.
  revert text depth. induction fuel as [|fuel IH]; intros text depth L; [lia|].
  destruct text as [|a r]; [exists ""; reflexivity|].
  rewrite scan_label_eq. destruct r as [|b r2]; [exists (String a ""); reflexivity|].
  cbn [String.length] in L.
  destruct ((a =? "{") && (b =? "{"))%char.
  - destruct (IH r2 (S depth) ltac:(lia)) as (read & E).
    destruct (scan_label r2 (S depth)) as [l rest]. cbn [snd] in *.
    exists (String a (String b read)). cbn [append]. rewrite <- E. reflexivity.
  - destruct ((a =? "}") && (b =? "}"))%char.
    + destruct depth as [|d].
      * exists (String a (String b "")). reflexivity.
      * destruct (IH r2 d ltac:(lia)) as (read & E).
        destruct (scan_label r2 d) as [l rest]. cbn [snd] in *.
        exists (String a (String b read)). cbn [append]. rewrite <- E. reflexivity.
    + destruct (IH (String b r2) depth ltac:(cbn [String.length]; lia)) as (read & E).
      destruct (scan_label (String b r2) depth) as [l rest]. cbn [snd] in *.
      exists (String a read). cbn [append]. rewrite <- E. reflexivity.
Qed.

Lemma str_drop_split (n : nat) (text : string) : exists read, text = read ++ str_drop n text.
Proof. exists (str_take n text). symmetry. apply str_take_drop. Qed.

Lemma skip_char_split (text : string) : exists read, text = read ++ fst (skip_char text).
Proof.
  destruct text as [|a r]; [exists ""; reflexivity|]. cbn [skip_char].
  repeat match goal with |- context [if ?c then _ else _] => destruct c end; cbn [fst];
    match goal with
    | |- context [str_drop ?n r] =>
        destruct (str_drop_split n r) as (read & E); exists (String a read);
        cbn [append]; rewrite <- E; reflexivity
    | _ => exists (String a ""); reflexivity
    end.
Qed.

Lemma skip_two_units_split (text : string) : exists read, text = read ++ skip_two_units text.
Proof.
  unfold skip_two_units. destruct (skip_char_split text) as (r1 & E1).
  destruct (skip_char text) as [r units]. cbn [fst] in E1.
  destruct (Nat.leb 2 units); [exists r1; exact E1|].
  destruct (skip_char_split r) as (r2 & E2). exists (r1 ++ r2).
  rewrite append_assoc, <- E2. exact E1.
Qed.

Lemma str_take_app (a b : string) :
  str_take (String.length (a ++ b) - String.length b) (a ++ b) = a.
Proof.
  rewrite length_append. replace (_ + _ - _)%nat with (String.length a) by lia.
  induction a as [|c a IH]; cbn [String.length append str_take].
  - destruct b; reflexivity.
  - f_equal. exact IH.
Qed.

Lemma occur_in_order_later (ps : list string) (before t : string) :
  occur_in_order ps t -> occur_in_order ps (before ++ t).
Proof.
  destruct ps as [|p r]; [trivial|]. cbn [occur_in_order].
  intros (b & a & -> & H). exists (before ++ b), a. rewrite append_assoc. auto.
Qed.

Lemma label_or_filled (label_ slotId : string) : slotId <> "" -> label_or label_ slotId <> "".
Proof.
  unfold label_or. intros H. destruct (js_trim label_); [|discriminate].
  destruct slotId; [congruence | discriminate].
Qed.

(** What the loop reads for a slot: the text [read] between the id and the
    rest of the template. *)
Lemma slot_end_split (at_cursor : string) :
  exists read,
    at_cursor
    = read ++ snd (match at_cursor with
                   | String c r =>
                       if (c =? ":")%char then scan_label r 0
                       else if startsWith "}}" at_cursor then ("", str_drop 2 at_cursor)
                       else ("", at_cursor)
                   | EmptyString => ("", at_cursor)
                   end).
Proof.
  destruct at_cursor as [|c r]; [exists ""; reflexivity|].
  destruct (c =? ":")%char.
  - destruct (scan_label_split (S (String.length r)) r 0 ltac:(lia)) as (read & E).
    exists (String c read). cbn [append]. rewrite <- E. reflexivity.
  - destruct (startsWith "}}" (String c r)); cbn [snd].
    + apply str_drop_split.
    + exists "". reflexivity.
Qed.

Lemma extract_slots_spec (fuel : nat) (text : string) :
  (String.length text < fuel)%nat ->
  exists slots,
    extract_slots fuel text = Some slots /\
    Forall (fun s => slot_id s <> "" /\ slot_label s <> "" /\
                     startsWith slot_prefix (slot_placeholder s) = true) slots /\
    occur_in_order (map slot_placeholder slots) text.
Proof.
  revert text. induction fuel as [|fuel IH]; intros text L; [lia|].
  cbn [extract_slots].
  destruct (from_first slot_prefix text) as [found|] eqn:F.
  2:{ exists []. split; [reflexivity|]. split; [constructor | exact I]. }
  apply from_first_split in F as (S & before & ->).
  pose proof (startsWith_split _ _ S) as E0.
  set (tail := str_drop (String.length slot_prefix) found) in *.
  pose proof (scan_slot_id_split tail) as E1.
  destruct (scan_slot_id tail) as [rawId at_cursor]. cbn [fst snd] in E1.
  assert (Lf : (String.length found
                = String.length slot_prefix + String.length rawId + String.length at_cursor)%nat).
  { rewrite E0 at 1. rewrite E1, !length_append. lia. }
  rewrite length_append in L.
  destruct (js_trim rawId) as [|c0 r0] eqn:T.
  - destruct (skip_two_units_split at_cursor) as (read & E2).
    destruct (IH (skip_two_units at_cursor)) as (slots & X & Y & Z).
    { apply (f_equal String.length) in E2. rewrite length_append in E2.
      change (String.length slot_prefix) with 17%nat in Lf. lia. }
    exists slots. split; [exact X|]. split; [exact Y|].
    rewrite E0, E1, E2. rewrite <- !append_assoc.
    apply occur_in_order_later. exact Z.
  - destruct (slot_end_split at_cursor) as (read & E2).
    destruct (match at_cursor with
              | String c r =>
                  if (c =? ":")%char then scan_label r 0
                  else if startsWith "}}" at_cursor then ("", str_drop 2 at_cursor)
                  else ("", at_cursor)
              | EmptyString => ("", at_cursor)
              end) as [label_ rest]. cbn [snd] in E2.
    destruct (IH rest) as (slots & X & Y & Z).
    { apply (f_equal String.length) in E2. rewrite length_append in E2.
      change (String.length slot_prefix) with 17%nat in Lf. lia. }
    rewrite X. eexists. split; [reflexivity|].
    assert (P : found = (slot_prefix ++ rawId ++ read) ++ rest).
    { rewrite E0, E1, E2 at 1. rewrite !append_assoc. reflexivity. }
    assert (P' : str_take (String.length found - String.length rest) found
                 = slot_prefix ++ rawId ++ read).
    { rewrite P at 1 2. apply str_take_app. }
    split.
    + constructor; [|exact Y]. cbn [slot_id slot_label slot_placeholder].
      split; [discriminate|]. split; [apply label_or_filled; discriminate|].
      rewrite P'. apply startsWith_app.
    + cbn [map slot_placeholder occur_in_order]. exists before, rest.
      rewrite P'. split; [rewrite P at 1; reflexivity | exact Z].
Qed.

(** * The template utilities and the signatures, stated *)

(** X18: [escapeHtml] leaves no [<], [>], double or single quote in its
    result, gives different results for different texts, and leaves a text
    alone that has none of these characters and no [&]. *)
Theorem escapeHtml_is_safe_and_reversible (a : string) :
  free_of_markup (escapeHtml a) /\
  (forall b, escapeHtml a = escapeHtml b -> a = b) /\
  (all_chars (fun c => negb (is_markup c || (c =? "&")%char)) a = true -> escapeHtml a = a).
Proof.
  rewrite escapeHtml_each. split; [apply escape_each_free|]. split.
  - intros b. rewrite escapeHtml_each. apply escape_each_inj.
  - induction a as [|c a IH]; [reflexivity|]. cbn [all_chars escape_each].
    intros H. apply andb_true_iff in H as [Hc Ha]. rewrite (IH Ha).
    apply negb_true_iff, orb_false_iff in Hc as [Hm Hc]. unfold is_markup in Hm.
    apply orb_false_iff in Hm as [Hm H4]. apply orb_false_iff in Hm as [Hm H3].
    apply orb_false_iff in Hm as [H1 H2].
    unfold html_entity. rewrite Hc, H1, H2, H3, H4. reflexivity.
Qed.

(** X19: [appendHiddenMetadataBlock] never throws.  Without metadata the
    template comes back as it is.  With metadata the template is followed by
    a hidden [div] and a comment: the text in the [div] holds no character
    that could close it and is that of no other metadata; the text in the
    comment is base64 throughout, so the comment ends where it should, and
    decodes and parses to the metadata as JSON has it. *)
Theorem hidden_block_keeps_metadata (template_ : string) (metadata_ : value) :
  wf_value metadata_ ->
  (truthy metadata_ = false -> appendHiddenMetadataBlock template_ metadata_ = Ok template_) /\
  (truthy metadata_ = true ->
   exists body payload,
     appendHiddenMetadataBlock template_ metadata_
     = Ok (template_ ++ hidden_block body payload) /\
     free_of_markup body /\
     all_chars is_b64_text payload = true /\
     JSON_parse (string_of_buffer (Buffer_from_base64 payload)) = Some (json_image metadata_) /\
     (forall other,
        wf_value other -> truthy other = true ->
        appendHiddenMetadataBlock template_ other = Ok (template_ ++ hidden_block body payload) ->
        json_image other = json_image metadata_)).
Proof.
  intros W. split.
  - intros T. unfold appendHiddenMetadataBlock. rewrite T. reflexivity.
  - intros T. eexists _, _. split; [apply appendHiddenMetadataBlock_layout, T|].
    split; [rewrite escapeHtml_each; apply escape_each_free|].
    split; [apply toString_base64_text|].
    split.
    + rewrite Buffer_from_base64_toString, string_of_buffer_of_string.
      apply JSON_parse_printed, W.
    + intros other Wo To E. rewrite (appendHiddenMetadataBlock_layout _ _ To) in E.
      injection E as E. apply append_inv_head in E. unfold hidden_block in E.
      repeat (cbn [append] in E; injection E as E).
      apply markup_free_prefix in E;
        [|rewrite escapeHtml_each; apply escape_each_free..].
      rewrite !escapeHtml_each in E. apply escape_each_inj in E.
      pose proof (JSON_parse_printed _ W) as P1.
      pose proof (JSON_parse_printed _ Wo) as P2. congruence.
Qed.

(** Metadata with markup in it, after a short template. *)
Lemma hidden_block_keeps_metadata_witness :
  exists body payload,
    appendHiddenMetadataBlock "Hello" (VObj [("note", VStr "<b>&</b>")])
    = Ok ("Hello" ++ hidden_block body payload) /\
    free_of_markup body /\
    JSON_parse (string_of_buffer (Buffer_from_base64 payload))
    = Some (VObj [("note", VStr "<b>&</b>")]).
Proof.
  destruct (hidden_block_keeps_metadata "Hello" (VObj [("note", VStr "<b>&</b>")]))
    as [_ H].
  - constructor; [repeat constructor; cbn [In]; tauto | repeat constructor].
  - destruct (H eq_refl) as (body & payload & A & F & _ & P & _).
    exists body, payload. split; [exact A|]. split; [exact F | exact P].
Defined.

(** X20: the metadata [previewDocument] builds from a request whose body
    carries JSON metadata survives [JSON.stringify] and [JSON.parse]
    unchanged: the envelope attached with it passes the checks of
    [signDocument], whatever the secret, for a file that does not end in a
    carriage return.  The envelope hands back the slots, the template (when
    it is not empty) and the metadata of the body (when it is neither [null]
    nor the empty string). *)
Theorem preview_metadata_passes_sign_checks (clock : Date) (fresh_id : string)
    (req : Request) (custom : value) (template_ : string) (slots : list SignatureSlot)
    (attach_clock : Date) (pdf : Buffer) (secret : option string) :
  wf_value custom -> is_json custom -> ends_with_cr pdf = false ->
  exists r,
    attachPreviewEnvelope attach_clock pdf
      (preview_metadata clock fresh_id req custom template_ slots) secret = Ok r /\
    signDocument_checks secret (Some (buffer r)) None = Ok (Verified (envelope r)) /\
    field (envelope r) "metadata" = preview_metadata clock fresh_id req custom template_ slots /\
    field (field (envelope r) "metadata") "signature_slots" = VArr (map slot_value slots) /\
    field (field (envelope r) "metadata") "template_content"
    = match template_ with EmptyString => VUndefined | _ => VStr template_ end /\
    field (field (envelope r) "metadata") "custom_metadata"
    = (if is_filled custom then custom else VUndefined).
Proof.
  intros W J C.
  destruct (buildRequestMetadata_json clock fresh_id req
              (preview_options custom template_ slots) W (or_introl J)) as [Wm Jm].
  fold (preview_metadata clock fresh_id req custom template_ slots) in Wm, Jm.
  assert (F : forall k,
             field (preview_metadata clock fresh_id req custom template_ slots) k
             = get_prop (buildRequestMetadata clock fresh_id req
                           (preview_options custom template_ slots)) k) by reflexivity.
  remember (preview_metadata clock fresh_id req custom template_ slots) as m eqn:Em.
  destruct (attach_then_sign attach_clock pdf m secret Wm (json_stable_json m Jm) C)
    as (r & A & V).
  exists r. split; [exact A|]. split; [exact V|].
  pose proof (attach_result attach_clock pdf m secret) as R. cbv zeta in R.
  rewrite R in A.
  assert (M : field (envelope r) "metadata" = m).
  { assert (Q : forall x y : AttachPreviewResult, Ok x = Ok y -> x = y)
      by (intros x y H; injection H; trivial).
    rewrite <- (Q _ _ A). cbn [envelope].
    unfold envelope_signed, envelope_base. destruct (nonempty secret); reflexivity. }
  rewrite M. split; [reflexivity|]. rewrite !F.
  assert (N : forall l : list (string * value),
             keys l = metadata_names -> NoDup (keys l)).
  { intros l ->. unfold metadata_names.
    repeat (constructor; [cbn [In]; intuition discriminate|]). constructor. }
  unfold buildRequestMetadata.
  rewrite !get_prop_removeUndefined by (apply N; reflexivity).
  split; [reflexivity|]. split.
  - cbn [get_prop String.eqb Ascii.eqb Bool.eqb preview_options templateContent optional].
    destruct template_; reflexivity.
  - reflexivity.
Qed.

(** The sample request, its body and the sample file. *)
Lemma preview_metadata_passes_sign_checks_witness :
  exists r,
    attachPreviewEnvelope (new_year_2024 + 1)%Z sample_pdf
      (preview_metadata new_year_2024 "req-1" sample_request sample_custom sample_template [])
      (Some "secret") = Ok r /\
    signDocument_checks (Some "secret") (Some (buffer r)) None = Ok (Verified (envelope r)).
Proof.
  destruct (preview_metadata_passes_sign_checks new_year_2024 "req-1" sample_request
              sample_custom sample_template [] (new_year_2024 + 1)%Z sample_pdf (Some "secret"))
    as (r & A & V & _).
  - constructor; [repeat constructor; cbn [In]; tauto | repeat constructor].
  - repeat constructor.
  - reflexivity.
  - exists r. split; [exact A | exact V].
Defined.

(** X21: the entries [normalizeSignaturePayload] keeps have a slot and a
    text that are not empty, and are at most as many as the payload has
    elements; a payload that is no array gives none.  The signature data
    that [signDocument] stores in the block parses back to these entries, so
    the export counts them. *)
Theorem signatures_are_stored_and_counted (payload : value) (st st' : Store)
    (clock insert_clock : Date) (documentId contentHash : string) (m : value)
    (b : DocumentBlock) (index : nat) :
  createBlock st clock insert_clock documentId contentHash
    (signature_data_of (normalizeSignaturePayload payload)) m = Ok (st', b) ->
  Forall (fun e => slot e <> "" /\ signatureText e <> "") (normalizeSignaturePayload payload) /\
  (forall l, payload = VArr l ->
     (List.length (normalizeSignaturePayload payload) <= List.length l)%nat) /\
  ((forall l, payload <> VArr l) -> normalizeSignaturePayload payload = []) /\
  parseSignatureData (signature_data b)
  = map entry_value (normalizeSignaturePayload payload) /\
  signature_count (anonymize b index)
  = Z.of_nat (List.length (normalizeSignaturePayload payload)).
Proof.
  intros C. apply createBlock_inv in C as (nm & _ & -> & _).
  split; [apply normalizeSignaturePayload_filled|]. split.
  - intros l ->. cbn [normalizeSignaturePayload].
    eapply Nat.le_trans; [apply length_somes|].
    eapply Nat.le_trans; [apply filter_length_le|]. rewrite length_map. lia.
  - split.
    + intros N. destruct payload; try reflexivity. exfalso. exact (N _ eq_refl).
    + cbn [anonymize signature_data signature_count].
      rewrite signature_data_parses, length_map. split; reflexivity.
Qed.

(** The sample payload: of its four elements two are kept. *)
Lemma signatures_are_stored_and_counted_witness :
  exists st' b,
    createBlock empty_store new_year_2024 new_year_2024 "doc-1" "aaa"
      (signature_data_of (normalizeSignaturePayload sample_payload)) (VObj []) = Ok (st', b) /\
    normalizeSignaturePayload sample_payload
    = [ {| slot := "tenant"; signatureText := "tenant" |};
        {| slot := "owner"; signatureText := "owner" |} ] /\
    signature_count (anonymize b 0) = 2%Z.
Proof.
  evaluate E (createBlock empty_store new_year_2024 new_year_2024 "doc-1" "aaa"
                (signature_data_of (normalizeSignaturePayload sample_payload)) (VObj [])).
  match type of E with _ = Ok (?s, ?x) => exists s, x end.
  split; [exact E|]. split; [reflexivity|].
  destruct (signatures_are_stored_and_counted _ _ _ _ _ _ _ _ _ 0%nat E) as (_ & _ & _ & _ & N).
  exact N.
Defined.

(** X22: [extractSignatureSlots] returns for every template.  Each slot it
    lists has an id and a label that are not empty and a placeholder that
    begins with the prefix; the placeholders are pieces of the template that
    follow one another in the order of the list, none reaching into the
    next.  A template without the prefix has no slot. *)
Theorem extractSignatureSlots_lists_slots_in_order (template_ : string) :
  exists slots,
    extractSignatureSlots template_ = Some slots /\
    Forall (fun s => slot_id s <> "" /\ slot_label s <> "" /\
                     startsWith slot_prefix (slot_placeholder s) = true) slots /\
    occur_in_order (map slot_placeholder slots) template_ /\
    (from_first slot_prefix template_ = None -> slots = []).
Proof.
  unfold extractSignatureSlots.
  destruct (extract_slots_spec (S (String.length template_)) template_ ltac:(lia))
    as (slots & E & F & O).
  exists slots. split; [exact E|]. split; [exact F|]. split; [exact O|].
  intros N. cbn [extract_slots] in E. rewrite N in E. congruence.
Qed.

(** * Slots as templates write them *)

Lemma startsWith_app_l (a b t : string) :
  startsWith (a ++ b) t = true -> startsWith a t = true.
Proof.
  revert t. induction a as [|x a IH]; intros t H; [reflexivity|].
  destruct t as [|y t]; [discriminate H|]. cbn [append startsWith] in *.
  apply andb_true_iff in H as [E H]. rewrite E. cbn [andb]. auto.
Qed.

Lemma startsWith_trans (a b t : string) :
  startsWith a b = true -> startsWith b t = true -> startsWith a t = true.
Proof.
  intros A B. apply startsWith_split in A. rewrite A in B.
  exact (startsWith_app_l _ _ _ B).
Qed.

Lemma startsWith_nil (p : string) : p <> "" -> startsWith p "" = false.
Proof. destruct p; [congruence | reflexivity]. Qed.

(** A match that begins in [s] lies within [s] when no end of [p] begins [w]. *)
Lemma startsWith_within (p s w : string) :
  s <> "" ->
  (forall k, (0 < k < String.length p)%nat -> startsWith (str_drop k p) w = false) ->
  startsWith p (s ++ w) = true -> startsWith p s = true.
Proof.
  revert s. induction p as [|a p IH]; intros s N T H; [reflexivity|].
  destruct s as [|c s]; [congruence|]. cbn [append startsWith] in *.
  apply andb_true_iff in H as [E H]. rewrite E. cbn [andb].
  destruct s as [|c2 s].
  - cbn [append] in H. destruct p as [|b p]; [reflexivity|].
    specialize (T 1%nat ltac:(cbn [String.length]; lia)). cbn [str_drop] in T. congruence.
  - apply IH; [discriminate| |exact H].
    intros k Hk. apply (T (S k)). cbn [String.length]. lia.
Qed.

Lemma prefix_tails (k : nat) (w : string) :
  (0 < k < String.length slot_prefix)%nat -> neutral w ->
  startsWith (str_drop k slot_prefix) w = false.
Proof.
  intros Hk [->|[L|P]].
  - apply startsWith_nil. intros E. apply (f_equal String.length) in E.
    rewrite length_str_drop in E. cbn [String.length] in E. lia.
  - destruct w as [|c w]; [discriminate L|]. cbn [startsWith] in L.
    apply andb_true_iff in L as [L _]. apply Ascii.eqb_eq in L. subst c.
    do 17 (destruct k as [|k]; [try lia; reflexivity|]).
    exfalso. cbn [slot_prefix String.length] in Hk. lia.
  - apply startsWith_split in P. rewrite P.
    do 17 (destruct k as [|k]; [try lia; reflexivity|]).
    exfalso. cbn [slot_prefix String.length] in Hk. lia.
Qed.

Lemma from_first_none (p u v : string) :
  from_first p (u ++ v) = None -> startsWith p v = false.
Proof.
  induction u as [|c u IH]; cbn [append].
  - destruct v; cbn [from_first]; destruct (startsWith p _); congruence.
  - cbn [from_first]. destruct (startsWith p (String c (u ++ v))); [discriminate | exact IH].
Qed.

Lemma no_start_plain (x w : string) : plain x -> neutral w -> no_start x w.
Proof.
  intros P N u c v ->. destruct (startsWith slot_prefix (String c v ++ w)) eqn:S; [|reflexivity].
  apply startsWith_within in S; [|discriminate|intros k Hk; now apply prefix_tails].
  rewrite (from_first_none _ _ _ P) in S. discriminate S.
Qed.

Lemma no_char_suffix (c : ascii) (u v : string) : no_char c (u ++ v) -> no_char c v.
Proof.
  unfold no_char. rewrite all_chars_app. intros H. apply andb_true_iff in H as [_ H]. exact H.
Qed.

Lemma no_start_rendered (r w : string) : no_char "{" r -> no_start r w.
Proof.
  intros N u c v ->. apply no_char_suffix in N. unfold no_char in N.
  cbn [all_chars] in N. apply andb_true_iff in N as [N _]. apply negb_true_iff in N.
  cbn [append slot_prefix startsWith]. rewrite Ascii.eqb_sym, N. reflexivity.
Qed.

Lemma app_eq_app (a b u : string) (c : ascii) (v : string) :
  a ++ b = u ++ String c v ->
  (exists v', a = u ++ String c v' /\ v = v' ++ b) \/
  (exists u', b = u' ++ String c v /\ u = a ++ u').
Proof.
  revert u. induction a as [|x a IH]; intros u E.
  - right. exists u. split; [exact E | reflexivity].
  - destruct u as [|y u]; cbn [append] in E.
    + injection E as -> E. left. exists a. split; [reflexivity | symmetry; exact E].
    + injection E as -> E. destruct (IH u E) as [(v' & -> & ->)|(u' & -> & ->)].
      * left. exists v'. split; reflexivity.
      * right. exists u'. split; reflexivity.
Qed.

Lemma no_start_app (a b w : string) :
  no_start a (b ++ w) -> no_start b w -> no_start (a ++ b) w.
Proof.
  intros A B u c v E. apply app_eq_app in E as [(v' & -> & ->)|(u' & -> & ->)].
  - rewrite <- (A u c v' eq_refl). cbn [append]. rewrite append_assoc. reflexivity.
  - exact (B u' c v eq_refl).
Qed.

Lemma no_start_nil (w : string) : no_start "" w.
Proof. intros [|x u] c v E; discriminate E. Qed.

Lemma no_start_tail (c : ascii) (x w : string) : no_start (String c x) w -> no_start x w.
Proof. intros N u d v ->. exact (N (String c u) d v eq_refl). Qed.

Lemma from_first_skip (x w : string) :
  no_start x w -> from_first slot_prefix (x ++ w) = from_first slot_prefix w.
Proof.
  induction x as [|c x IH]; intros N; [reflexivity|].
  cbn [append]. change (from_first slot_prefix (String c (x ++ w)))
    with (if startsWith slot_prefix (String c (x ++ w)) then Some (String c (x ++ w))
          else from_first slot_prefix (x ++ w)).
  pose proof (N "" c x eq_refl) as S. cbn [append] in S. rewrite S.
  apply IH. exact (no_start_tail _ _ _ N).
Qed.

Lemma from_first_here (p y : string) : from_first p (p ++ y) = Some (p ++ y).
Proof.
  destruct (p ++ y) eqn:E; cbn [from_first]; rewrite <- E, startsWith_app; reflexivity.
Qed.

Lemma str_drop_app (a b : string) : str_drop (String.length a) (a ++ b) = b.
Proof. induction a as [|c a IH]; [destruct b; reflexivity | exact IH]. Qed.

Lemma split_first_here (p y : string) : split_first p (p ++ y) = Some ("", y).
Proof.
  destruct (p ++ y) eqn:E; cbn [split_first]; rewrite <- E, startsWith_app, str_drop_app;
    reflexivity.
Qed.

Lemma split_first_skip (p x w : string) :
  startsWith slot_prefix p = true -> no_start x (p ++ w) ->
  split_first p (x ++ p ++ w) = Some (x, w).
Proof.
  intros P. induction x as [|c x IH]; intros N; [exact (split_first_here p w)|].
  cbn [append].
  change (split_first p (String c (x ++ p ++ w)))
    with (if startsWith p (String c (x ++ p ++ w))
          then Some ("", str_drop (String.length p) (String c (x ++ p ++ w)))
          else match split_first p (x ++ p ++ w) with
               | Some (before, after) => Some (String c before, after)
               | None => None
               end).
  pose proof (N "" c x eq_refl) as S. cbn [append] in S.
  destruct (startsWith p (String c (x ++ p ++ w))) eqn:T.
  - exfalso. apply (startsWith_trans _ _ _ P) in T. congruence.
  - rewrite (IH (no_start_tail _ _ _ N)). reflexivity.
Qed.

Lemma expand_replacement_plain (matched before after r : string) :
  no_char "$" r -> expand_replacement matched before after r = r.
Proof.
  unfold no_char. induction r as [|a r IH]; [reflexivity|]. cbn [all_chars].
  intros H. apply andb_true_iff in H as [Ha Hr]. apply negb_true_iff in Ha.
  cbn [expand_replacement]. rewrite Ha, (IH Hr). reflexivity.
Qed.

Lemma js_replace_in_place (x p w r : string) :
  startsWith slot_prefix p = true -> no_start x (p ++ w) -> no_char "$" r ->
  js_replace (x ++ p ++ w) p r = x ++ r ++ w.
Proof.
  intros P N D. unfold js_replace. rewrite (split_first_skip p x w P N).
  rewrite (expand_replacement_plain _ _ _ _ D). reflexivity.
Qed.

(** * What the loop reads of a written slot *)

Lemma scan_slot_id_written (i rest : string) :
  no_char ":" i -> no_char "}" i ->
  (startsWith ":" rest = true \/ startsWith "}}" rest = true) ->
  scan_slot_id (i ++ rest) = (i, rest).
Proof.
  unfold no_char. intros A B R. induction i as [|c i IH].
  - cbn [append]. destruct rest as [|c r]; [destruct R as [R|R]; discriminate R|].
    cbn [scan_slot_id]. destruct R as [R|R].
    + cbn [startsWith] in R. apply andb_true_iff in R as [R _].
      rewrite Ascii.eqb_sym, R. reflexivity.
    + cbn [startsWith] in R. apply andb_true_iff in R as [R1 R2].
      destruct r as [|c2 r]; [discriminate R2|].
      apply andb_true_iff in R2 as [R2 _].
      cbn [startsWith]. rewrite (Ascii.eqb_sym c "}"), R1, R2, orb_true_r. reflexivity.
  - cbn [all_chars] in A, B. apply andb_true_iff in A as [A1 A], B as [B1 B].
    apply negb_true_iff in A1, B1. cbn [append scan_slot_id].
    rewrite A1, B1. cbn [orb andb]. rewrite (IH A B). reflexivity.
Qed.

Lemma scan_label_written (l rest : string) :
  no_char "{" l -> no_char "}" l -> scan_label (l ++ "}}" ++ rest) 0 = (l, rest).
Proof.
  unfold no_char. intros A B.
  assert (Base : scan_label ("}}" ++ rest) 0 = ("", rest)) by reflexivity.
  assert (Nw : "}}" ++ rest <> "") by discriminate.
  revert Base Nw. generalize ("}}" ++ rest) as w. intros w Base Nw.
  induction l as [|c l IH]; [exact Base|].
  cbn [all_chars] in A, B. apply andb_true_iff in A as [A1 A], B as [B1 B].
  apply negb_true_iff in A1, B1. cbn [append]. rewrite scan_label_eq.
  specialize (IH A B).
  destruct (l ++ w) as [|b r2] eqn:E.
  { destruct l; [cbn [append] in E; congruence | discriminate E]. }
  rewrite A1, B1. cbn [andb]. rewrite IH. reflexivity.
Qed.

Lemma well_written_start (s : WrittenSlot) :
  startsWith slot_prefix (slot_text s) = true.
Proof. unfold slot_text. apply startsWith_app. Qed.

Lemma slot_text_start (s : WrittenSlot) (rest : string) :
  startsWith slot_prefix (slot_text s ++ rest) = true.
Proof. unfold slot_text. rewrite append_assoc. apply startsWith_app. Qed.

(** The turn of the loop that finds a written slot. *)
Lemma extract_slots_written (fuel : nat) (before : string) (s : WrittenSlot) (rest : string) :
  plain before -> well_written s ->
  extract_slots (S fuel) (before ++ slot_text s ++ rest)
  = match extract_slots fuel rest with
    | Some slots => Some (slot_of s :: slots)
    | None => None
    end.
Proof.
  intros P (W1 & W2 & W3 & W4).
  cbn [extract_slots].
  rewrite from_first_skip.
  2:{ apply no_start_plain; [exact P|]. right. right. apply slot_text_start. }
  set (ending := match written_label s with Some l => String ":" l | None => "" end ++ "}}").
  assert (X : slot_text s ++ rest = slot_prefix ++ written_id s ++ ending ++ rest).
  { unfold slot_text. fold ending. rewrite !append_assoc. reflexivity. }
  rewrite X, from_first_here, str_drop_app.
  assert (E : scan_slot_id (written_id s ++ ending ++ rest)
              = (written_id s, ending ++ rest)).
  { apply scan_slot_id_written; [exact W1 | exact W2 |].
    unfold ending. destruct (written_label s); [left | right]; reflexivity. }
  rewrite E.
  destruct (js_trim (written_id s)) as [|c0 r0] eqn:T; [congruence|].
  assert (L : match ending ++ rest with
              | String c r =>
                  if (c =? ":")%char then scan_label r 0
                  else if startsWith "}}" (ending ++ rest)
                       then ("", str_drop 2 (ending ++ rest))
                       else ("", ending ++ rest)
              | EmptyString => ("", ending ++ rest)
              end
              = (match written_label s with Some l => l | None => "" end, rest)).
  { unfold ending. destruct (written_label s) as [l|].
    - cbn [append Ascii.eqb Bool.eqb]. destruct W4 as [W4 W5].
      rewrite append_assoc. apply (scan_label_written l rest W4 W5).
    - reflexivity. }
  rewrite L.
  replace (str_take _ _) with (slot_text s).
  2:{ symmetry. rewrite <- X. apply str_take_app. }
  unfold slot_of. rewrite T. reflexivity.
Qed.

Lemma extract_slots_woven (pieces : list (string * WrittenSlot)) (tail : string) (fuel : nat) :
  Forall (fun piece => plain (fst piece) /\ well_written (snd piece)) pieces ->
  plain tail ->
  (List.length pieces < fuel)%nat ->
  extract_slots fuel (weave slot_text pieces tail) = Some (map (fun piece => slot_of (snd piece)) pieces).
Proof.
  intros F T. revert fuel. induction F as [|[before s] pieces [P W] F IH]; intros fuel L.
  - destruct fuel as [|fuel]; [cbn [List.length] in L; lia|].
    cbn [weave extract_slots map]. unfold plain in T. rewrite T. reflexivity.
  - destruct fuel as [|fuel]; [lia|]. cbn [weave fst snd] in *.
    rewrite (extract_slots_written fuel before s _ P W).
    rewrite IH by (cbn [List.length] in L; lia). reflexivity.
Qed.

Lemma length_weave (pieces : list (string * WrittenSlot)) (tail : string) :
  (List.length pieces <= String.length (weave slot_text pieces tail))%nat.
Proof.
  induction pieces as [|[before s] pieces IH]; cbn [weave List.length]; [lia|].
  rewrite !length_append. unfold slot_text at 1. rewrite !length_append.
  cbn [slot_prefix String.length]. lia.
Qed.

(** The slots replaced one after the other, [out] being what the earlier
    replacements have left before the template still to go. *)
Lemma replace_woven (f : SignatureSlot -> string) (pieces : list (string * WrittenSlot))
    (tail out : string) :
  Forall (fun piece => plain (fst piece) /\ rendered (f (slot_of (snd piece)))) pieces ->
  (forall w, no_start out w) ->
  fold_left (fun processed s => js_replace processed (slot_placeholder s) (f s))
            (map (fun piece => slot_of (snd piece)) pieces)
            (out ++ weave slot_text pieces tail)
  = out ++ weave (fun s => f (slot_of s)) pieces tail.
Proof.
  intros F. revert out. induction F as [|[before s] pieces [P (R1 & R2 & R3)] F IH]; intros out O.
  - reflexivity.
  - cbn [weave map fold_left fst snd slot_of slot_placeholder] in *.
    fold (slot_of s).
    assert (N : no_start (out ++ before) (slot_text s ++ weave slot_text pieces tail)).
    { apply no_start_app; [apply O|]. apply no_start_plain; [exact P|].
      right. right. apply slot_text_start. }
    rewrite <- (append_assoc out before).
    rewrite (js_replace_in_place _ _ _ _ (well_written_start s) N R3).
    rewrite <- (append_assoc (out ++ before)).
    rewrite IH.
    + rewrite !append_assoc. reflexivity.
    + intros w. apply no_start_app.
      * apply no_start_app; [apply O|]. apply no_start_plain; [exact P|].
        right. left. destruct (f (slot_of s)); [discriminate R1 | exact R1].
      * apply no_start_rendered, R2.
Qed.

Lemma split_first_split (p t before after : string) :
  split_first p t = Some (before, after) -> t = before ++ p ++ after.
Proof.
  revert before. induction t as [|c t IH]; intros before.
  - cbn [split_first]. destruct (startsWith p "") eqn:S; [|discriminate].
    intros E. injection E as <- <-. exact (startsWith_split _ _ S).
  - cbn [split_first]. destruct (startsWith p (String c t)) eqn:S.
    + intros E. injection E as <- <-. exact (startsWith_split _ _ S).
    + destruct (split_first p t) as [[b a]|]; [|discriminate].
      intros E. injection E as <- <-. cbn [append]. f_equal. apply IH. reflexivity.
Qed.

(** * Written slots are found and rendered *)

(** X23: in a template made of texts without the prefix and of slots
    written [{{signature_slot:id}}] or [{{signature_slot:id:label}}], the id
    without colon or closing brace and not blank, the label without brace,
    [extractSignatureSlots] finds every slot, in order: the id trimmed, the
    label trimmed (the id, when there is no label or a blank one), and as
    placeholder the slot as written. *)
Theorem written_slots_are_extracted (pieces : list (string * WrittenSlot)) (tail : string) :
  Forall (fun piece => plain (fst piece) /\ well_written (snd piece)) pieces ->
  plain tail ->
  extractSignatureSlots (weave slot_text pieces tail)
  = Some (map (fun piece => slot_of (snd piece)) pieces).
Proof.
  intros F T. unfold extractSignatureSlots. apply extract_slots_woven; [exact F | exact T |].
  pose proof (length_weave pieces tail). lia.
Qed.

(** The sample template. *)
Lemma written_slots_are_extracted_witness :
  extractSignatureSlots "Agreed. {{signature_slot:tenant:The tenant}} and {{signature_slot: owner }}."
  = Some [ {| slot_id := "tenant"; slot_label := "The tenant";
              slot_placeholder := "{{signature_slot:tenant:The tenant}}" |};
           {| slot_id := "owner"; slot_label := "owner";
              slot_placeholder := "{{signature_slot: owner }}" |} ].
Proof.
  apply (written_slots_are_extracted sample_pieces ".").
  - repeat constructor; cbn [snd written_id]; vm_compute; discriminate.
  - reflexivity.
Defined.

(** X24: on such a template [replaceSignatureSlots] puts what the renderer
    returns where each extracted slot stood and leaves the texts between
    them alone, when what the renderer returns for these slots begins with
    [<] and has no brace and no dollar.  The dollar matters: what the
    renderer returns is read as a replacement pattern, so that a renderer
    that returns [$&] leaves any template as it is. *)
Theorem extracted_slots_are_rendered_in_place (pieces : list (string * WrittenSlot))
    (tail : string) (slots : list SignatureSlot) (slotRenderer : SignatureSlot -> string) :
  Forall (fun piece => plain (fst piece) /\ well_written (snd piece)) pieces ->
  plain tail ->
  extractSignatureSlots (weave slot_text pieces tail) = Some slots ->
  Forall (fun s => rendered (slotRenderer s)) slots ->
  replaceSignatureSlots (weave slot_text pieces tail) slots slotRenderer
  = weave (fun s => slotRenderer (slot_of s)) pieces tail /\
  (forall template_ s, replaceSignatureSlots template_ [s] (fun _ => "$&") = template_).
Proof.
  intros F T E R. split.
  - unfold extractSignatureSlots in E. rewrite extract_slots_woven in E;
      [|exact F|exact T|pose proof (length_weave pieces tail); lia].
    injection E as <-. unfold replaceSignatureSlots.
    refine (replace_woven slotRenderer pieces tail "" _ no_start_nil).
    rewrite Forall_forall in *. intros piece Hp. split; [apply (F piece Hp)|].
    apply R. apply in_map_iff. exists piece. auto.
  - intros template_ s. unfold replaceSignatureSlots, js_replace. cbn [fold_left].
    destruct (split_first (slot_placeholder s) template_) as [[before after]|] eqn:S;
      [|reflexivity].
    apply split_first_split in S. cbn [expand_replacement Ascii.eqb Bool.eqb].
    rewrite append_empty_r. symmetry. exact S.
Qed.

(** The sample template, each slot underlined. *)
Lemma extracted_slots_are_rendered_in_place_witness :
  replaceSignatureSlots
    "Agreed. {{signature_slot:tenant:The tenant}} and {{signature_slot: owner }}."
    (map (fun piece => slot_of (snd piece)) sample_pieces) underline
  = "Agreed. <u>tenant</u> and <u>owner</u>.".
Proof.
  apply (extracted_slots_are_rendered_in_place sample_pieces "."
           (map (fun piece => slot_of (snd piece)) sample_pieces) underline).
  - repeat constructor; cbn [snd written_id]; vm_compute; discriminate.
  - reflexivity.
  - vm_compute. reflexivity.
  - repeat constructor.
Defined.
